(** * The PDF standard security handler of Ghostscript (pdf_sec.ps)

    A shallow embedding of the PostScript procedures that take PDF
    encryption into account: the derivation of the file key, the password
    checks of every revision, the per-object key and the decision, taken
    while an object is resolved, to attach a stream key.

    PostScript procedures are stack programs.  Each one is embedded as a
    function of its operands; the comments next to the definitions give the
    stack pictures of the source.  Global names of the interpreter (Trailer,
    PDFPassword, FileKey) and the diagnostics it prints are the state of a
    small monad: a reader for the first two, state for the rest, errors
    for what signalerror raises. *)

From Stdlib Require Import ZArith List String Bool Lia DecimalString.
From Stdlib Require Import Init.Byte Strings.Byte.
From coqutil Require Import Byte.
Import ListNotations.
Local Open Scope Z_scope.

Set Implicit Arguments.
Set Warnings "-register-all".

(** ** PostScript values *)

Definition bytes := list byte.

(** The characters of a name or of a string literal of the source. *)
Definition chars (s : string) : bytes := list_byte_of_string s.

Fixpoint bytes_eqb (a b : bytes) : bool :=
  match a, b with
  | [], [] => true
  | x :: a', y :: b' => Byte.eqb x y && bytes_eqb a' b'
  | _, _ => false
  end.

(** Objects that occur in a trailer and in the objects of a file.
    References are taken as already resolved ([oget] forces them). *)
Inductive obj : Type :=
| ONull
| OBool (b : bool)
| OInt (n : Z)
| OName (s : string)
| OString (s : bytes)
| OArray (l : list obj)
| ODict (d : list (string * obj)).

Definition dict := list (string * obj).

Fixpoint dict_get (d : dict) (k : string) : option obj :=
  match d with
  | [] => None
  | (k', v) :: d' => if String.eqb k' k then Some v else dict_get d' k
  end.

Fixpoint dict_put (d : dict) (k : string) (v : obj) : dict :=
  match d with
  | [] => [(k, v)]
  | (k', v') :: d' =>
      if String.eqb k' k then (k, v) :: d' else (k', v') :: dict_put d' k v
  end.

(** [obj /name eq]: a name equals a name or a string of the same
    characters, and nothing else. *)
Definition name_eq (o : obj) (n : string) : bool :=
  match o with
  | OName s => String.eqb s n
  | OString s => bytes_eqb s (chars n)
  | _ => false
  end.

(** [obj int eq] *)
Definition int_eq (o : obj) (n : Z) : bool :=
  match o with
  | OInt m => m =? n
  | _ => false
  end.

(** ** Errors, diagnostics and the interpreter state *)

Inductive error : Type :=
| undefined
| rangecheck
| typecheck
| invalidfileaccess.

(** What pdfformaterror, pdfformatwarning and printProducer write; none of
    them stops the interpreter. *)
Inductive diag : Type :=
| FormatError (msg : string)
| FormatWarning (msg : string)
| Producer.

(** The names the procedures only read, and the part of the interpreter
    state they change. *)
Record env : Type := mkEnv {
  Trailer : dict;
  PDFPassword : option bytes       (* /PDFPassword where *)
}.

Record state : Type := mkState {
  FileKey : option bytes;          (* /FileKey where *)
  diags : list diag
}.

Inductive result (A : Type) : Type :=
| Ok (a : A)
| Err (e : error).
Arguments Err {A} e.

Definition M (A : Type) : Type := env -> state -> result A * state.

Definition ret {A} (a : A) : M A := fun _ s => (Ok a, s).

Definition bind {A B} (m : M A) (f : A -> M B) : M B :=
  fun e s =>
    match m e s with
    | (Ok a, s') => f a e s'
    | (Err x, s') => (Err x, s')
    end.

Definition signalerror {A} (x : error) : M A := fun _ s => (Err x, s).

Definition asks {A} (f : env -> A) : M A := fun e s => (Ok (f e), s).

Definition gets {A} (f : state -> A) : M A := fun _ s => (Ok (f s), s).

Definition emit (d : diag) : M unit :=
  fun _ s => (Ok tt, mkState (FileKey s) (diags s ++ [d])).

Definition pdfformaterror (msg : string) : M unit := emit (FormatError msg).
Definition pdfformatwarning (msg : string) : M unit := emit (FormatWarning msg).
Definition printProducer : M unit := emit Producer.

(** [/FileKey exch def] *)
Definition def_FileKey (k : bytes) : M unit :=
  fun _ s => (Ok tt, mkState (Some k) (diags s)).

Definition lift {A} (r : result A) : M A := fun _ s => (r, s).

Declare Scope ps_scope.
Delimit Scope ps_scope with ps.
Notation "x <- m ;; k" := (bind m (fun x => k))
  (at level 61, m at next level, right associativity) : ps_scope.
Notation "m ;;; k" := (bind m (fun _ => k))
  (at level 61, right associativity) : ps_scope.
Local Open Scope ps_scope.

(** ** Operators on the modelled values *)

Definition len (s : bytes) : Z := Z.of_nat (List.length s).

Definition substr (s : bytes) (i n : Z) : bytes :=
  firstn (Z.to_nat n) (skipn (Z.to_nat i) s).

(** [string index count getinterval] *)
Definition getinterval (s : bytes) (i n : Z) : M bytes :=
  if (0 <=? i) && (0 <=? n) && (i + n <=? len s)
  then ret (substr s i n)
  else signalerror rangecheck.

(** [n string]: a string of [n] zero bytes. *)
Definition zeros (n : nat) : bytes := repeat x00 n.

(** [dict key get] on a composite that must be a dictionary; [oget] is
    [get] followed by the resolution of a reference. *)
Definition get (d : obj) (k : string) : M obj :=
  match d with
  | ODict l => match dict_get l k with
               | Some v => ret v
               | None => signalerror undefined
               end
  | _ => signalerror typecheck
  end.

Definition oget := get.

(** [dict key .knownget] and [knownoget]: [value true] or [false]. *)
Definition knownget (d : obj) (k : string) : M (option obj) :=
  match d with
  | ODict l => ret (dict_get l k)
  | _ => signalerror typecheck
  end.

Definition knownoget := knownget.

(** [array 0 oget] *)
Definition oget0 (a : obj) : M obj :=
  match a with
  | OArray (x :: _) => ret x
  | OArray [] => signalerror rangecheck
  | _ => signalerror typecheck
  end.

Definition as_int (o : obj) : M Z :=
  match o with OInt n => ret n | _ => signalerror typecheck end.

Definition as_string (o : obj) : M bytes :=
  match o with OString s => ret s | _ => signalerror typecheck end.

Definition as_bool (o : obj) : M bool :=
  match o with OBool b => ret b | _ => signalerror typecheck end.

(** [Trailer /Encrypt oget] *)
Definition Encrypt : M obj :=
  t <- asks Trailer ;; oget (ODict t) "Encrypt".

(** [n { body } repeat] *)
Fixpoint ps_repeat {A} (n : nat) (body : A -> M A) (a : A) : M A :=
  match n with
  | O => ret a
  | S n' => a' <- body a ;; ps_repeat n' body a'
  end.

(** [first 1 limit { body } for]: the body sees the control variable. *)
Fixpoint for_from {A} (i : Z) (n : nat) (body : Z -> A -> M A) (a : A) : M A :=
  match n with
  | O => ret a
  | S n' => a' <- body i a ;; for_from (i + 1) n' body a'
  end.

Definition ps_for {A} (first limit : Z) (body : Z -> A -> M A) (a : A) : M A :=
  for_from first (Z.to_nat (limit - first + 1)) body a.

(** [string index int put]: the stored value must be a byte. *)
Definition put (s : bytes) (i : Z) (v : Z) : M bytes :=
  if (0 <=? i) && (i <? len s) then
    if (0 <=? v) && (v <=? 255)
    then ret (firstn (Z.to_nat i) s ++ byte.of_Z v :: skipn (Z.to_nat i + 1) s)
    else signalerror rangecheck
  else signalerror rangecheck.

(** [string index get] *)
Definition sget (s : bytes) (i : Z) : M Z :=
  if (0 <=? i) && (i <? len s)
  then ret (byte.unsigned (nth (Z.to_nat i) s x00))
  else signalerror rangecheck.

(** ** Capabilities

    The filters and operators the procedures call are not part of
    pdf_sec.ps.  The procedures are written once over any implementation of
    them; [Real] below supplies the published algorithms. *)

Record capabilities : Type := mkCaps {
  (* the output of an MD5Encode filter fed with the string *)
  MD5Encode : bytes -> bytes;
  (* the output of a SHA256Encode filter fed with the string *)
  SHA256Encode : bytes -> bytes;
  (* << /Key key >> /ArcfourDecode filter, read to its end *)
  ArcfourDecode : bytes -> bytes -> result bytes;
  (* << /Key key /Padding b >> /AESDecode filter, read to its end; the first
     16 bytes of the data are the initialisation vector *)
  AESDecode : bytes -> bool -> bytes -> result bytes;
  (* .saslprep, when the interpreter was built with libidn *)
  saslprep : option (bytes -> bytes);
  (* .locale_to_utf8, when the platform can convert *)
  locale_to_utf8 : option (bytes -> bytes);
  (* <password> <encrypt-dict> check_r6_password <filekey> true | false *)
  check_r6_password : bytes -> obj -> M (option bytes)
}.

Section Security.

Variable caps : capabilities.

(** <ciphertext> <key> arc4decode <plaintext> *)
Definition arc4decode (c key : bytes) : M bytes :=
  if len c =? 0 then ret c
  else out <- lift (ArcfourDecode caps key c) ;;
       (* 1 index length string ... readstring pop *)
       ret (firstn (List.length c) out).

(** <ciphertext> << /Key key /Padding padding >> aesdecode <plaintext> *)
Definition aesdecode (c key : bytes) (padding : bool) : M bytes :=
  if len c =? 0 then ret c
  else out <- lift (AESDecode caps key padding c) ;;
       ret (firstn (List.length c) out).

(** [16 string dup /MD5Encode filter dup 4 3 roll writestring closefile]:
    the digest is written into a fresh string of 16 bytes. *)
Definition md5 (s : bytes) : bytes :=
  firstn 16 (MD5Encode caps s ++ zeros 16).

(** [32 string dup /SHA256Encode filter ...] *)
Definition sha256 (s : bytes) : bytes :=
  firstn 32 (SHA256Encode caps s ++ zeros 32).

(** <string> contains_non_ascii <bool> *)
Definition contains_non_ascii (s : bytes) : bool :=
  existsb (fun b => 128 <=? byte.unsigned b) s.

Definition pdf_padding_string : bytes :=
  [x28; xbf; x4e; x5e; x4e; x75; x8a; x41;  x64; x00; x4e; x56; xff; xfa; x01; x08;
   x2e; x2e; x00; xb6; xd0; x68; x3e; x80;  x2f; x0c; xa9; xfe; x64; x53; x69; x7a].

(** Pad a key out to 32 bytes.
    <key> pdf_pad_key <padded key> *)
Definition pdf_pad_key (key : bytes) : bytes :=
  (* dup length 32 gt { 0 32 getinterval } if *)
  let key := if 32 <? len key then substr key 0 32 else key in
  (* pdf_padding_string 0 32 3 index length sub getinterval concatstrings *)
  key ++ substr pdf_padding_string 0 (32 - len key).

(** <iter-num> <key> pdf_xorbytes <xored-key> *)
Definition pdf_xorbytes (iter : Z) (key : bytes) : M bytes :=
  (* dup length dup string  exch 1 sub 0 1 3 2 roll { ... } for *)
  ps_for 0 (len key - 1)
    (fun byte_num new_key =>
       (* dup 3 index exch get 4 index xor *)
       b <- sget key byte_num ;;
       (* 3 copy put pop pop *)
       put new_key byte_num (Z.lxor b iter))
    (zeros (List.length key)).

(** Get length of encryption key in bytes. *)
Definition pdf_key_length : M Z :=
  enc <- Encrypt ;;
  v <- knownoget enc "V" ;;
  if int_eq (match v with Some o => o | None => OInt 0 end) 1
  then ret 5                            (* If V == 1 then always use 40 bits *)
  else l <- knownoget enc "Length" ;;
       match l with
       | Some o => n <- as_int o ;; ret (Z.shiftr n 3)   (* -3 bitshift *)
       | None => ret 5
       end.

Definition md5_trunk (s : bytes) : M bytes :=
  n <- pdf_key_length ;; getinterval (md5 s) 0 n.

Definition ID_error_1 : string :=
  "   **** Error: ID key in the trailer is required for encrypted files.".
Definition ID_error_2 : string :=
  "               File may not be possible to decrypt.".

(** [Trailer /ID knownoget { 0 oget } { () ...pdfformaterror... } ifelse] *)
Definition trailer_id0 : M obj :=
  t <- asks Trailer ;;
  id <- knownoget (ODict t) "ID" ;;
  match id with
  | Some a => oget0 a
  | None =>
      pdfformaterror ID_error_1 ;;;
      pdfformaterror ID_error_2 ;;;
      ret (OString [])
  end.

(** [4 string] filled with the low four bytes of P, least significant
    first. *)
Definition P_bytes (p : Z) : bytes :=
  [byte.of_Z (Z.land p 255);
   byte.of_Z (Z.land (Z.shiftr p 8) 255);
   byte.of_Z (Z.land (Z.shiftr p 16) 255);
   byte.of_Z (Z.land (Z.shiftr p 24) 255)].

Definition ff4 : bytes := [xff; xff; xff; xff].

(** Algorithm 3.2
    <password> pdf_compute_encryption_key <key> *)
Definition pdf_compute_encryption_key (password : bytes) : M bytes :=
  (* Step 1. *)
  let padded := pdf_pad_key password in
  (* Step 2, 3. *)
  enc <- Encrypt ;;
  o <- oget enc "O" ;;
  (* Step 4. *)
  p <- oget enc "P" ;;
  p <- as_int p ;;
  let p4 := P_bytes p in
  (* Step 5. *)
  id0 <- trailer_id0 ;;
  (* 3 { concatstrings } repeat *)
  id0 <- as_string id0 ;;
  o <- as_string o ;;
  let buf := padded ++ (o ++ (p4 ++ id0)) in
  (* The following only executed for /R equal to 3 or more *)
  enc <- Encrypt ;;
  r <- oget enc "R" ;;
  r <- as_int r ;;
  if 3 <=? r then
    (* Step 6: the test is for R being >= 4 *)
    buf <- (if 4 <=? r then
              em <- knownoget enc "EncryptMetadata" ;;
              em <- as_bool (match em with Some b => b | None => OBool true end) ;;
              if negb em then ret (buf ++ ff4) else ret buf
            else ret buf) ;;
    k <- md5_trunk buf ;;
    (* Step 8. *)
    ps_repeat 50 md5_trunk k
  else
    md5_trunk buf.

(** Algorithm 3.4
    <filekey> pdf_gen_user_password_R2 <U> *)
Definition pdf_gen_user_password_R2 (filekey : bytes) : M bytes :=
  arc4decode pdf_padding_string filekey.

(** Algorithm 3.5
    <filekey> pdf_gen_user_password_R3 <U> *)
Definition pdf_gen_user_password_R3 (filekey : bytes) : M bytes :=
  (* Step 2, 3. *)
  id0 <- trailer_id0 ;;
  id0 <- as_string id0 ;;
  let h := md5 (pdf_padding_string ++ id0) in
  (* Step 4.  1 index arc4decode *)
  u <- arc4decode h filekey ;;
  (* Step 5.  1 1 19 { 2 index pdf_xorbytes arc4decode } for *)
  ps_for 1 19
    (fun i u => k <- pdf_xorbytes i filekey ;; arc4decode u k)
    u.

(** <password> pdf_gen_user_password <filekey> <U> *)
Definition pdf_gen_user_password (password : bytes) : M (bytes * bytes) :=
  filekey <- pdf_compute_encryption_key password ;;
  enc <- Encrypt ;;
  r <- oget enc "R" ;;
  if int_eq r 2 then
    u <- pdf_gen_user_password_R2 filekey ;; ret (filekey, u)
  else if int_eq r 3 then
    u <- pdf_gen_user_password_R3 filekey ;; ret (filekey, u)
  else if int_eq r 4 then      (* 4 uses the algorithm as 3 *)
    u <- pdf_gen_user_password_R3 filekey ;; ret (filekey, u)
  else signalerror undefined.

(** Algorithm 3.6
    <password> pdf_check_pre_r5_user_password <filekey> true
    <password> pdf_check_pre_r5_user_password false *)
Definition pdf_check_pre_r5_user_password (password : bytes) : M (option bytes) :=
  fu <- pdf_gen_user_password password ;;
  let (filekey, u) := fu in
  enc <- Encrypt ;;
  U <- oget enc "U" ;;
  U <- as_string U ;;
  (* 0 2 index length getinterval eq *)
  U' <- getinterval U 0 (len u) ;;
  if bytes_eqb U' u then ret (Some filekey) else ret None.

(** Compute an owner key, ie the result of step 4 of Algorithm 3.3
    <password> pdf_owner_key <owner-key> *)
Definition pdf_owner_key (password : bytes) : M bytes :=
  k <- md5_trunk (pdf_pad_key password) ;;
  enc <- Encrypt ;;
  r <- oget enc "R" ;;
  r <- as_int r ;;
  if 3 <=? r then ps_repeat 50 md5_trunk k else ret k.

(** Algorithm 3.7
    <password> pdf_check_pre_r5_owner_password <filekey> true
    <password> pdf_check_pre_r5_owner_password false *)
Definition pdf_check_pre_r5_owner_password (password : bytes) : M (option bytes) :=
  (* Step 1. *)
  okey <- pdf_owner_key password ;;
  (* Step 2. *)
  enc <- Encrypt ;;
  o <- oget enc "O" ;;
  o <- as_string o ;;
  d <- arc4decode o okey ;;
  (* Step 3.  Only executed for /R equal to 3 or more *)
  r <- oget enc "R" ;;
  r <- as_int r ;;
  d <- (if 3 <=? r then
          ps_for 1 19 (fun i d => k <- pdf_xorbytes i okey ;; arc4decode d k) d
        else ret d) ;;
  pdf_check_pre_r5_user_password d.

Definition Perms_error_1 : string :=
  "   **** Error: Failed to decrypt Perms string.".
Definition Cannot_decrypt : string :=
  "               Cannot decrypt PDF file.".

(** Algorithm 3.2a, steps 1 to 4: the password as it is hashed, and the
    candidate file key of the first hash comparison that passes (owner
    first, then user). *)
Definition r5_password (password : bytes) : bytes :=
  (* Step 1.  /.saslprep where { pop .saslprep } if *)
  let password := match saslprep caps with
                  | Some prep => prep password
                  | None => password
                  end in
  (* Step 2.  dup length 127 gt { 0 127 getinterval } if *)
  if 127 <? len password then substr password 0 127 else password.

Definition r5_candidate (password : bytes) : M (option bytes) :=
  let Password := r5_password password in
  (* Step 3. *)
  O <- (enc <- Encrypt ;; oget enc "O") ;;
  U <- (enc <- Encrypt ;; oget enc "U") ;;
  O <- as_string O ;;
  vs <- getinterval O 32 8 ;;
  U <- as_string U ;;
  u48 <- getinterval U 0 48 ;;
  let h := sha256 ((Password ++ vs) ++ u48) in
  o32 <- getinterval O 0 32 ;;
  if bytes_eqb h o32 then
    (* Step 3, second paragraph. *)
    ks <- getinterval O 40 8 ;;
    u48 <- getinterval U 0 48 ;;
    let kh := sha256 ((Password ++ ks) ++ u48) in
    OE <- (enc <- Encrypt ;; oget enc "OE") ;;
    OE <- as_string OE ;;
    k <- aesdecode (zeros 16 ++ OE) kh false ;;
    ret (Some k)
  else
    (* Step 4. *)
    vs <- getinterval U 32 8 ;;
    let h := sha256 (Password ++ vs) in
    u32 <- getinterval U 0 32 ;;
    if bytes_eqb h u32 then
      (* Step 4, second paragraph. *)
      ks <- getinterval U 40 8 ;;
      let kh := sha256 (Password ++ ks) in
      UE <- (enc <- Encrypt ;; oget enc "UE") ;;
      UE <- as_string UE ;;
      k <- aesdecode (zeros 16 ++ UE) kh false ;;
      ret (Some k)
    else ret None.

(** Algorithm 3.2a, step 5, on the Perms entry and the file key of a
    comparison that passed: CBC mode with an initialization vector of
    zero, then the test of bytes 9 to 11. *)
Definition check_Perms (Perms : obj) (filekey : bytes) : M unit :=
  (* 16 string Trailer /Encrypt oget /Perms oget concatstrings
     << /Key 4 index /Padding //false >> aesdecode *)
  Perms <- as_string Perms ;;
  p <- aesdecode (zeros 16 ++ Perms) filekey false ;;
  (* 9 3 getinterval (adb) eq not *)
  m <- getinterval p 9 3 ;;
  if negb (bytes_eqb m (chars "adb")) then
    pdfformaterror Perms_error_1 ;;;
    pdfformaterror Cannot_decrypt ;;;
    printProducer ;;;
    signalerror rangecheck
  else ret tt.

Definition r5_check_Perms (filekey : bytes) : M unit :=
  Perms <- (enc <- Encrypt ;; oget enc "Perms") ;;
  check_Perms Perms filekey.

(** Algorithm 3.2a
    <password> pdf_check_r5_password <filekey> true
    <password> pdf_check_r5_password false *)
Definition pdf_check_r5_password (password : bytes) : M (option bytes) :=
  r <- r5_candidate password ;;
  (* Step 5.  dup { ... } if *)
  match r with
  | Some filekey => r5_check_Perms filekey ;;; ret (Some filekey)
  | None => ret None
  end.

Definition unknown_R_warning (r : Z) : string :=
  "   **** Warning: This file uses an unknown standard security handler revision: "
  ++ NilZero.string_of_int (Z.to_int r).

(** The same line as it follows a warning, two columns further in. *)
Definition Cannot_decrypt_warned : string :=
  "                 Cannot decrypt PDF file.".

(** <password> pdf_check_password <filekey> true
    <password> pdf_check_password false *)
Definition pdf_check_password (password : bytes) : M (option bytes) :=
  enc <- Encrypt ;;
  r <- oget enc "R" ;;
  r <- as_int r ;;
  if (2 <=? r) && (r <=? 4) then
    u <- pdf_check_pre_r5_user_password password ;;
    match u with
    | Some filekey => ret (Some filekey)
    | None => pdf_check_pre_r5_owner_password password
    end
  else if r =? 5 then
    (* First, try the password as UTF-8. *)
    u <- pdf_check_r5_password password ;;
    match u with
    | Some filekey => ret (Some filekey)
    | None =>
        match locale_to_utf8 caps with
        | Some conv => pdf_check_r5_password (conv password)
        | None => ret None
        end
    end
  else if r =? 6 then
    u <- (enc <- Encrypt ;; check_r6_password caps password enc) ;;
    match u with
    | Some filekey => ret (Some filekey)
    | None =>
        match locale_to_utf8 caps with
        | Some conv => enc <- Encrypt ;; check_r6_password caps (conv password) enc
        | None => ret None
        end
    end
  else
    pdfformatwarning (unknown_R_warning r) ;;;
    pdfformaterror Cannot_decrypt_warned ;;;
    printProducer ;;;
    signalerror undefined.

Definition wrong_type (what : string) : M bool :=
  pdfformaterror ("   **** Error: " ++ what ++ " has wrong type.") ;;;
  pdfformaterror Cannot_decrypt ;;;
  signalerror invalidfileaccess.

(** The first half of pdf_process_Encrypt, after the test of /Filter:
    does the file need a password?  The value is the boolean the source
    leaves on the stack before it looks for PDFPassword. *)
Definition isRequired : M bool :=
  enc <- Encrypt ;;
  v <- get enc "V" ;;
  v <- as_int v ;;
  if 4 <=? v then
    stmf <- knownget enc "StmF" ;;
    let stm_not_identity :=
      match stmf with
      | Some f => negb (name_eq f "Identity")
      | None => false                  (* default StmF is Identity *)
      end in
    strf <- knownget enc "StrF" ;;
    let str_not_identity :=
      match strf with
      | Some f => negb (name_eq f "Identity")
      | None => false                  (* default StrF is Identity *)
      end in
    let needed := stm_not_identity || str_not_identity in
    (* Even if StmF and StrF are Identity, if the StdCF is missing AuthEvent
       or it is DocOpen, we require the password. *)
    cf <- knownget enc "CF" ;;
    match cf with
    | Some (ODict _ as cf) =>
        stdcf <- knownget cf "StdCF" ;;
        match stdcf with
        | Some (ODict _ as stdcf) =>
            ae <- knownget stdcf "AuthEvent" ;;
            match ae with
            | Some (OName _ as ae) => ret (name_eq ae "DocOpen" || needed)   (* /DocOpen eq or *)
            | Some _ => wrong_type "AuthEvent"
            | None => ret true     (* no AuthEvent, default is DocOpen *)
            end
        | Some _ => wrong_type "StdCF"
        | None => ret true         (* no StdCF, require password *)
        end
    | Some _ => wrong_type "CF"
    | None => ret true             (* no CF, require password *)
    end
  else
    ret true.                      (* Not V4 or later *)

Definition no_libidn : string :=
  "   **** WARNING: Ghostscript was configured without libidn," ++
  "   **** so non-ASCII passwords aren't supported!".
Definition no_iconv : string :=
  "   **** WARNING: Ghostscript was configured without iconv," ++
  "   **** so non-ASCII passwords aren't supported!".

(** The failure of a supplied password: the messages, then
    invalidfileaccess. *)
Definition password_did_not_work (pw : bytes) : M unit :=
  pdfformaterror "   **** Error: Password did not work." ;;;
  pdfformaterror Cannot_decrypt ;;;
  (if contains_non_ascii pw then
     match saslprep caps with
     | None => pdfformaterror no_libidn
     | Some _ =>
         match locale_to_utf8 caps with
         | None => pdfformaterror no_iconv
         | Some _ => ret tt
         end
     end
   else ret tt) ;;;
  signalerror invalidfileaccess.

Definition identity_warnings : M unit :=
  pdfformatwarning "   **** This file has an Encryption dictionary, but both the StmF and StrF entries" ;;;
  pdfformatwarning "   **** are /Identity, and AuthEvent allows the document to be opened. It is possible" ;;;
  pdfformatwarning "   **** that embedded streams may still use encryption, if the file fails to process" ;;;
  pdfformatwarning "   **** you may need to supply a User or Owner password by setting -sPDFPassword=".

(** The second half of pdf_process_Encrypt: [() pdf_check_password], then
    PDFPassword when the empty password did not work. *)
Definition verify_passwords : M unit :=
  r <- pdf_check_password [] ;;
  match r with
  | Some filekey => def_FileKey filekey
  | None =>
      given <- asks PDFPassword ;;
      match given with
      | Some pw =>
          r <- pdf_check_password pw ;;
          match r with
          | Some filekey => def_FileKey filekey
          | None => password_did_not_work pw
          end
      | None =>
          pdfformaterror "   **** This file requires a password for access." ;;;
          signalerror invalidfileaccess
      end
  end.

(** Process the encryption information in the Trailer. *)
Definition pdf_process_Encrypt : M unit :=
  enc <- Encrypt ;;
  f <- oget enc "Filter" ;;
  (if negb (name_eq f "Standard") then
     pdfformatwarning "   **** Warning: This file uses an unknown security handler." ;;;
     pdfformaterror Cannot_decrypt_warned ;;;
     printProducer ;;;
     signalerror undefined
   else ret tt) ;;;
  required <- isRequired ;;
  (* If we were given a PDFPassword, check it anyway, even if the code
     above said we didn't need one. *)
  given <- asks PDFPassword ;;
  let given := match given with Some _ => true | None => false end in
  if required || given then verify_passwords else identity_warnings.

(** The name [FileKey], looked up when it is executed. *)
Definition the_FileKey : M bytes :=
  k <- gets FileKey ;;
  match k with
  | Some k => ret k
  | None => signalerror undefined
  end.

(** [dict key oget] with the key on the stack: a name, or a string that
    is looked up as the name of the same characters. *)
Definition oget_by (d key : obj) : M obj :=
  match key with
  | OName n => oget d n
  | OString s => oget d (string_of_list_byte s)
  | _ => match d with ODict _ => signalerror undefined | _ => signalerror typecheck end
  end.

(** Calculate the key used to decrypt an object (to pass to .decpdfrun or
    put into a stream dictionary).
    <object#> <generation#> computeobjkey <keystring> *)
Definition computeobjkey (objnum gen : Z) : M bytes :=
  enc <- Encrypt ;;
  v <- oget enc "V" ;;
  if int_eq v 5 then
    (* Encrypt version 5 doesn't use object keys; everything is encrypted
       with the file key. *)
    the_FileKey
  else
    filekey <- the_FileKey ;;
    (* FileKey length 5 add string, filled by putinterval and five puts *)
    let buf := filekey ++
               [byte.of_Z (Z.land objnum 255);
                byte.of_Z (Z.land (Z.shiftr objnum 8) 255);
                byte.of_Z (Z.land (Z.shiftr objnum 16) 255);
                byte.of_Z (Z.land gen 255);
                byte.of_Z (Z.land (Z.shiftr gen 8) 255)] in
    (* this step is for the AES cipher only *)
    enc <- Encrypt ;;
    stmf <- knownoget enc "StmF" ;;
    buf <- match stmf with
           | Some f =>
               (* Treat StmF of 'Identity' the same as if it is missing. *)
               if name_eq f "Identity" then ret buf
               else
                 cf <- knownoget enc "CF" ;;
                 match cf with
                 | Some cf =>
                     flt <- oget_by cf f ;;
                     cfm <- oget flt "CFM" ;;
                     if name_eq cfm "AESV2" then ret (buf ++ chars "sAlT")
                     else ret buf
                 | None => ret buf
                 end
           | None => ret buf
           end ;;
    (* md5 0 FileKey length 5 add 2 index length .min getinterval *)
    let d := md5 buf in
    getinterval d 0 (Z.min (len filekey + 5) (len d)).

(** An object as the tokenizer leaves it on the stack: its executable
    attribute and its value. *)
Definition xobj : Type := bool * obj.

(** [dict /StreamKey key put] *)
Definition put_StreamKey (d : dict) (key : bytes) : obj :=
  ODict (dict_put d "StreamKey" (OString key)).

(** Run the code to resolve an object reference.  [run (Some key)] stands
    for [PDFfile key resolveopdict .decpdfrun] and [run None] for
    [PDFfile resolveopdict .pdfrun]; both leave the object read. *)
Definition pdf_run_resolve (objnum gen : Z) (run : option bytes -> M xobj) : M xobj :=
  fk <- gets FileKey ;;
  match fk with
  | Some _ =>                      (* File is encrypted *)
      key <- computeobjkey objnum gen ;;
      xo <- run (Some key) ;;
      match xo with
      | (true, ODict d) =>           (* executable dictionary: possible stream *)
          enc <- Encrypt ;;
          r <- oget enc "R" ;;
          r <- as_int r ;;
          if r <? 3 then             (* R < 3 --> all streams encrypted *)
            ret (true, put_StreamKey d key)
          else
            em <- knownoget enc "EncryptMetadata" ;;
            em <- as_bool (match em with Some b => b | None => OBool true end) ;;
            if negb em
               && name_eq (match dict_get d "Type" with Some t => t | None => ONull end)
                          "Metadata"
            then ret xo              (* Type == Metadata --> no encryption *)
            else if r <? 4 then      (* less than PDF 1.5 *)
              ret (true, put_StreamKey d key)
            else
              stmf <- knownoget enc "StmF" ;;
              if name_eq (match stmf with Some f => f | None => OName "Identity" end)
                         "Identity"
              then ret xo            (* Identity --> no encryption *)
              else ret (true, put_StreamKey d key)
      | _ => ret xo                  (* ignore object *)
      end
  | None => run None               (* Else file is not encrypted *)
  end.

End Security.

(** ** The published algorithms behind the capabilities

    Modelled from the spec: the capabilities MD5, SHA256, RC4 and
    AES_CBC_decrypt of its section on external interfaces, which the source
    reaches through the filters MD5Encode, SHA256Encode, ArcfourDecode and
    AESDecode; the filters are not among the source files, so they are
    defined here by RFC 1321, FIPS 180-4, the RC4 key schedule and
    FIPS 197, and checked on the test vectors of those documents. *)

Module Real.

(** 32-bit words are integers reduced modulo 2^32. *)
Definition w32 (x : Z) : Z := x mod 2 ^ 32.

Definition rotl32 (x n : Z) : Z :=
  w32 (Z.lor (Z.shiftl x n) (Z.shiftr x (32 - n))).

Definition rotr32 (x n : Z) : Z := rotl32 x (32 - n).

Definition not32 (x : Z) : Z := Z.lxor x (2 ^ 32 - 1).

Definition le_word (b : bytes) : Z :=
  fold_right (fun x acc => byte.unsigned x + 256 * acc) 0 b.

Definition be_word (b : bytes) : Z :=
  fold_left (fun acc x => 256 * acc + byte.unsigned x) b 0.

Definition le_bytes (n : nat) (x : Z) : bytes :=
  map (fun i => byte.of_Z (Z.shiftr x (8 * Z.of_nat i))) (seq 0 n).

Definition be_bytes (n : nat) (x : Z) : bytes := rev (le_bytes n x).

Fixpoint chunks_upto {A} (fuel n : nat) (l : list A) : list (list A) :=
  match fuel, l with
  | S fuel', _ :: _ => firstn n l :: chunks_upto fuel' n (skipn n l)
  | _, _ => []
  end.

Definition chunks {A} (n : nat) (l : list A) : list (list A) :=
  chunks_upto (List.length l) n l.

Definition zth (l : list Z) (i : Z) : Z := nth (Z.to_nat i) l 0.

(** Words written as runs of eight hexadecimal digits. *)
Definition hex_digit (c : Ascii.ascii) : option Z :=
  let n := Z.of_N (Ascii.N_of_ascii c) in
  if (48 <=? n) && (n <=? 57) then Some (n - 48)
  else if (97 <=? n) && (n <=? 102) then Some (n - 87)
  else None.

Fixpoint hex_words (s : string) (cur : Z) (digits : nat) : list Z :=
  match s with
  | EmptyString => []
  | String c s' =>
      match hex_digit c with
      | Some d =>
          if Nat.eqb digits 7 then (16 * cur + d) :: hex_words s' 0 0
          else hex_words s' (16 * cur + d) (S digits)
      | None => hex_words s' cur digits
      end
  end.

(** *** MD5 (RFC 1321) *)

Definition md5_T : list Z :=
  Eval vm_compute in
  hex_words
    ("d76aa478 e8c7b756 242070db c1bdceee f57c0faf 4787c62a a8304613 fd469501 " ++
     "698098d8 8b44f7af ffff5bb1 895cd7be 6b901122 fd987193 a679438e 49b40821 " ++
     "f61e2562 c040b340 265e5a51 e9b6c7aa d62f105d 02441453 d8a1e681 e7d3fbc8 " ++
     "21e1cde6 c33707d6 f4d50d87 455a14ed a9e3e905 fcefa3f8 676f02d9 8d2a4c8a " ++
     "fffa3942 8771f681 6d9d6122 fde5380c a4beea44 4bdecfa9 f6bb4b60 bebfbc70 " ++
     "289b7ec6 eaa127fa d4ef3085 04881d05 d9d4d039 e6db99e5 1fa27cf8 c4ac5665 " ++
     "f4292244 432aff97 ab9423a7 fc93a039 655b59c3 8f0ccc92 ffeff47d 85845dd1 " ++
     "6fa87e4f fe2ce6e0 a3014314 4e0811a1 f7537e82 bd3af235 2ad7d2bb eb86d391")
    0 0%nat.

Definition md5_shifts : list (list Z) :=
  [[7; 12; 17; 22]; [5; 9; 14; 20]; [4; 11; 16; 23]; [6; 10; 15; 21]].

Definition md5_shift (i : Z) : Z :=
  zth (nth (Z.to_nat (i / 16)) md5_shifts []) (i mod 4).

Definition md5_state : Type := Z * Z * Z * Z.

Definition md5_step (m : list Z) (st : md5_state) (i : Z) : md5_state :=
  let '(a, b, c, d) := st in
  let '(f, g) :=
    if i <? 16 then (Z.lor (Z.land b c) (Z.land (not32 b) d), i)
    else if i <? 32 then (Z.lor (Z.land d b) (Z.land (not32 d) c), (5 * i + 1) mod 16)
    else if i <? 48 then (Z.lxor b (Z.lxor c d), (3 * i + 5) mod 16)
    else (Z.lxor c (Z.lor b (not32 d)), (7 * i) mod 16) in
  let f := w32 (f + a + zth md5_T i + zth m g) in
  (d, w32 (b + rotl32 f (md5_shift i)), b, c).

Definition upto (n : nat) : list Z := map Z.of_nat (seq 0 n).

Definition md5_block (st : md5_state) (block : bytes) : md5_state :=
  let m := map le_word (chunks 4 block) in
  let '(a, b, c, d) := st in
  let '(a', b', c', d') := fold_left (md5_step m) (upto 64) st in
  (w32 (a + a'), w32 (b + b'), w32 (c + c'), w32 (d + d')).

Definition md5_pad (msg : bytes) : bytes :=
  let n := len msg in
  msg ++ x80 :: zeros (Z.to_nat ((55 - n) mod 64)) ++ le_bytes 8 (8 * n).

Definition MD5 (msg : bytes) : bytes :=
  let '(a, b, c, d) :=
    fold_left md5_block (chunks 64 (md5_pad msg))
              (0x67452301, 0xefcdab89, 0x98badcfe, 0x10325476) in
  le_bytes 4 a ++ le_bytes 4 b ++ le_bytes 4 c ++ le_bytes 4 d.

Definition hex (s : string) : bytes :=
  flat_map (be_bytes 4) (hex_words s 0 0%nat).

(** *** SHA-256 (FIPS 180-4) *)

Definition is_prime (n : Z) : bool :=
  (2 <=? n) && forallb (fun d => negb (n mod d =? 0) || (n <=? d)) (map (fun d => d + 2) (upto 18)).

(** The first 64 primes all lie below 312, and 19 * 19 exceeds 312. *)
Definition primes64 : list Z :=
  Eval vm_compute in filter is_prime (upto 312).

(** The integer part of the root of order [k], built bit by bit. *)
Definition iroot (k : Z) (n : Z) : Z :=
  fold_left (fun r bit => let r' := r + 2 ^ bit in if r' ^ k <=? n then r' else r)
            (rev (upto 48)) 0.

(** The first 32 bits of the fractional parts of the cube roots of the
    first 64 primes, and of the square roots of the first 8. *)
Definition sha256_K : list Z :=
  Eval vm_compute in map (fun p => w32 (iroot 3 (p * 2 ^ 96))) primes64.

Definition sha256_H0 : list Z :=
  Eval vm_compute in map (fun p => w32 (iroot 2 (p * 2 ^ 64))) (firstn 8 primes64).

Definition shr (x n : Z) : Z := Z.shiftr x n.

Definition sha256_schedule_step (w : list Z) (t : Z) : list Z :=
  let w15 := zth w (t - 15) in
  let w2 := zth w (t - 2) in
  let s0 := Z.lxor (rotr32 w15 7) (Z.lxor (rotr32 w15 18) (shr w15 3)) in
  let s1 := Z.lxor (rotr32 w2 17) (Z.lxor (rotr32 w2 19) (shr w2 10)) in
  w ++ [w32 (zth w (t - 16) + s0 + zth w (t - 7) + s1)].

Definition sha256_schedule (block : bytes) : list Z :=
  fold_left sha256_schedule_step (map (fun t => t + 16) (upto 48))
            (map be_word (chunks 4 block)).

Definition sha256_round (w : list Z) (st : list Z) (t : Z) : list Z :=
  match st with
  | [a; b; c; d; e; f; g; h] =>
      let S1 := Z.lxor (rotr32 e 6) (Z.lxor (rotr32 e 11) (rotr32 e 25)) in
      let ch := Z.lxor (Z.land e f) (Z.land (not32 e) g) in
      let t1 := w32 (h + S1 + ch + zth sha256_K t + zth w t) in
      let S0 := Z.lxor (rotr32 a 2) (Z.lxor (rotr32 a 13) (rotr32 a 22)) in
      let maj := Z.lxor (Z.land a b) (Z.lxor (Z.land a c) (Z.land b c)) in
      let t2 := w32 (S0 + maj) in
      [w32 (t1 + t2); a; b; c; w32 (d + t1); e; f; g]
  | _ => st
  end.

Fixpoint add32 (x y : list Z) : list Z :=
  match x, y with
  | a :: x', b :: y' => w32 (a + b) :: add32 x' y'
  | _, _ => []
  end.

Definition sha256_block (st : list Z) (block : bytes) : list Z :=
  add32 st (fold_left (sha256_round (sha256_schedule block)) (upto 64) st).

Definition sha256_pad (msg : bytes) : bytes :=
  let n := len msg in
  msg ++ x80 :: zeros (Z.to_nat ((55 - n) mod 64)) ++ be_bytes 8 (8 * n).

Definition SHA256 (msg : bytes) : bytes :=
  flat_map (be_bytes 4) (fold_left sha256_block (chunks 64 (sha256_pad msg)) sha256_H0).

(** *** RC4 *)

Definition upd (l : list Z) (i v : Z) : list Z :=
  firstn (Z.to_nat i) l ++ v :: skipn (Z.to_nat i + 1) l.

Definition swap (l : list Z) (i j : Z) : list Z :=
  upd (upd l i (zth l j)) j (zth l i).

Definition rc4_ksa (key : list Z) : list Z :=
  let n := Z.of_nat (List.length key) in
  fst (fold_left
         (fun '(s, j) i =>
            let j := (j + zth s i + zth key (i mod n)) mod 256 in
            (swap s i j, j))
         (upto 256) (upto 256, 0)).

Fixpoint rc4_prga (s : list Z) (i j : Z) (data : list Z) : list Z :=
  match data with
  | [] => []
  | x :: data' =>
      let i := (i + 1) mod 256 in
      let j := (j + zth s i) mod 256 in
      let s := swap s i j in
      Z.lxor x (zth s ((zth s i + zth s j) mod 256)) :: rc4_prga s i j data'
  end.

Definition RC4 (key data : bytes) : result bytes :=
  let n := len key in
  if (1 <=? n) && (n <=? 256) then
    Ok (map byte.of_Z (rc4_prga (rc4_ksa (map byte.unsigned key)) 0 0
                                (map byte.unsigned data)))
  else Err rangecheck.

(** *** AES decryption in CBC mode (FIPS 197) *)

Definition xtime (a : Z) : Z :=
  if 128 <=? a then Z.lxor (2 * a) 0x11b else 2 * a.

(** Multiplication in GF(2^8): one bit of [b] at a time. *)
Definition gmul (a b : Z) : Z :=
  fst (fold_left
         (fun '(acc, a) bit =>
            ((if Z.testbit b bit then Z.lxor acc a else acc), xtime a))
         (upto 8) (0, a)).

Definition gpow (a : Z) (n : nat) : Z := Nat.iter n (gmul a) 1.

Definition rotl8 (x n : Z) : Z :=
  (Z.lor (Z.shiftl x n) (Z.shiftr x (8 - n))) mod 256.

Definition sbox_of (a : Z) : Z :=
  let x := gpow a 254 in
  Z.lxor x (Z.lxor (rotl8 x 1) (Z.lxor (rotl8 x 2)
    (Z.lxor (rotl8 x 3) (Z.lxor (rotl8 x 4) 0x63)))).

Definition sbox : list Z := Eval vm_compute in map sbox_of (upto 256).

Definition inv_sbox : list Z :=
  Eval vm_compute in
  map (fun y => fold_left (fun r x => if zth sbox x =? y then x else r) (upto 256) 0)
      (upto 256).

Definition xor_list (a b : list Z) : list Z :=
  map (fun '(x, y) => Z.lxor x y) (combine a b).

(** One more word of the key schedule; the state is the words so far and
    the round constant. *)
Definition expand_step (nk : Z) (st : list (list Z) * Z) (i : Z) : list (list Z) * Z :=
  let '(w, rc) := st in
  let prev := nth (Z.to_nat (i - 1)) w [] in
  let '(temp, rc') :=
    if i mod nk =? 0 then
      match prev with
      | [a; b; c; d] => ([Z.lxor (zth sbox b) rc; zth sbox c; zth sbox d; zth sbox a], xtime rc)
      | _ => (prev, rc)
      end
    else if (6 <? nk) && (i mod nk =? 4) then (map (zth sbox) prev, rc)
    else (prev, rc) in
  (w ++ [xor_list (nth (Z.to_nat (i - nk)) w []) temp], rc').

(** The round keys, one list of 16 bytes per round. *)
Definition round_keys (key : list Z) : list (list Z) :=
  let nk := Z.of_nat (List.length key) / 4 in
  let total := 4 * (nk + 7) in
  let w := fst (fold_left (expand_step nk)
                          (map (fun i => i + nk) (upto (Z.to_nat (total - nk))))
                          (chunks 4 key, 1)) in
  map (@List.concat Z) (chunks 4 w).

Definition inv_shift_rows (s : list Z) : list Z :=
  map (fun i => let c := i / 4 in let r := i mod 4 in zth s (4 * ((c - r) mod 4) + r))
      (upto 16).

Definition inv_mix_column (col : list Z) : list Z :=
  match col with
  | [b0; b1; b2; b3] =>
      [Z.lxor (gmul b0 14) (Z.lxor (gmul b1 11) (Z.lxor (gmul b2 13) (gmul b3 9)));
       Z.lxor (gmul b0 9) (Z.lxor (gmul b1 14) (Z.lxor (gmul b2 11) (gmul b3 13)));
       Z.lxor (gmul b0 13) (Z.lxor (gmul b1 9) (Z.lxor (gmul b2 14) (gmul b3 11)));
       Z.lxor (gmul b0 11) (Z.lxor (gmul b1 13) (Z.lxor (gmul b2 9) (gmul b3 14)))]
  | _ => col
  end.

Definition inv_mix_columns (s : list Z) : list Z :=
  flat_map inv_mix_column (chunks 4 s).

(** The inverse cipher on one block, round keys in encryption order. *)
Definition inv_cipher (rks : list (list Z)) (block : list Z) : list Z :=
  match rev rks with
  | last_key :: earlier =>
      let s := xor_list block last_key in
      let s := fold_left
                 (fun s rk =>
                    let s := xor_list (map (zth inv_sbox) (inv_shift_rows s)) rk in
                    inv_mix_columns s)
                 (removelast earlier) s in
      xor_list (map (zth inv_sbox) (inv_shift_rows s)) (last earlier [])
  | [] => block
  end.

Fixpoint cbc_decrypt (rks : list (list Z)) (prev : list Z) (blocks : list (list Z)) : list Z :=
  match blocks with
  | [] => []
  | c :: rest => xor_list (inv_cipher rks c) prev ++ cbc_decrypt rks c rest
  end.

(** The filter: the key has 16, 24 or 32 bytes, the first block of the
    data is the initialisation vector, and with padding the last byte
    tells how many bytes to drop at the end. *)
Definition AES_CBC (key : bytes) (padding : bool) (data : bytes) : result bytes :=
  let n := len key in
  if (n =? 16) || (n =? 24) || (n =? 32) then
    let d := map byte.unsigned data in
    let blocks := filter (fun b => Nat.eqb (List.length b) 16) (chunks 16 (skipn 16 d)) in
    let out := cbc_decrypt (round_keys (map byte.unsigned key)) (firstn 16 d) blocks in
    let out := if padding
               then firstn (List.length out - Z.to_nat (last out 0)) out
               else out in
    Ok (map byte.of_Z out)
  else Err rangecheck.

(** The hardened hash of revision 6 is not modelled: the operator never
    accepts a password. *)
Definition no_r6 (password : bytes) (enc : obj) : M (option bytes) := ret None.

Definition caps : capabilities :=
  mkCaps MD5 SHA256 RC4 AES_CBC None None no_r6.

End Real.

Unset Implicit Arguments.

(** ** Notions the statements are written with *)

(** The object number as 3 bytes and the generation as 2, least
    significant byte first. *)
Definition objnum_gen_bytes (objnum gen : Z) : bytes :=
  [byte.of_Z (Z.land objnum 255);
   byte.of_Z (Z.land (Z.shiftr objnum 8) 255);
   byte.of_Z (Z.land (Z.shiftr objnum 16) 255);
   byte.of_Z (Z.land gen 255);
   byte.of_Z (Z.land (Z.shiftr gen 8) 255)].

(** The MD5 of the salted file key, cut to min(length + 5, 16) bytes. *)
Definition object_key caps (filekey salted : bytes) : bytes :=
  firstn (Z.to_nat (Z.min (len filekey + 5) 16)) (md5 caps salted).

(** The crypt filter methods of the specification. *)
Inductive CFM : Type :=
| CFM_RC4
| CFM_AESV2
| CFM_AESV3
| CFM_Identity.

(** The method that the CFM entry of a crypt filter names. *)
Definition spec_method (m : obj) : CFM :=
  if name_eq m "AESV2" then CFM_AESV2
  else if name_eq m "AESV3" then CFM_AESV3
  else if name_eq m "V2" then CFM_RC4
  else CFM_Identity.

(** The method of /StmF or of /StrF as the specification resolves it
    through /CF: an absent or /Identity filter name maps to Identity;
    without a crypt filter map RC4 is implicit. *)
Definition spec_resolve_cfm (d : dict) (which : string) : CFM :=
  match dict_get d which with
  | None => CFM_Identity
  | Some f =>
      if name_eq f "Identity" then CFM_Identity
      else
        match dict_get d "CF" with
        | Some (ODict cf) =>
            match f with
            | OName n =>
                match dict_get cf n with
                | Some (ODict fd) =>
                    match dict_get fd "CFM" with
                    | Some m => spec_method m
                    | None => CFM_Identity
                    end
                | _ => CFM_Identity
                end
            | _ => CFM_Identity
            end
        | _ => CFM_RC4
        end
  end.

(** deriveObjectKey as the specification words it, for the digest [MD5]:
    the file key itself when V is 5; otherwise the digest of the file key,
    the object number on 3 bytes and the generation on 2, and the literal
    sAlT if the method is AESV2, cut to min(length + 5, 16) bytes. *)
Definition spec_objkey_input (fileKey : bytes) (objNum gen : Z) (cfm : CFM) : bytes :=
  fileKey ++ objnum_gen_bytes objNum gen
  ++ match cfm with CFM_AESV2 => chars "sAlT" | _ => [] end.

Definition spec_deriveObjectKey (MD5 : bytes -> bytes) (fileKey : bytes)
    (objNum gen : Z) (cfm : CFM) (descriptorV : Z) : bytes :=
  if descriptorV =? 5 then fileKey
  else firstn (Z.to_nat (Z.min (len fileKey + 5) 16))
              (MD5 (spec_objkey_input fileKey objNum gen cfm)).

(** A /StmF that computeobjkey can follow: absent, Identity, without a
    /CF to look it up in, or the name of a crypt filter of /CF that has a
    /CFM. *)
Definition StmF_resolves (d : dict) : bool :=
  match dict_get d "StmF" with
  | None => true
  | Some f =>
      name_eq f "Identity"
      || match dict_get d "CF" with
         | None => true
         | Some (ODict cf) =>
             match f with
             | OName n =>
                 match dict_get cf n with
                 | Some (ODict fd) =>
                     match dict_get fd "CFM" with Some _ => true | None => false end
                 | _ => false
                 end
             | _ => false
             end
         | Some _ => false
         end
  end.

(** Steps 5 to 9 of Algorithm 3.2 on the assembled input: one truncated
    MD5, and 50 more from revision 3 on. *)
Definition hash_rounds caps (r : Z) (buf : bytes) : M bytes :=
  if 3 <=? r then k <- md5_trunk caps buf ;; ps_repeat 50 (md5_trunk caps) k
  else md5_trunk caps buf.

(** Two environments that differ at most in the EncryptMetadata entry of
    the encryption dictionary. *)
Definition same_but_EncryptMetadata (e e' : env) : Prop :=
  PDFPassword e' = PDFPassword e /\
  (forall k, k <> "Encrypt"%string -> dict_get (Trailer e') k = dict_get (Trailer e) k) /\
  exists d d',
    dict_get (Trailer e) "Encrypt" = Some (ODict d) /\
    dict_get (Trailer e') "Encrypt" = Some (ODict d') /\
    forall k, k <> "EncryptMetadata"%string -> dict_get d' k = dict_get d k.

(** A crypt filter entry that is absent or /Identity. *)
Definition resolves_to_Identity (d : dict) (k : string) : bool :=
  match dict_get d k with
  | Some f => name_eq f "Identity"
  | None => true
  end.

(** The test as the specification words it: V >= 4, StmF and StrF
    resolve to Identity, and StdCF is present with AuthEvent == DocOpen. *)
Definition spec_not_required (d : dict) : bool :=
  match dict_get d "V" with Some (OInt v) => 4 <=? v | _ => false end
  && resolves_to_Identity d "StmF"
  && resolves_to_Identity d "StrF"
  && match dict_get d "CF" with
     | Some (ODict cf) =>
         match dict_get cf "StdCF" with
         | Some (ODict std) =>
             match dict_get std "AuthEvent" with
             | Some ae => name_eq ae "DocOpen"
             | None => false
             end
         | _ => false
         end
     | _ => false
     end.

(** EncryptMetadata is false and the object is of /Type /Metadata. *)
Definition metadata_exempt (em : option bool) (d : dict) : bool :=
  match em with Some false => true | _ => false end
  && name_eq (match dict_get d "Type" with Some t => t | None => ONull end) "Metadata".

(** The key with every byte XORed with the number of the round. *)
Definition xor_key (key : bytes) (i : Z) : bytes :=
  map (fun b => byte.of_Z (Z.lxor (byte.unsigned b) i)) key.

(** What arc4decode returns, without the monad. *)
Definition rc4 caps (data key : bytes) : result bytes :=
  if len data =? 0 then Ok data
  else match ArcfourDecode caps key data with
       | Ok out => Ok (firstn (List.length data) out)
       | Err x => Err x
       end.

(** Rounds [i], [i+1], ... of Algorithm 3.5, step 5: the data is the
    previous value, the RC4 key is the file key XORed with the round. *)
Fixpoint rounds caps (key : bytes) (i : Z) (n : nat) (u : bytes) : result bytes :=
  match n with
  | O => Ok u
  | S n' =>
      match rc4 caps u (xor_key key i) with
      | Ok u' => rounds caps key (i + 1) n' u'
      | Err x => Err x
      end
  end.

(** Algorithm 3.5 from the file key: MD5 of the padding string and id0,
    RC4 under the file key, then rounds 1 to 19. *)
Definition user_value_R3 caps (filekey id0 : bytes) : result bytes :=
  match rc4 caps (md5 caps (pdf_padding_string ++ id0)) filekey with
  | Ok u => rounds caps filekey 1 19 u
  | Err x => Err x
  end.

(** The rounds as the specification words them:
    u = RC4_decrypt(xorBytes(u, fileKey, i), fileKey) with
    xorBytes(buf, key, i)[j] = buf[j] XOR key[j] XOR i. *)
Definition spec_xorBytes (buf key : bytes) (i : Z) : bytes :=
  map (fun bk => byte.of_Z (Z.lxor (Z.lxor (byte.unsigned (fst bk))
                                           (byte.unsigned (snd bk))) i))
      (combine buf key).

Fixpoint spec_rounds caps (key : bytes) (i : Z) (n : nat) (u : bytes) : result bytes :=
  match n with
  | O => Ok u
  | S n' =>
      match rc4 caps (spec_xorBytes u key i) key with
      | Ok u' => spec_rounds caps key (i + 1) n' u'
      | Err x => Err x
      end
  end.

Definition spec_user_value_R3 caps (filekey id0 : bytes) : result bytes :=
  match rc4 caps (md5 caps (pdf_padding_string ++ id0)) filekey with
  | Ok u => spec_rounds caps filekey 1 19 u
  | Err x => Err x
  end.

(** An RC4 filter returns as many bytes as it reads. *)
Definition length_preserving caps : Prop :=
  forall key c out, ArcfourDecode caps key c = Ok out -> List.length out = List.length c.

(** Modelled from the spec: check_r6_password, which pdf_check_password
    calls at revision 6, is an operator that none of the source files
    defines.  The specification gives revision 6 the comparisons of its
    table for revisions 5 and 6, user first, with the injected
    hardenedHash(password, salt, extra) in the place of SHA-256, and after a
    comparison that passed the same test of Perms as revision 5. *)
Definition spec_r6_candidate caps (hardenedHash : bytes -> bytes -> bytes -> bytes)
    (password : bytes) (enc : obj) : M (option bytes) :=
  U <- oget enc "U" ;;
  U <- as_string U ;;
  vs <- getinterval U 32 8 ;;
  u32 <- getinterval U 0 32 ;;
  if bytes_eqb (hardenedHash password vs []) u32 then
    ks <- getinterval U 40 8 ;;
    UE <- oget enc "UE" ;;
    UE <- as_string UE ;;
    k <- aesdecode caps (zeros 16 ++ UE) (hardenedHash password ks []) false ;;
    ret (Some k)
  else
    O <- oget enc "O" ;;
    O <- as_string O ;;
    vs <- getinterval O 32 8 ;;
    u48 <- getinterval U 0 48 ;;
    o32 <- getinterval O 0 32 ;;
    if bytes_eqb (hardenedHash password vs u48) o32 then
      ks <- getinterval O 40 8 ;;
      OE <- oget enc "OE" ;;
      OE <- as_string OE ;;
      k <- aesdecode caps (zeros 16 ++ OE) (hardenedHash password ks u48) false ;;
      ret (Some k)
    else ret None.

(** Modelled from the spec: the whole revision 6 check, the comparisons
    above and then the Perms test of the specification, which is the one
    pdf_check_r5_password makes. *)
Definition spec_check_r6_password caps hardenedHash (password : bytes) (enc : obj)
    : M (option bytes) :=
  r <- spec_r6_candidate caps hardenedHash password enc ;;
  match r with
  | Some filekey =>
      Perms <- oget enc "Perms" ;;
      check_Perms caps Perms filekey ;;;
      ret (Some filekey)
  | None => ret None
  end.

(** Computations that leave the state as it is. *)
Definition quiet {A} (m : M A) : Prop := forall e s, snd (m e s) = s.

(** Bytes 9 to 11 of what the AESDecode filter returns for Perms. *)
Definition Perms_marker (perms out : bytes) : bytes :=
  substr (firstn (List.length (zeros 16 ++ perms)) out) 9 3.

(** ** Documents to run the procedures on *)

Module Docs.

Definition st0 : state := mkState None [].

(** One entry of a dictionary. *)
Definition ent (k : string) (v : obj) : string * obj := (k, v).

Definition id0 : bytes := Real.hex "00112233445566778899aabbccddeeff".

Definition O_R3 : bytes :=
  Real.hex "a1b2c3d4e5f60718293a4b5c6d7e8f90112233445566778899aabbccddeeff00".

(** A revision 3 dictionary with a 128-bit key; [extra] holds the entries
    that vary. *)
Definition Encrypt_R3 (U : bytes) (extra : dict) : dict :=
  [ent "Filter" (OName "Standard"); ent "V" (OInt 2); ent "R" (OInt 3);
   ent "Length" (OInt 128); ent "O" (OString O_R3); ent "U" (OString U);
   ent "P" (OInt (-3904))] ++ extra.

Definition doc_R3 (U : bytes) (extra : dict) : env :=
  mkEnv [ent "Encrypt" (ODict (Encrypt_R3 U extra));
         ent "ID" (OArray [OString id0; OString id0])]
        None.

(** The U that Algorithm 3.5 gives for the empty user password, padded
    to 32 bytes. *)
Definition U_R3 : bytes :=
  Real.hex "1d2bde777e36c1b819644a25a2ad86ba" ++ zeros 16.

Definition key_R3 : bytes := Real.hex "b3f3eaed8a866038e5344c234f99f667".

(** The same file without /ID in the trailer. *)
Definition doc_R3_no_ID : env :=
  mkEnv [ent "Encrypt" (ODict (Encrypt_R3 U_R3 []))] None.

(** A metadata stream as the tokenizer leaves it. *)
Definition metadata_stream : dict :=
  [ent "Type" (OName "Metadata"); ent "Subtype" (OName "XML"); ent "Length" (OInt 3069)].

Definition page_stream : dict := [ent "Length" (OInt 512)].

(** Revision 4 dictionaries: the crypt filter of streams and strings and
    the AuthEvent of StdCF vary. *)
Definition Encrypt_R4 (StmF StrF AuthEvent : string) : dict :=
  [ent "Filter" (OName "Standard"); ent "V" (OInt 4); ent "R" (OInt 4);
   ent "Length" (OInt 128); ent "O" (OString O_R3); ent "U" (OString U_R3);
   ent "P" (OInt (-3904));
   ent "CF" (ODict [ent "StdCF" (ODict [ent "AuthEvent" (OName AuthEvent);
                                        ent "CFM" (OName "AESV2");
                                        ent "Length" (OInt 16)])]);
   ent "StmF" (OName StmF); ent "StrF" (OName StrF)].

Definition doc_R4 (StmF StrF AuthEvent : string) (password : option bytes) : env :=
  mkEnv [ent "Encrypt" (ODict (Encrypt_R4 StmF StrF AuthEvent));
         ent "ID" (OArray [OString id0; OString id0])]
        password.

(** A revision 5 dictionary for the user password "user": U is the
    SHA-256 of the password and the validation salt, then the two salts;
    [perms] is the Perms entry. *)
Definition U_R5 : bytes :=
  Real.hex "ad7c98e251cb1c7b3e2830b6f0becbd8352a6ab712232d6e82f2fca45f304dcc"
  ++ Real.hex "0102030405060708" ++ Real.hex "1112131415161718".

Definition UE_R5 : bytes :=
  Real.hex "000102030405060708090a0b0c0d0e0f101112131415161718191a1b1c1d1e1f".

Definition key_R5 : bytes :=
  Real.hex "daab03518f4cb44f52d226b2443d136286a2ad608ebdd297fa4f56d986ee8eec".

Definition Encrypt_R5 (perms : bytes) : dict :=
  [ent "Filter" (OName "Standard"); ent "V" (OInt 5); ent "R" (OInt 5);
   ent "Length" (OInt 256); ent "O" (OString (zeros 48)); ent "U" (OString U_R5);
   ent "OE" (OString (zeros 32)); ent "UE" (OString UE_R5);
   ent "P" (OInt (-3904)); ent "Perms" (OString perms)].

Definition doc_R5 (perms : bytes) : env :=
  mkEnv [ent "Encrypt" (ODict (Encrypt_R5 perms));
         ent "ID" (OArray [OString id0; OString id0])]
        (Some (chars "user")).

Definition Perms_R5 : bytes := Real.hex "a7815605b3781682abb958aa69107b7a".

(** Perms_R5 with its byte 6 changed from 16 to cc. *)
Definition Perms_R5_corrupted : bytes := Real.hex "a7815605b378cc82abb958aa69107b7a".

End Docs.


(** ** Strings and streams of an encrypted file

    The two places where the keys are used: the branch of .decpdfrun that
    handles a string token, and pdf_decrypt_stream. *)

Section Streams.

Variable caps : capabilities.

(** The Padding an AESDecode filter assumes when its dictionary holds the
    key only, as aesdecodefilter builds it; the filter is not part of the
    source. *)
Variable default_padding : bool.

(** <stream> <key> arc4decodefilter <stream>: the stream is taken by what
    can be read from it. *)
Definition arc4decodefilter (stream key : bytes) : M bytes :=
  lift (ArcfourDecode caps key stream).

(** <stream> <key> aesdecodefilter <stream> *)
Definition aesdecodefilter (stream key : bytes) : M bytes :=
  lift (AESDecode caps key default_padding stream).

(** [dup /AESV2 eq exch /AESV3 eq or] *)
Definition is_AES (cfm : obj) : bool :=
  name_eq cfm "AESV2" || name_eq cfm "AESV3".

(** The branch of .decpdfrun for a token that is a string: <key> is the
    key the procedure was built with, [s] the token. *)
Definition decrypt_string (key s : bytes) : M bytes :=
  enc <- Encrypt ;;
  r <- oget enc "R" ;;
  r <- as_int r ;;
  if r <? 4 then                  (* R < 4 --> arc4 strings *)
    arc4decode caps s key
  else
    strf <- knownoget enc "StrF" ;;
    match strf with
    | Some f =>
        if negb (name_eq f "Identity") then
          if name_eq f "StdCF" then
            cf <- (enc <- Encrypt ;; knownoget enc "CF") ;;
            aes <- match cf with
                   | Some cf =>
                       std <- oget cf "StdCF" ;;
                       cfm <- oget std "CFM" ;;
                       ret (is_AES cfm)
                   | None => ret false
                   end ;;
            if aes then aesdecode caps s key default_padding
            else arc4decode caps s key
          else arc4decode caps s key  (* If StrF != StdCF *)
        else ret s
    | None => ret s
    end.

(** Prefix a decryption filter to a stream if needed.  Of the operands
    [readdata? dict parms file/string filternames] the procedure reads the
    dictionary and replaces the file. *)
Definition pdf_decrypt_stream (d : dict) (file : bytes) : M bytes :=
  match dict_get d "StreamKey" with
  | Some key =>
      enc <- Encrypt ;;
      stmf <- knownoget enc "StmF" ;;
      match stmf with
      | Some f =>
          cf <- knownoget enc "CF" ;;
          aes <- match cf with
                 | Some cf =>
                     flt <- oget_by cf f ;;
                     cfm <- oget flt "CFM" ;;
                     ret (is_AES cfm)
                 | None => ret false
                 end ;;
          key <- as_string key ;;
          if aes then aesdecodefilter file key else arc4decodefilter file key
      | None =>
          key <- as_string key ;;
          arc4decodefilter file key    (* fallback for no StmF *)
      end
  | None => ret file
  end.

End Streams.


(** ** More documents

    Two files whose user password is empty and whose owner password is
    "owner": one of revision 2 with a 40-bit key, one of revision 3 with a
    128-bit key.  O and U are what Algorithms 3.3 to 3.5 give. *)

Module MoreDocs.

Import Docs.

Definition O_R2 : bytes :=
  Real.hex "c92422687facee686e373f10b5c7d04738053152f7e2ee30e11c69ec442576ab".

Definition U_R2 : bytes :=
  Real.hex "fb54c7947b617309fc6b9107c821962af5de74b6de5c3a73391de12c6194c802".

Definition key_R2 : bytes := [x33; x5c; x59; x0b; xe4].

Definition Encrypt_R2 (U : bytes) : dict :=
  [ent "Filter" (OName "Standard"); ent "V" (OInt 1); ent "R" (OInt 2);
   ent "O" (OString O_R2); ent "U" (OString U); ent "P" (OInt (-64))].

Definition doc_R2 (U : bytes) (password : option bytes) : env :=
  mkEnv [ent "Encrypt" (ODict (Encrypt_R2 U));
         ent "ID" (OArray [OString id0; OString id0])]
        password.

Definition O_R3_owner : bytes :=
  Real.hex "566fa873ee33c797cd3b904fdadf814afa34df9a38f6ed41b984e2c6da2aa6f5".

Definition U_R3_owner : bytes :=
  Real.hex "f6300ec7ef37cee4dabece111c3e9d79" ++ zeros 16.

Definition key_R3_owner : bytes := Real.hex "6ffe9d342479b960dece23af37111c18".

Definition Encrypt_R3_owner (extra : dict) : dict :=
  [ent "Filter" (OName "Standard"); ent "V" (OInt 2); ent "R" (OInt 3);
   ent "Length" (OInt 128); ent "O" (OString O_R3_owner);
   ent "U" (OString U_R3_owner); ent "P" (OInt (-3904))] ++ extra.

Definition doc_R3_owner (extra : dict) (password : option bytes) : env :=
  mkEnv [ent "Encrypt" (ODict (Encrypt_R3_owner extra));
         ent "ID" (OArray [OString id0; OString id0])]
        password.

(** A file around any encryption dictionary. *)
Definition doc_of (enc : dict) (password : option bytes) : env :=
  mkEnv [ent "Encrypt" (ODict enc);
         ent "ID" (OArray [OString id0; OString id0])]
        password.

(** A dictionary of the shape of Encrypt_R3 with the handler, the version
    and the revision to choose. *)
Definition Encrypt_with (handler : string) (v r : Z) (extra : dict) : dict :=
  [ent "Filter" (OName handler); ent "V" (OInt v); ent "R" (OInt r);
   ent "Length" (OInt 128); ent "O" (OString O_R3); ent "U" (OString U_R3);
   ent "P" (OInt (-3904))] ++ extra.

(** A revision 4 dictionary whose only crypt filter has a name of its
    own and is the filter of streams and of strings. *)
Definition Encrypt_R4_named (name : string) : dict :=
  Encrypt_with "Standard" 4 4
    [ent "CF" (ODict [ent name (ODict [ent "CFM" (OName "AESV2");
                                       ent "Length" (OInt 16)])]);
     ent "StmF" (OName name); ent "StrF" (OName name)].

End MoreDocs.


(** ** Notions for the further statements *)

(** Steps 2 and 3 of Algorithm 3.7 on the owner key and /O: RC4 under
    the owner key, then rounds 1 to 19 from revision 3 on. *)
Definition owner_unwrap caps (r : Z) (okey o : bytes) : result bytes :=
  match rc4 caps o okey with
  | Ok d => if 3 <=? r then rounds caps okey 1 19 d else Ok d
  | Err x => Err x
  end.

Definition byte_xor (a b : byte) : byte :=
  byte.of_Z (Z.lxor (byte.unsigned a) (byte.unsigned b)).

Fixpoint xor_stream (data ks : bytes) : bytes :=
  match data, ks with
  | a :: data', b :: ks' => byte_xor a b :: xor_stream data' ks'
  | _, _ => []
  end.

(** An RC4 filter, for a key of 1 to 16 bytes, XORs the data with a
    stream that depends on the key and on the length only. *)
Definition stream_cipher caps : Prop :=
  exists ks : bytes -> nat -> bytes,
    (forall key n, List.length (ks key n) = n) /\
    forall key data, 1 <= len key <= 16 ->
      ArcfourDecode caps key data = Ok (xor_stream data (ks key (List.length data))).

(** One RC4 pass as an XOR with the key stream [ks], and passes [i],
    [i+1], ... under the key XORed with the number of the pass. *)
Definition pass (ks : bytes -> nat -> bytes) (key d : bytes) : bytes :=
  xor_stream d (ks key (List.length d)).

Fixpoint passes (ks : bytes -> nat -> bytes) (key : bytes) (i : Z) (n : nat) (d : bytes)
    : bytes :=
  match n with
  | O => d
  | S n' => passes ks key (i + 1) n' (pass ks (xor_key key i) d)
  end.

(** The key stream of RC4: what rc4_prga XORs the data with. *)
Fixpoint rc4_keystream (s : list Z) (i j : Z) (n : nat) : list Z :=
  match n with
  | O => []
  | S n' =>
      let i := (i + 1) mod 256 in
      let j := (j + Real.zth s i) mod 256 in
      let s := Real.swap s i j in
      Real.zth s ((Real.zth s i + Real.zth s j) mod 256) :: rc4_keystream s i j n'
  end.

Definition Real_key_stream (key : bytes) (n : nat) : bytes :=
  map byte.of_Z (rc4_keystream (Real.rc4_ksa (map byte.unsigned key)) 0 0 n).

(** Computations that leave the file key as it is. *)
Definition keeps_FileKey {A} (m : M A) : Prop :=
  forall e s, FileKey (snd (m e s)) = FileKey s.

(** What pdf_process_Encrypt may have done to the file key: nothing, or
    defined it as a key that pdf_check_password returned for the empty
    password or for PDFPassword. *)
Definition FileKey_from_check caps (e : env) (before : option bytes)
    (res : result unit * state) : Prop :=
  (forall x, fst res = Err x -> FileKey (snd res) = before) /\
  (fst res = Ok tt ->
   FileKey (snd res) = before \/
   exists pw s0 s1 k,
     (pw = [] \/ PDFPassword e = Some pw) /\
     pdf_check_password caps pw e s0 = (Ok (Some k), s1) /\
     FileKey (snd res) = Some k).

(** The two lines about a trailer without /ID, [n] times over. *)
Definition ID_errors (n : nat) : list diag :=
  List.concat (repeat [FormatError ID_error_1; FormatError ID_error_2] n).

(** Computations that keep the file key and write nothing but the lines
    about a missing /ID, and those only when the trailer has no /ID. *)
Definition writes_only_ID_errors {A} (m : M A) : Prop :=
  forall e s, exists n,
    snd (m e s) = mkState (FileKey s) (diags s ++ ID_errors n) /\
    (dict_get (Trailer e) "ID" <> None -> n = 0%nat).

(** Computations that leave the state as it is and, when they return,
    return a value in [P]. *)
Definition returns_in {A} (P : A -> Prop) (m : M A) : Prop :=
  forall e s,
    snd (m e s) = s /\
    match fst (m e s) with Ok a => P a | Err _ => True end.

(** ** The operand stack operators

    The C operators of zstack.c on the operand stack of the interpreter.
    The stack is a chain of blocks; the operators work on the current block
    through the pointers osbot, osp and ostop and reach the blocks below
    through ref_stack_index and ref_stack_count.  The file takes its macros
    and those functions from oper.h, ostack.h and istack.h; they are
    written out here as far as pop, exch, dup, index, .argindex and roll
    use them.  The operators clear, count, mark, cleartomark and
    counttomark are one call each into istack.h and are not modelled.

    An int and a uint have 32 bits, a long and a ps_int 64. *)

Module Zstack.

(** A ref: its type and, for an integer, its value.  [t__invalid] is the
    type of the guard entries below the bottom of a block. *)
Inductive ref : Type :=
| t__invalid
| t_integer (intval : Z)
| t_mark
| t_other (id : Z).

(** What an operator returns: 0 or an error. *)
Inductive code : Type :=
| code_0
| gs_error_rangecheck
| gs_error_stackoverflow
| gs_error_stackunderflow
| gs_error_typecheck.

Definition code_eqb (a b : code) : bool :=
  match a, b with
  | code_0, code_0 => true
  | gs_error_rangecheck, gs_error_rangecheck => true
  | gs_error_stackoverflow, gs_error_stackoverflow => true
  | gs_error_stackunderflow, gs_error_stackunderflow => true
  | gs_error_typecheck, gs_error_typecheck => true
  | _, _ => false
  end.

(** The operand stack as the operators see it.  Addresses in the current
    block are counted from osbot. *)
Record i_ctx : Type := mk_ctx {
  block : Z -> ref;          (* the refs of the current block *)
  osp : Z;                   (* osp - osbot; -1 when the block is empty *)
  ostop : Z;                 (* ostop - osbot *)
  older : nat -> ref;        (* the refs of the blocks below, topmost first *)
  older_count : nat;
  requested : Z              (* o_stack.requested *)
}.

(** The casts. *)
Definition to_uint (z : Z) : Z := z mod 2 ^ 32.
Definition to_int (z : Z) : Z := (z + 2 ^ 31) mod 2 ^ 32 - 2 ^ 31.
Definition to_ulong (z : Z) : Z := z mod 2 ^ 64.

(** [*p] for a pointer into the current block: below osbot lie the guard
    entries. *)
Definition load (m : Z -> ref) (p : Z) : ref :=
  if p <? 0 then t__invalid else m p.

(** [ref_assign(p, &v)] *)
Definition store (m : Z -> ref) (p : Z) (v : ref) : Z -> ref :=
  fun a => if a =? p then v else m a.

(** [memcpy(dst, src, n * sizeof(ref))] for regions that do not overlap. *)
Definition memcpy (m : Z -> ref) (dst src n : Z) : Z -> ref :=
  fun a => if (dst <=? a) && (a <? dst + n) then m (src + (a - dst)) else m a.

Definition set_block (st : i_ctx) (m : Z -> ref) : i_ctx :=
  mk_ctx m (osp st) (ostop st) (older st) (older_count st) (requested st).

Definition set_osp (st : i_ctx) (p : Z) : i_ctx :=
  mk_ctx (block st) p (ostop st) (older st) (older_count st) (requested st).

Definition set_requested (st : i_ctx) (n : Z) : i_ctx :=
  mk_ctx (block st) (osp st) (ostop st) (older st) (older_count st) n.

(** [check_type_failed]: what check_type returns for a ref of another
    type. *)
Definition check_type_failed (r : ref) : code :=
  match r with
  | t__invalid => gs_error_stackunderflow
  | _ => gs_error_typecheck
  end.

(** The place of an element of the stack: in the current block or in the
    blocks below. *)
Inductive place : Type :=
| in_block (p : Z)
| below (i : nat).

(** [ref_stack_count(&o_stack)] *)
Definition ref_stack_count (st : i_ctx) : Z :=
  osp st + 1 + Z.of_nat (older_count st).

(** [ref_stack_index(&o_stack, idx)]: the element [idx] below the top, 0
    for none. *)
Definition ref_stack_index (st : i_ctx) (idx : Z) : option place :=
  if (idx <? 0) || (ref_stack_count st <=? idx) then None
  else if idx <=? osp st then Some (in_block (osp st - idx))
  else Some (below (Z.to_nat (idx - (osp st + 1)))).

Definition load_place (st : i_ctx) (l : place) : ref :=
  match l with
  | in_block p => load (block st) p
  | below i => older st i
  end.

Definition store_place (st : i_ctx) (l : place) (v : ref) : i_ctx :=
  match l with
  | in_block p => set_block st (store (block st) p v)
  | below i =>
      mk_ctx (block st) (osp st) (ostop st)
             (fun k => if Nat.eqb k i then v else older st k)
             (older_count st) (requested st)
  end.

(** <obj> pop - *)
Definition zpop (st : i_ctx) : code * i_ctx :=
  let op := osp st in
  (* check_op(1) *)
  if op <? 0 then (gs_error_stackunderflow, st)
  else (* pop(1) *)
    (code_0, set_osp st (osp st - 1)).

(** <obj1> <obj2> exch <obj2> <obj1> *)
Definition zexch (st : i_ctx) : code * i_ctx :=
  let op := osp st in
  (* check_op(2) *)
  if op <? 1 then (gs_error_stackunderflow, st)
  else
    let next := load (block st) (op - 1) in
    let m := store (block st) (op - 1) (load (block st) op) in
    let m := store m op next in
    (code_0, set_block st m).

(** <obj> dup <obj> <obj> *)
Definition zdup (st : i_ctx) : code * i_ctx :=
  let op := osp st in
  (* check_op(1) *)
  if op <? 0 then (gs_error_stackunderflow, st)
  else
    (* push(1) *)
    let op := op + 1 in
    if ostop st <? op then (gs_error_stackoverflow, set_requested st 1)
    else
      let st := set_osp st op in
      (code_0, set_block st (store (block st) op (load (block st) (op - 1)))).

(** <obj_n> ... <obj_0> <n> index <obj_n> ... <obj_0> <obj_n> *)
Definition zindex (st : i_ctx) : code * i_ctx :=
  let op := osp st in
  match load (block st) op with
  | t_integer intval =>
      if to_ulong (op - 0) <=? to_ulong intval then
        (* Might be in an older stack block. *)
        if intval <? 0 then (gs_error_rangecheck, st)
        else
          match ref_stack_index st (intval + 1) with
          | None => (gs_error_stackunderflow, st)
          | Some elt => (code_0, set_block st (store (block st) op (load_place st elt)))
          end
      else
        let opn := op + Z.lnot (to_int intval) in
        (code_0, set_block st (store (block st) op (load (block st) opn)))
  | r => (check_type_failed r, st)
  end.

(** <obj_n> ... <obj_0> <n> .argindex <obj_n> ... <obj_0> <obj_n> *)
Definition zargindex (st : i_ctx) : code * i_ctx :=
  let (code, st) := zindex st in
  if code_eqb code gs_error_rangecheck
     && match load (block st) (osp st) with
        | t_integer intval => 0 <=? intval
        | _ => false
        end
  then (gs_error_stackunderflow, st)
  else (code, st).

(** The remainder of C, which truncates. *)
Definition c_rem (a b : Z) : Z := Z.rem a b.

(** The chain of one element in the rotation over the blocks:
    [for (j = i, left--;; j = k, elt = next, left--)], entered after its
    initialisation.  [fuel] bounds the steps; [None] when it is used up. *)
Fixpoint chain (fuel : nat) (count md i j lft : Z) (elt : place) (st : i_ctx)
    : option (Z * place * i_ctx) :=
  match fuel with
  | O => None
  | S fuel' =>
      let k := c_rem (to_int (j + md)) count in
      if k =? i then Some (lft, elt, st)
      else
        match ref_stack_index st (k + 2) with
        | None => None
        | Some next =>
            let st := store_place st elt (load_place st next) in
            chain fuel' count md i k (lft - 1) next st
        end
  end.

(** [for (i = 0, left = count; left; i++)] *)
Fixpoint chains (fuel : nat) (count md i lft : Z) (st : i_ctx) : option i_ctx :=
  if lft =? 0 then Some st
  else
    match fuel with
    | O => None
    | S fuel' =>
        match ref_stack_index st (i + 2) with
        | None => None
        | Some elt =>
            let save := load_place st elt in
            match chain (S (Z.to_nat count)) count md i i (lft - 1) elt st with
            | None => None
            | Some (lft, elt, st) =>
                let st := store_place st elt save in
                chains fuel' count md (i + 1) lft st
            end
        end
    end.

(** [for (from = op, n = count; --n; from--) ref_assign_inline(from, from - 1)] *)
Fixpoint up_by_one (n : nat) (from : Z) (m : Z -> ref) : Z * (Z -> ref) :=
  match n with
  | O => (from, m)
  | S n' => up_by_one n' (from - 1) (store m from (load m (from - 1)))
  end.

(** [for (n = count; --n; to++) ref_assign(to, to + 1)] *)
Fixpoint down_by_one (n : nat) (to : Z) (m : Z -> ref) : Z * (Z -> ref) :=
  match n with
  | O => (to, m)
  | S n' => down_by_one n' (to + 1) (store m to (load m (to + 1)))
  end.

(** [for (...; n--; to--, from--) ref_assign(to, from)] *)
Fixpoint move_up (n : nat) (to from : Z) (m : Z -> ref) : Z * Z * (Z -> ref) :=
  match n with
  | O => (to, from, m)
  | S n' => move_up n' (to - 1) (from - 1) (store m to (load m from))
  end.

(** [for (...; n--; to++, from++) ref_assign(to, from)] *)
Fixpoint move_down (n : nat) (to from : Z) (m : Z -> ref) : Z * Z * (Z -> ref) :=
  match n with
  | O => (to, from, m)
  | S n' => move_down n' (to + 1) (from + 1) (store m to (load m from))
  end.

(** <obj_n-1> ... <obj_0> <n> <i> roll
         <obj_(i-1)_mod_ n> ... <obj_0> <obj_n-1> ... <obj_i_mod_n>

    [None] stands for a rotation over the blocks that did not come to its
    end. *)
Definition zroll (st : i_ctx) : option (code * i_ctx) :=
  let op := osp st in
  let op1 := op - 1 in
  match load (block st) op1 with
  | t_integer intval1 =>
  match load (block st) op with
  | t_integer intval =>
      if to_uint (op1 - 0) <? to_uint intval1 then
        (* The data might span multiple stack blocks. *)
        if intval1 <? 0 then Some (gs_error_rangecheck, st)
        else if to_int (ref_stack_count st) <? intval1 + 2
        then Some (gs_error_stackunderflow, st)
        else
          let count := to_int intval1 in
          if count <=? 1 then Some (code_0, set_osp st (osp st - 2))
          else
            let md := to_int intval in
            let md :=
              if count <=? md then c_rem md count
              else if md <? 0 then
                let md := c_rem md count in
                if md <? 0 then md + count else md
              else md in
            (* Use the chain rotation algorithm mentioned below. *)
            match chains (Z.to_nat count) count md 0 count st with
            | None => None
            | Some st => Some (code_0, set_osp st (osp st - 2))
            end
      else
        let count := to_int intval1 in
        if count <=? 1 then Some (code_0, set_osp st (osp st - 2))
        else
          let md := to_int intval in
          if md =? 1 then             (* common special case *)
            let st := set_osp st (osp st - 2) in
            let op := op - 2 in
            let top := load (block st) op in
            let (from, m) := up_by_one (Z.to_nat (count - 1)) op (block st) in
            Some (code_0, set_block st (store m from top))
          else if md =? -1 then       (* common special case *)
            let st := set_osp st (osp st - 2) in
            let op := op - 2 in
            let to := op - count + 1 in
            let bot := load (block st) to in
            let (to, m) := down_by_one (Z.to_nat (count - 1)) to (block st) in
            Some (code_0, set_block st (store m to bot))
          else
            let md :=
              if md <? 0 then
                let md := md + count in
                if md <? 0 then
                  let md := c_rem md count in
                  if md <? 0 then md + count else md
                else md
              else if count <=? md then c_rem md count
              else md in
            if md <=? Z.shiftr count 1 then
              (* Move everything up, then top elements down. *)
              if ostop st - op <=? md
              then Some (gs_error_stackoverflow, set_requested st md)
              else
                let st := set_osp st (osp st - 2) in
                let op := op - 2 in
                let '(_, from, m) := move_up (Z.to_nat count) (op + md) op (block st) in
                Some (code_0, set_block st (memcpy m (from + 1) (op + 1) md))
            else
              (* Move bottom elements up, then everything down. *)
              let md := count - md in
              if ostop st - op <=? md
              then Some (gs_error_stackoverflow, set_requested st md)
              else
                let st := set_osp st (osp st - 2) in
                let op := op - 2 in
                let to := op - count + 1 in
                let m := memcpy (block st) (op + 1) to md in
                let '(_, _, m) := move_down (Z.to_nat count) to (to + md) m in
                Some (code_0, set_block st m)
  | r => Some (check_type_failed r, st)
  end
  | r => Some (check_type_failed r, st)
  end.

(** The element [j] below the top, whatever block it lies in. *)
Definition peek (st : i_ctx) (j : Z) : ref :=
  if j <=? osp st then block st (osp st - j)
  else older st (Z.to_nat (j - (osp st + 1))).

(** The stack, topmost element first. *)
Definition stack_list (st : i_ctx) : list ref :=
  map (fun j => peek st (Z.of_nat j)) (seq 0 (Z.to_nat (ref_stack_count st))).

(** A stack whose pointers lie in its block, with no more than 2^30 refs
    in the block and in the whole stack. *)
Definition wf (st : i_ctx) : Prop :=
  -1 <= osp st <= ostop st /\ ostop st < 2 ^ 30 /\ ref_stack_count st <= 2 ^ 30.

(** What roll makes of the stack below its two operands, topmost element
    first: the top [n] elements are rotated by [i], towards the top for a
    positive [i]. *)
Definition roll_list (n i : Z) (l : list ref) : list ref :=
  let grp := firstn (Z.to_nat n) l in
  let r := Z.to_nat (i mod n) in
  skipn r grp ++ firstn r grp ++ skipn (Z.to_nat n) l.

(** The same, element by element. *)
Definition rolled (n i : Z) (st st' : i_ctx) : Prop :=
  ref_stack_count st' = ref_stack_count st - 2 /\
  (forall j, 0 <= j < n -> peek st' j = peek st (2 + (j + i) mod n)) /\
  (forall j, n <= j < ref_stack_count st' -> peek st' j = peek st (j + 2)).

(** Two stacks with the same pointers: they differ in the refs only. *)
Definition same_shape (st st' : i_ctx) : Prop :=
  osp st' = osp st /\ ostop st' = ostop st /\
  older_count st' = older_count st /\ requested st' = requested st.

(** Two stacks with the same elements. *)
Definition same_stack (st st' : i_ctx) : Prop :=
  ref_stack_count st' = ref_stack_count st /\
  forall j, 0 <= j < ref_stack_count st -> peek st' j = peek st j.

(** A stack from its blocks: the current block bottom first, with [room]
    free places above, and the blocks below topmost first. *)
Definition stack_of (cur : list ref) (room : Z) (old : list ref) : i_ctx :=
  mk_ctx (fun a => nth (Z.to_nat a) cur t__invalid)
         (Z.of_nat (List.length cur) - 1)
         (Z.of_nat (List.length cur) - 1 + room)
         (fun i => nth i old t__invalid) (List.length old) 0.

End Zstack.

(** ** Test vectors of the published algorithms *)

Module RealTests.

Import Real.

Example MD5_empty : MD5 [] = hex "d41d8cd98f00b204e9800998ecf8427e".
Proof. vm_compute. reflexivity. Qed.

Example MD5_abc : MD5 (chars "abc") = hex "900150983cd24fb0d6963f7d28e17f72".
Proof. vm_compute. reflexivity. Qed.

Example MD5_two_blocks :
  MD5 (chars "12345678901234567890123456789012345678901234567890123456789012345678901234567890")
  = hex "57edf4a22be3c955ac49da2e2107b67a".
Proof. vm_compute. reflexivity. Qed.

Example SHA256_abc :
  SHA256 (chars "abc")
  = hex "ba7816bf8f01cfea414140de5dae2223b00361a396177a9cb410ff61f20015ad".
Proof. vm_compute. reflexivity. Qed.

Example SHA256_two_blocks :
  SHA256 (chars "abcdbcdecdefdefgefghfghighijhijkijkljklmklmnlmnomnopnopq")
  = hex "248d6a61d20638b8e5c026930c3e6039a33ce45964ff2167f6ecedd419db06c1".
Proof. vm_compute. reflexivity. Qed.

Example RC4_Key_Plaintext :
  RC4 (chars "Key") (chars "Plaintext") = Ok (hex "bbf316e8d940af0a" ++ [xd3]).
Proof. vm_compute. reflexivity. Qed.

Example RC4_Wiki_pedia :
  RC4 (chars "Wiki") (chars "pedia") = Ok (hex "1021bf04" ++ [x20]).
Proof. vm_compute. reflexivity. Qed.

Example AES128_fips197 :
  AES_CBC (hex "000102030405060708090a0b0c0d0e0f") false
          (zeros 16 ++ hex "69c4e0d86a7b0430d8cdb78070b4c55a")
  = Ok (hex "00112233445566778899aabbccddeeff").
Proof. vm_compute. reflexivity. Qed.

Example AES192_fips197 :
  AES_CBC (hex "000102030405060708090a0b0c0d0e0f1011121314151617") false
          (zeros 16 ++ hex "dda97ca4864cdfe06eaf70a0ec0d7191")
  = Ok (hex "00112233445566778899aabbccddeeff").
Proof. vm_compute. reflexivity. Qed.

Example AES256_fips197 :
  AES_CBC (hex "000102030405060708090a0b0c0d0e0f101112131415161718191a1b1c1d1e1f") false
          (zeros 16 ++ hex "8ea2b7ca516745bfeafc49904b496089")
  = Ok (hex "00112233445566778899aabbccddeeff").
Proof. vm_compute. reflexivity. Qed.

End RealTests.

(** ** Running the monad *)

Lemma bind_ok {A B} (m : M A) (f : A -> M B) e s a s' :
  m e s = (Ok a, s') -> bind m f e s = f a e s'.
Proof. unfold bind. intros ->. reflexivity. Qed.

Lemma bind_err {A B} (m : M A) (f : A -> M B) e s x s' :
  m e s = (Err x, s') -> bind m f e s = (Err x, s').
Proof. unfold bind. intros ->. reflexivity. Qed.

Lemma Encrypt_ok e s d :
  dict_get (Trailer e) "Encrypt" = Some d -> Encrypt e s = (Ok d, s).
Proof.
  intros H. unfold Encrypt, bind, asks, oget, get. rewrite H. reflexivity.
Qed.

Lemma oget_ok l k v e s :
  dict_get l k = Some v -> oget (ODict l) k e s = (Ok v, s).
Proof. intros H. unfold oget, get. rewrite H. reflexivity. Qed.

Lemma knownoget_ok l k e s :
  knownoget (ODict l) k e s = (Ok (dict_get l k), s).
Proof. reflexivity. Qed.

(** Run the first computation of a [bind] with an equation for it. *)
Ltac run H := erewrite bind_ok by (exact H); cbv beta iota.

(** ** Lengths *)

Lemma len_app a b : len (a ++ b) = len a + len b.
Proof. unfold len. rewrite length_app. lia. Qed.

Lemma len_nonneg a : 0 <= len a.
Proof. unfold len. lia. Qed.

Lemma len_firstn n a : len (firstn n a) = Z.min (Z.of_nat n) (len a).
Proof. unfold len. rewrite length_firstn. lia. Qed.

Lemma len_zeros n : len (zeros n) = Z.of_nat n.
Proof. unfold len, zeros. rewrite repeat_length. reflexivity. Qed.

Lemma len_md5 caps s : len (md5 caps s) = 16.
Proof.
  unfold md5. rewrite len_firstn, len_app, len_zeros.
  pose proof (len_nonneg (MD5Encode caps s)). lia.
Qed.

Lemma len_sha256 caps s : len (sha256 caps s) = 32.
Proof.
  unfold sha256. rewrite len_firstn, len_app, len_zeros.
  pose proof (len_nonneg (SHA256Encode caps s)). lia.
Qed.

Lemma getinterval_ok s i n e st :
  0 <= i -> 0 <= n -> i + n <= len s ->
  getinterval s i n e st = (Ok (substr s i n), st).
Proof.
  intros Hi Hn Hl. unfold getinterval.
  replace ((0 <=? i) && (0 <=? n) && (i + n <=? len s)) with true; [reflexivity|].
  symmetry. rewrite !andb_true_iff. repeat split; apply Z.leb_le; assumption.
Qed.

Lemma getinterval_short s i n e st :
  0 <= i -> 0 <= n -> len s < i + n ->
  getinterval s i n e st = (Err rangecheck, st).
Proof.
  intros Hi Hn Hl. unfold getinterval.
  replace (i + n <=? len s) with false; [rewrite andb_false_r; reflexivity|].
  symmetry. apply Z.leb_gt. assumption.
Qed.

Lemma bytes_eqb_eq a b : bytes_eqb a b = true <-> a = b.
Proof.
  revert b. induction a as [|x a IH]; intros [|y b]; simpl; split; try congruence;
    try discriminate.
  - intros H. apply andb_true_iff in H. destruct H as [H1 H2].
    apply Byte.byte_dec_bl in H1. apply IH in H2. congruence.
  - intros H. injection H as -> ->. apply andb_true_iff. split.
    + apply Byte.byte_dec_lb. reflexivity.
    + apply IH. reflexivity.
Qed.

Lemma bytes_eqb_neq a b : bytes_eqb a b = false <-> a <> b.
Proof.
  split.
  - intros H E. apply bytes_eqb_eq in E. congruence.
  - intros H. destruct (bytes_eqb a b) eqn:E; [|reflexivity].
    apply bytes_eqb_eq in E. contradiction.
Qed.

(** ** The per-object key *)

Lemma object_key_tail caps filekey buf e s :
  getinterval (md5 caps buf) 0 (Z.min (len filekey + 5) (len (md5 caps buf))) e s
  = (Ok (object_key caps filekey buf), s).
Proof.
  rewrite len_md5. pose proof (len_nonneg filekey).
  rewrite getinterval_ok by (rewrite ?len_md5; lia).
  reflexivity.
Qed.

Lemma object_key_digest caps filekey buf :
  List.length (MD5Encode caps buf) = 16%nat ->
  object_key caps filekey buf
  = firstn (Z.to_nat (Z.min (len filekey + 5) 16)) (MD5Encode caps buf).
Proof.
  intros H. unfold object_key, md5. rewrite firstn_app, H, Nat.sub_diag.
  rewrite firstn_O, app_nil_r.
  rewrite (firstn_all2 (n := 16) (MD5Encode caps buf)) by (rewrite H; apply Nat.le_refl).
  reflexivity.
Qed.

(** C5. computeobjkey is the deriveObjectKey of the specification for the
    crypt filter method of streams.  When /V is 5 it returns the file key
    itself, whatever the object and generation numbers; otherwise it
    returns the first min(length of the file key + 5, 16) bytes of the MD5
    of the file key followed by the object number on 3 bytes and the
    generation on 2, least significant first, followed by the characters
    sAlT exactly when the method that StmF resolves to is AESV2.  The
    method of StrF has no part in it. *)
Theorem computeobjkey_spec caps e s d fk objnum gen v :
  dict_get (Trailer e) "Encrypt" = Some (ODict d) ->
  FileKey s = Some fk ->
  dict_get d "V" = Some (OInt v) ->
  (v <> 5 -> StmF_resolves d = true) ->
  (v <> 5 ->
   List.length (MD5Encode caps
                  (spec_objkey_input fk objnum gen (spec_resolve_cfm d "StmF")))
   = 16%nat) ->
  computeobjkey caps objnum gen e s
  = (Ok (spec_deriveObjectKey (MD5Encode caps) fk objnum gen
           (spec_resolve_cfm d "StmF") v), s).
Proof.
  intros HE HK HV Hres Hlen.
  assert (HF : the_FileKey e s = (Ok fk, s)).
  { unfold the_FileKey, bind, gets. rewrite HK. reflexivity. }
  unfold computeobjkey, spec_deriveObjectKey.
  run (Encrypt_ok e s _ HE). run (oget_ok _ _ _ e s HV). cbn [int_eq].
  destruct (Z.eqb_spec v 5) as [->|Hv]; [exact HF|].
  specialize (Hres Hv). specialize (Hlen Hv).
  run HF. run (Encrypt_ok e s _ HE). run (knownoget_ok d "StmF" e s).
  fold (objnum_gen_bytes objnum gen).
  assert (Hplain : spec_resolve_cfm d "StmF" <> CFM_AESV2 ->
            getinterval (md5 caps (fk ++ objnum_gen_bytes objnum gen)) 0
              (Z.min (len fk + 5) (len (md5 caps (fk ++ objnum_gen_bytes objnum gen)))) e s
            = (Ok (firstn (Z.to_nat (Z.min (len fk + 5) 16))
                     (MD5Encode caps
                        (spec_objkey_input fk objnum gen (spec_resolve_cfm d "StmF")))), s)).
  { intros Hne. rewrite object_key_tail.
    unfold spec_objkey_input in *.
    destruct (spec_resolve_cfm d "StmF"); try contradiction;
      rewrite app_nil_r in *; rewrite object_key_digest by exact Hlen; reflexivity. }
  unfold StmF_resolves in Hres. unfold spec_resolve_cfm in Hplain, Hlen |- *.
  destruct (dict_get d "StmF") as [f|].
  - destruct (name_eq f "Identity") eqn:Hid.
    + unfold bind at 1, ret at 1. apply Hplain. discriminate.
    + cbn [orb] in Hres. unfold bind at 1. run (knownoget_ok d "CF" e s).
      destruct (dict_get d "CF") as [cf|].
      * destruct cf as [| | | | | |cf]; try discriminate.
        destruct f as [| | |n| | |]; try discriminate.
        destruct (dict_get cf n) as [fd|] eqn:Hfd; [|discriminate].
        destruct fd as [| | | | | |fd]; try discriminate.
        destruct (dict_get fd "CFM") as [m|] eqn:Hm; [|discriminate].
        unfold oget_by. run (oget_ok _ _ _ e s Hfd). run (oget_ok _ _ _ e s Hm).
        unfold spec_method in Hplain, Hlen |- *.
        destruct (name_eq m "AESV2").
        -- unfold ret at 1. rewrite object_key_tail.
           unfold spec_objkey_input in *. rewrite app_assoc in Hlen |- *.
           rewrite object_key_digest by exact Hlen. reflexivity.
        -- unfold ret at 1. apply Hplain.
           destruct (name_eq m "AESV3"); [discriminate|].
           destruct (name_eq m "V2"); discriminate.
      * unfold ret at 1. apply Hplain. discriminate.
  - unfold bind at 1, ret at 1. apply Hplain. discriminate.
Qed.

(** ** The file key of revisions 2 to 4 *)

Lemma bind_ret {A B} (a : A) (f : A -> M B) e s : bind (ret a) f e s = f a e s.
Proof. reflexivity. Qed.

Lemma trailer_id0_present e s a :
  dict_get (Trailer e) "ID" = Some a -> trailer_id0 e s = oget0 a e s.
Proof.
  intros H. unfold trailer_id0, bind, asks, knownoget, knownget, ret.
  rewrite H. reflexivity.
Qed.

Lemma trailer_id0_absent e s :
  dict_get (Trailer e) "ID" = None ->
  trailer_id0 e s
  = (Ok (OString []),
     mkState (FileKey s) (diags s ++ [FormatError ID_error_1; FormatError ID_error_2])).
Proof.
  intros H. unfold trailer_id0, bind, asks, knownoget, knownget, ret.
  rewrite H. unfold pdfformaterror, emit. simpl. rewrite <- app_assoc. reflexivity.
Qed.

Lemma compute_key_below_4 caps pw e s s1 d o p r id0 :
  dict_get (Trailer e) "Encrypt" = Some (ODict d) ->
  dict_get d "O" = Some (OString o) ->
  dict_get d "P" = Some (OInt p) ->
  dict_get d "R" = Some (OInt r) ->
  trailer_id0 e s = (Ok (OString id0), s1) ->
  r < 4 ->
  pdf_compute_encryption_key caps pw e s
  = hash_rounds caps r (pdf_pad_key pw ++ o ++ P_bytes p ++ id0) e s1.
Proof.
  intros HE HO HP HR HID Hr. unfold pdf_compute_encryption_key.
  run (Encrypt_ok e s _ HE). run (oget_ok _ _ _ e s HO). run (oget_ok _ _ _ e s HP).
  unfold bind at 1, as_int at 1, ret at 1. run HID.
  unfold bind at 1, as_string at 1, ret at 1.
  unfold bind at 1, as_string at 1, ret at 1.
  run (Encrypt_ok e s1 _ HE). run (oget_ok _ _ _ e s1 HR).
  unfold bind at 1, as_int at 1, ret at 1.
  unfold hash_rounds. destruct (3 <=? r); [|reflexivity].
  replace (4 <=? r) with false by (symmetry; apply Z.leb_gt; lia).
  rewrite bind_ret. reflexivity.
Qed.

Lemma compute_key_from_4 caps pw e s s1 d o p r id0 (em : option bool) :
  dict_get (Trailer e) "Encrypt" = Some (ODict d) ->
  dict_get d "O" = Some (OString o) ->
  dict_get d "P" = Some (OInt p) ->
  dict_get d "R" = Some (OInt r) ->
  trailer_id0 e s = (Ok (OString id0), s1) ->
  dict_get d "EncryptMetadata" = option_map OBool em ->
  4 <= r ->
  pdf_compute_encryption_key caps pw e s
  = hash_rounds caps r
      (pdf_pad_key pw ++ o ++ P_bytes p ++ id0 ++
       match em with Some false => ff4 | _ => [] end) e s1.
Proof.
  intros HE HO HP HR HID HEM Hr. unfold pdf_compute_encryption_key.
  run (Encrypt_ok e s _ HE). run (oget_ok _ _ _ e s HO). run (oget_ok _ _ _ e s HP).
  unfold bind at 1, as_int at 1, ret at 1. run HID.
  unfold bind at 1, as_string at 1, ret at 1.
  unfold bind at 1, as_string at 1, ret at 1.
  run (Encrypt_ok e s1 _ HE). run (oget_ok _ _ _ e s1 HR).
  unfold bind at 1, as_int at 1, ret at 1.
  unfold hash_rounds.
  replace (3 <=? r) with true by (symmetry; apply Z.leb_le; lia).
  replace (4 <=? r) with true by (symmetry; apply Z.leb_le; lia).
  rewrite <- !app_assoc.
  unfold bind at 1. run (knownoget_ok d "EncryptMetadata" e s1). rewrite HEM.
  destruct em as [[|]|]; cbn [option_map as_bool negb]; rewrite !bind_ret;
    rewrite ?app_nil_r, <- ?app_assoc; reflexivity.
Qed.

Lemma pdf_key_length_agree e e' s :
  same_but_EncryptMetadata e e' -> pdf_key_length e' s = pdf_key_length e s.
Proof.
  intros (_ & _ & d & d' & HE & HE' & Hd). unfold pdf_key_length, bind.
  rewrite (Encrypt_ok e' s _ HE'), (Encrypt_ok e s _ HE).
  unfold knownoget, knownget, ret.
  rewrite (Hd "V"%string) by discriminate.
  destruct (int_eq _ 1); [reflexivity|].
  rewrite (Hd "Length"%string) by discriminate.
  destruct (dict_get d "Length") as [[]|]; reflexivity.
Qed.

Lemma getinterval_env x i n e e' s :
  getinterval x i n e' s = getinterval x i n e s.
Proof. unfold getinterval. destruct (_ && _); reflexivity. Qed.

Lemma md5_trunk_agree caps e e' s x :
  same_but_EncryptMetadata e e' -> md5_trunk caps x e' s = md5_trunk caps x e s.
Proof.
  intros H. unfold md5_trunk, bind. rewrite (pdf_key_length_agree e e' s H).
  destruct (pdf_key_length e s) as [[n|x0] s']; [apply getinterval_env|reflexivity].
Qed.

Lemma ps_repeat_agree {A} (f : A -> M A) e e' n :
  (forall a s, f a e' s = f a e s) ->
  forall a s, ps_repeat n f a e' s = ps_repeat n f a e s.
Proof.
  intros Hf. induction n as [|n IH]; intros a s; simpl; [reflexivity|].
  unfold bind. rewrite Hf. destruct (f a e s) as [[a'|x] s']; [apply IH|reflexivity].
Qed.

Lemma hash_rounds_agree caps e e' r x s :
  same_but_EncryptMetadata e e' -> hash_rounds caps r x e' s = hash_rounds caps r x e s.
Proof.
  intros H. unfold hash_rounds. destruct (3 <=? r); [|apply md5_trunk_agree; exact H].
  unfold bind. rewrite (md5_trunk_agree caps e e' s x H).
  destruct (md5_trunk caps x e s) as [[k|x0] s']; [|reflexivity].
  apply ps_repeat_agree. intros a s0. apply md5_trunk_agree. exact H.
Qed.

Lemma trailer_id0_agree e e' s :
  same_but_EncryptMetadata e e' -> trailer_id0 e' s = trailer_id0 e s.
Proof.
  intros (_ & Ht & _). unfold trailer_id0, bind, asks, knownoget, knownget, ret.
  rewrite (Ht "ID"%string) by discriminate.
  destruct (dict_get (Trailer e) "ID") as [a|]; [|reflexivity].
  destruct a as [| | | | |[|]|]; reflexivity.
Qed.

Lemma compute_key_buffer caps pw e s s1 d o p r id0 (em : option bool) :
  dict_get (Trailer e) "Encrypt" = Some (ODict d) ->
  dict_get d "O" = Some (OString o) ->
  dict_get d "P" = Some (OInt p) ->
  dict_get d "R" = Some (OInt r) ->
  dict_get d "EncryptMetadata" = option_map OBool em ->
  trailer_id0 e s = (Ok (OString id0), s1) ->
  pdf_compute_encryption_key caps pw e s
  = hash_rounds caps r
      (pdf_pad_key pw ++ o ++ P_bytes p ++ id0 ++
       if (4 <=? r) && match em with Some false => true | _ => false end
       then ff4 else []) e s1.
Proof.
  intros HE HO HP HR HEM HID.
  destruct (Z.leb_spec 4 r) as [Hr|Hr]; cbn [andb].
  - rewrite (compute_key_from_4 caps pw e s s1 d o p r id0 em) by assumption.
    destruct em as [[|]|]; reflexivity.
  - rewrite (compute_key_below_4 caps pw e s s1 d o p r id0) by assumption.
    rewrite app_nil_r. reflexivity.
Qed.

(** C4. In pdf_compute_encryption_key the four bytes ff ff ff ff enter
    the MD5 input, after the first element of /ID, exactly when R is at
    least 4 and EncryptMetadata is false; at R = 3 the file key is the same
    whatever EncryptMetadata holds. *)
Theorem EncryptMetadata_from_R4_only caps pw e e' s s1 d o p r id0 (em : option bool) :
  dict_get (Trailer e) "Encrypt" = Some (ODict d) ->
  dict_get d "O" = Some (OString o) ->
  dict_get d "P" = Some (OInt p) ->
  dict_get d "R" = Some (OInt r) ->
  dict_get d "EncryptMetadata" = option_map OBool em ->
  trailer_id0 e s = (Ok (OString id0), s1) ->
  same_but_EncryptMetadata e e' ->
  pdf_compute_encryption_key caps pw e s
  = hash_rounds caps r
      (pdf_pad_key pw ++ o ++ P_bytes p ++ id0 ++
       if (4 <=? r) && match em with Some false => true | _ => false end
       then [xff; xff; xff; xff] else []) e s1
  /\
  (r = 3 ->
   pdf_compute_encryption_key caps pw e' s = pdf_compute_encryption_key caps pw e s).
Proof.
  intros HE HO HP HR HEM HID Hsame. split.
  - rewrite (compute_key_buffer caps pw e s s1 d o p r id0 em) by assumption.
    destruct ((4 <=? r) && match em with Some false => true | _ => false end);
      reflexivity.
  - intros ->.
    destruct Hsame as (Hpw & Ht & d0 & d' & HE0 & HE' & Hd).
    assert (d0 = d) by congruence. subst d0.
    assert (Hsame : same_but_EncryptMetadata e e').
    { split; [exact Hpw|]. split; [exact Ht|]. exists d, d'. auto. }
    rewrite (compute_key_below_4 caps pw e s s1 d o p 3 id0) by (assumption || lia).
    rewrite (compute_key_below_4 caps pw e' s s1 d' o p 3 id0).
    + apply hash_rounds_agree. exact Hsame.
    + exact HE'.
    + rewrite Hd by discriminate. exact HO.
    + rewrite Hd by discriminate. exact HP.
    + rewrite Hd by discriminate. exact HR.
    + rewrite (trailer_id0_agree e e' s Hsame). exact HID.
    + lia.
Qed.

Lemma md5_trunk_ok caps e s x n :
  pdf_key_length e s = (Ok n, s) -> 0 <= n <= 16 ->
  md5_trunk caps x e s = (Ok (substr (md5 caps x) 0 n), s).
Proof.
  intros Hn Hr. unfold md5_trunk. run Hn.
  apply getinterval_ok; rewrite ?len_md5; lia.
Qed.

Lemma len_substr_0 x n : 0 <= n <= len x -> len (substr x 0 n) = n.
Proof.
  intros H. unfold substr. rewrite skipn_O, len_firstn. lia.
Qed.

Lemma ps_repeat_ok {A} (P : A -> Prop) (f : A -> M A) e s :
  (forall a, exists b, f a e s = (Ok b, s) /\ P b) ->
  forall n a, P a -> exists b, ps_repeat n f a e s = (Ok b, s) /\ P b.
Proof.
  intros Hf. induction n as [|n IH]; intros a Ha.
  - exists a. split; [reflexivity|exact Ha].
  - destruct (Hf a) as (b & Hb & Pb). destruct (IH b Pb) as (c & Hc & Pc).
    exists c. split; [|exact Pc]. cbn [ps_repeat]. run Hb. exact Hc.
Qed.

Lemma hash_rounds_ok caps e s r x n :
  pdf_key_length e s = (Ok n, s) -> 0 <= n <= 16 ->
  exists key, hash_rounds caps r x e s = (Ok key, s) /\ len key = n.
Proof.
  intros Hn Hr.
  assert (Hstep : forall a, exists b, md5_trunk caps a e s = (Ok b, s) /\ len b = n).
  { intros a. exists (substr (md5 caps a) 0 n). split.
    - apply md5_trunk_ok; assumption.
    - apply len_substr_0. rewrite len_md5. lia. }
  unfold hash_rounds. destruct (3 <=? r); [|apply Hstep].
  destruct (Hstep x) as (k & Hk & Lk).
  destruct (ps_repeat_ok (fun b => len b = n) (md5_trunk caps) e s Hstep 50 k Lk)
    as (key & Hkey & Lkey).
  exists key. split; [|exact Lkey]. run Hk. exact Hkey.
Qed.

(** C8. When the trailer has no /ID, pdf_compute_encryption_key does not
    stop: it writes the two lines of the format error, takes the empty
    string where the first element of /ID would stand in the MD5 input, and
    still returns a key of the configured length. *)
Theorem absent_ID_still_gives_key caps pw e s d o p r n (em : option bool) :
  dict_get (Trailer e) "Encrypt" = Some (ODict d) ->
  dict_get d "O" = Some (OString o) ->
  dict_get d "P" = Some (OInt p) ->
  dict_get d "R" = Some (OInt r) ->
  dict_get d "EncryptMetadata" = option_map OBool em ->
  (forall st, pdf_key_length e st = (Ok n, st)) -> 0 <= n <= 16 ->
  dict_get (Trailer e) "ID" = None ->
  let s' := mkState (FileKey s)
              (diags s ++ [FormatError ID_error_1; FormatError ID_error_2]) in
  let buf := pdf_pad_key pw ++ o ++ P_bytes p ++ [] ++
             if (4 <=? r) && match em with Some false => true | _ => false end
             then ff4 else [] in
  exists key,
    pdf_compute_encryption_key caps pw e s = (Ok key, s') /\
    hash_rounds caps r buf e s' = (Ok key, s') /\
    len key = n.
Proof.
  intros HE HO HP HR HEM Hn Hr HID s' buf.
  destruct (hash_rounds_ok caps e s' r buf n (Hn s') Hr) as (key & Hkey & Lkey).
  exists key. split; [|split; assumption].
  rewrite <- Hkey.
  apply (compute_key_buffer caps pw e s s' d o p r [] em); try assumption.
  apply trailer_id0_absent. exact HID.
Qed.

(** ** Is a password required? *)

Lemma isRequired_below_4 e s d v :
  dict_get (Trailer e) "Encrypt" = Some (ODict d) ->
  dict_get d "V" = Some (OInt v) -> v < 4 ->
  isRequired e s = (Ok true, s).
Proof.
  intros HE HV Hv. unfold isRequired.
  run (Encrypt_ok e s _ HE). unfold get. rewrite HV. rewrite bind_ret.
  unfold as_int. rewrite bind_ret.
  replace (4 <=? v) with false by (symmetry; apply Z.leb_gt; lia).
  reflexivity.
Qed.

(** From V = 4 on, the test is a function of the three filter entries. *)
Lemma isRequired_from_4 e s d v :
  dict_get (Trailer e) "Encrypt" = Some (ODict d) ->
  dict_get d "V" = Some (OInt v) -> 4 <= v ->
  isRequired e s
  = (let needed := negb (resolves_to_Identity d "StmF")
                   || negb (resolves_to_Identity d "StrF") in
     match dict_get d "CF" with
     | Some (ODict cf) =>
         match dict_get cf "StdCF" with
         | Some (ODict std) =>
             match dict_get std "AuthEvent" with
             | Some (OName ae) => ret (String.eqb ae "DocOpen" || needed)
             | Some _ => wrong_type "AuthEvent"
             | None => ret true
             end
         | Some _ => wrong_type "StdCF"
         | None => ret true
         end
     | Some _ => wrong_type "CF"
     | None => ret true
     end) e s.
Proof.
  intros HE HV Hv. unfold isRequired.
  run (Encrypt_ok e s _ HE). unfold get. rewrite HV. rewrite bind_ret.
  unfold as_int. rewrite bind_ret.
  replace (4 <=? v) with true by (symmetry; apply Z.leb_le; lia).
  unfold knownget. rewrite !bind_ret. unfold resolves_to_Identity.
  assert (Hn : (match dict_get d "StmF" with
                | Some f => negb (name_eq f "Identity")
                | None => false
                end
                || match dict_get d "StrF" with
                   | Some f => negb (name_eq f "Identity")
                   | None => false
                   end)
               = negb match dict_get d "StmF" with
                      | Some f => name_eq f "Identity"
                      | None => true
                      end
                 || negb match dict_get d "StrF" with
                         | Some f => name_eq f "Identity"
                         | None => true
                         end).
  { destruct (dict_get d "StmF"), (dict_get d "StrF"); reflexivity. }
  rewrite Hn. cbv zeta.
  destruct (dict_get d "CF") as [[| | | | | |cf]|]; try reflexivity.
  rewrite bind_ret.
  destruct (dict_get cf "StdCF") as [[| | | | | |std]|]; try reflexivity.
  rewrite bind_ret.
  destruct (dict_get std "AuthEvent") as [[| | |ae| | |]|]; reflexivity.
Qed.

Lemma wrong_type_fails what e s : exists x s', wrong_type what e s = (Err x, s').
Proof. unfold wrong_type, bind, pdfformaterror, emit, signalerror. eauto. Qed.

(** C1, as the source decides it.  No password is required exactly when
    V >= 4, StmF and StrF resolve to Identity, and CF holds a StdCF whose
    AuthEvent is a name other than DocOpen; when CF, StdCF or AuthEvent is
    absent, and when AuthEvent is DocOpen, a password is required. *)
Theorem isRequired_false_iff e s d v :
  dict_get (Trailer e) "Encrypt" = Some (ODict d) ->
  dict_get d "V" = Some (OInt v) ->
  (fst (isRequired e s) = Ok false <->
   4 <= v /\
   resolves_to_Identity d "StmF" = true /\
   resolves_to_Identity d "StrF" = true /\
   exists cf std ae,
     dict_get d "CF" = Some (ODict cf) /\
     dict_get cf "StdCF" = Some (ODict std) /\
     dict_get std "AuthEvent" = Some (OName ae) /\
     ae <> "DocOpen"%string)
  /\
  (forall cf std,
     dict_get d "CF" = None \/
     (dict_get d "CF" = Some (ODict cf) /\ dict_get cf "StdCF" = None) \/
     (dict_get d "CF" = Some (ODict cf) /\ dict_get cf "StdCF" = Some (ODict std) /\
      (dict_get std "AuthEvent" = None \/
       dict_get std "AuthEvent" = Some (OName "DocOpen"))) ->
     isRequired e s = (Ok true, s)).
Proof.
  intros HE HV. destruct (Z.le_gt_cases 4 v) as [Hv|Hv].
  2:{ rewrite (isRequired_below_4 e s d v HE HV) by lia. split.
      - split; [discriminate|]. intros (H & _). lia.
      - reflexivity. }
  rewrite (isRequired_from_4 e s d v HE HV Hv). cbv zeta. split.
  - split.
    + intros H.
      destruct (dict_get d "CF") as [[| | | | | |cf]|];
        try (destruct (wrong_type_fails "CF" e s) as (x & s' & Hx);
             rewrite Hx in H; discriminate);
        try discriminate.
      destruct (dict_get cf "StdCF") as [[| | | | | |std]|] eqn:Hstd;
        try (destruct (wrong_type_fails "StdCF" e s) as (x & s' & Hx);
             rewrite Hx in H; discriminate);
        try discriminate.
      destruct (dict_get std "AuthEvent") as [[| | |ae| | |]|] eqn:Hae;
        try (destruct (wrong_type_fails "AuthEvent" e s) as (x & s' & Hx);
             rewrite Hx in H; discriminate);
        try discriminate.
      cbn in H. injection H as H.
      apply orb_false_iff in H. destruct H as [H1 H2].
      apply orb_false_iff in H2. destruct H2 as [H2 H3].
      apply negb_false_iff in H2, H3.
      split; [exact Hv|]. split; [exact H2|]. split; [exact H3|].
      exists cf, std, ae. split; [reflexivity|]. split; [exact Hstd|].
      split; [exact Hae|].
      intros ->. discriminate.
    + intros (_ & H2 & H3 & cf & std & ae & Hcf & Hstd & Hae & Hne).
      rewrite Hcf, Hstd, Hae, H2, H3. cbn.
      destruct (String.eqb_spec ae "DocOpen"); [contradiction|reflexivity].
  - intros cf std [H | [(H1 & H2) | (H1 & H2 & [H3 | H3])]].
    + rewrite H. reflexivity.
    + rewrite H1, H2. reflexivity.
    + rewrite H1, H2, H3. reflexivity.
    + rewrite H1, H2, H3. reflexivity.
Qed.

(** ** The stream key of a resolved object *)

Lemma resolve_head caps objnum gen run e s s1 s2 fk key d enc :
  FileKey s = Some fk ->
  computeobjkey caps objnum gen e s = (Ok key, s1) ->
  run (Some key) e s1 = (Ok (true, ODict d), s2) ->
  dict_get (Trailer e) "Encrypt" = Some (ODict enc) ->
  forall r, dict_get enc "R" = Some (OInt r) ->
  pdf_run_resolve caps objnum gen run e s
  = (if r <? 3 then ret (true, put_StreamKey d key)
     else
       em <- knownoget (ODict enc) "EncryptMetadata" ;;
       em <- as_bool (match em with Some b => b | None => OBool true end) ;;
       if negb em
          && name_eq (match dict_get d "Type" with Some t => t | None => ONull end)
                     "Metadata"
       then ret (true, ODict d)
       else if r <? 4 then ret (true, put_StreamKey d key)
       else
         stmf <- knownoget (ODict enc) "StmF" ;;
         if name_eq (match stmf with Some f => f | None => OName "Identity" end)
                    "Identity"
         then ret (true, ODict d)
         else ret (true, put_StreamKey d key)) e s2.
Proof.
  intros HK Hkey Hrun HE r HR. unfold pdf_run_resolve.
  run (eq_refl : gets FileKey e s = (Ok (FileKey s), s)). rewrite HK.
  run Hkey. run Hrun. cbv iota beta. run (Encrypt_ok e s2 _ HE). run (oget_ok _ _ _ e s2 HR).
  unfold as_int. rewrite bind_ret. reflexivity.
Qed.

(** C3, as the source decides it.  For an executable dictionary read
    while a file key is set: below R = 3 the stream key is always attached;
    at R = 3 it is attached unless EncryptMetadata is false and the object
    is of /Type /Metadata, whatever StmF says; from R = 4 on it is attached
    unless that exemption holds or StmF resolves to Identity. *)
Theorem resolve_attaches_StreamKey caps objnum gen run e s s1 s2 fk key d enc r :
  FileKey s = Some fk ->
  computeobjkey caps objnum gen e s = (Ok key, s1) ->
  run (Some key) e s1 = (Ok (true, ODict d), s2) ->
  dict_get (Trailer e) "Encrypt" = Some (ODict enc) ->
  dict_get enc "R" = Some (OInt r) ->
  let attached := (Ok (true, put_StreamKey d key), s2) in
  let untouched := (Ok (true, ODict d), s2) in
  (r < 3 -> pdf_run_resolve caps objnum gen run e s = attached)
  /\
  (forall em : option bool,
     dict_get enc "EncryptMetadata" = option_map OBool em ->
     (r = 3 ->
      pdf_run_resolve caps objnum gen run e s
      = if metadata_exempt em d then untouched else attached)
     /\
     (4 <= r ->
      pdf_run_resolve caps objnum gen run e s
      = if metadata_exempt em d then untouched
        else if resolves_to_Identity enc "StmF" then untouched
        else attached)).
Proof.
  intros HK Hkey Hrun HE HR attached untouched.
  rewrite (resolve_head caps objnum gen run e s s1 s2 fk key d enc
             HK Hkey Hrun HE r HR).
  split.
  - intros Hr. replace (r <? 3) with true by (symmetry; apply Z.ltb_lt; lia).
    reflexivity.
  - intros em HEM. split.
    + intros ->. change (3 <? 3) with false. change (3 <? 4) with true. cbv iota.
      run (knownoget_ok enc "EncryptMetadata" e s2). rewrite HEM.
      unfold metadata_exempt.
      destruct em as [[|]|]; cbn [option_map as_bool]; rewrite bind_ret;
        cbn [negb andb]; try reflexivity.
      destruct (name_eq _ "Metadata"); reflexivity.
    + intros Hr.
      replace (r <? 3) with false by (symmetry; apply Z.ltb_ge; lia).
      replace (r <? 4) with false by (symmetry; apply Z.ltb_ge; lia).
      assert (Hstm : (stmf <- knownoget (ODict enc) "StmF" ;;
                      if name_eq (match stmf with Some f => f | None => OName "Identity" end)
                                 "Identity"
                      then ret (true, ODict d)
                      else ret (true, put_StreamKey d key)) e s2
                     = if resolves_to_Identity enc "StmF" then untouched else attached).
      { run (knownoget_ok enc "StmF" e s2). unfold resolves_to_Identity.
        destruct (dict_get enc "StmF") as [f|]; [|reflexivity].
        destruct (name_eq f "Identity"); reflexivity. }
      run (knownoget_ok enc "EncryptMetadata" e s2). rewrite HEM.
      unfold metadata_exempt.
      destruct em as [[|]|]; cbn [option_map as_bool]; rewrite bind_ret;
        cbn [negb andb]; try exact Hstm.
      destruct (name_eq _ "Metadata"); [reflexivity|exact Hstm].
Qed.

(** ** Processing the encryption dictionary *)

Lemma process_Encrypt_decides caps e s d f b :
  dict_get (Trailer e) "Encrypt" = Some (ODict d) ->
  dict_get d "Filter" = Some f -> name_eq f "Standard" = true ->
  isRequired e s = (Ok b, s) ->
  pdf_process_Encrypt caps e s
  = (if b || match PDFPassword e with Some _ => true | None => false end
     then verify_passwords caps else identity_warnings) e s.
Proof.
  intros HE HF Hstd Hreq. unfold pdf_process_Encrypt.
  run (Encrypt_ok e s _ HE). run (oget_ok _ _ _ e s HF). rewrite Hstd.
  cbn [negb]. rewrite bind_ret. run Hreq.
  run (eq_refl : asks PDFPassword e s = (Ok (PDFPassword e), s)).
  reflexivity.
Qed.

Lemma verify_empty_works caps e s k s1 :
  pdf_check_password caps [] e s = (Ok (Some k), s1) ->
  verify_passwords caps e s = (Ok tt, mkState (Some k) (diags s1)).
Proof. intros H. unfold verify_passwords. run H. reflexivity. Qed.

Lemma verify_empty_fails caps e s s1 :
  pdf_check_password caps [] e s = (Ok None, s1) ->
  verify_passwords caps e s
  = match PDFPassword e with
    | Some pw =>
        (r <- pdf_check_password caps pw ;;
         match r with
         | Some filekey => def_FileKey filekey
         | None => password_did_not_work caps pw
         end) e s1
    | None =>
        (pdfformaterror "   **** This file requires a password for access." ;;;
         signalerror invalidfileaccess) e s1
    end.
Proof.
  intros H. unfold verify_passwords. run H.
  run (eq_refl : asks PDFPassword e s1 = (Ok (PDFPassword e), s1)).
  destruct (PDFPassword e); reflexivity.
Qed.

Lemma password_did_not_work_fails caps pw e s :
  fst (password_did_not_work caps pw e s) = Err invalidfileaccess.
Proof.
  unfold password_did_not_work, bind, pdfformaterror, emit, signalerror, ret.
  destruct (contains_non_ascii pw); [|reflexivity].
  destruct (saslprep caps); [|reflexivity].
  destruct (locale_to_utf8 caps); reflexivity.
Qed.

(** C7. When PDFPassword is defined, pdf_process_Encrypt checks passwords
    whatever the requirement test answered, also when it answered that none
    is needed: the file key comes from a password that checks, and when
    neither the empty password nor PDFPassword checks the procedure fails
    with invalidfileaccess. *)
Theorem supplied_password_is_verified caps e s d f b pw :
  dict_get (Trailer e) "Encrypt" = Some (ODict d) ->
  dict_get d "Filter" = Some f -> name_eq f "Standard" = true ->
  isRequired e s = (Ok b, s) ->
  PDFPassword e = Some pw ->
  pdf_process_Encrypt caps e s = verify_passwords caps e s
  /\
  (forall s1, pdf_check_password caps [] e s = (Ok None, s1) ->
     (forall k s2, pdf_check_password caps pw e s1 = (Ok (Some k), s2) ->
        pdf_process_Encrypt caps e s = (Ok tt, mkState (Some k) (diags s2)))
     /\
     (forall s2, pdf_check_password caps pw e s1 = (Ok None, s2) ->
        fst (pdf_process_Encrypt caps e s) = Err invalidfileaccess)).
Proof.
  intros HE HF Hstd Hreq Hpw.
  assert (Hrun : pdf_process_Encrypt caps e s = verify_passwords caps e s).
  { rewrite (process_Encrypt_decides caps e s d f b HE HF Hstd Hreq).
    rewrite Hpw, orb_true_r. reflexivity. }
  split; [exact Hrun|].
  intros s1 Hempty. rewrite Hrun, (verify_empty_fails caps e s s1 Hempty), Hpw.
  split.
  - intros k s2 Hk. run Hk. reflexivity.
  - intros s2 Hk. run Hk. apply password_did_not_work_fails.
Qed.

Lemma check_password_R2_to_R4 caps pw e s d r :
  dict_get (Trailer e) "Encrypt" = Some (ODict d) ->
  dict_get d "R" = Some (OInt r) -> 2 <= r <= 4 ->
  pdf_check_password caps pw e s
  = (u <- pdf_check_pre_r5_user_password caps pw ;;
     match u with
     | Some filekey => ret (Some filekey)
     | None => pdf_check_pre_r5_owner_password caps pw
     end) e s.
Proof.
  intros HE HR Hr. unfold pdf_check_password.
  run (Encrypt_ok e s _ HE). run (oget_ok _ _ _ e s HR).
  unfold as_int. rewrite bind_ret.
  replace ((2 <=? r) && (r <=? 4)) with true; [reflexivity|].
  symmetry. apply andb_true_iff. split; apply Z.leb_le; lia.
Qed.

(** C9. When passwords are checked, the empty password comes first: if it
    checks, the file key is the one it yields, whatever PDFPassword holds;
    PDFPassword is tried only after the empty password failed, which for
    revisions 2 to 4 means that it failed the user check and then the owner
    check. *)
Theorem empty_password_first caps e s d f b :
  dict_get (Trailer e) "Encrypt" = Some (ODict d) ->
  dict_get d "Filter" = Some f -> name_eq f "Standard" = true ->
  isRequired e s = (Ok b, s) ->
  b || match PDFPassword e with Some _ => true | None => false end = true ->
  (forall k s1, pdf_check_password caps [] e s = (Ok (Some k), s1) ->
     pdf_process_Encrypt caps e s = (Ok tt, mkState (Some k) (diags s1)))
  /\
  (forall pw s1, PDFPassword e = Some pw ->
     pdf_check_password caps [] e s = (Ok None, s1) ->
     pdf_process_Encrypt caps e s
     = (r <- pdf_check_password caps pw ;;
        match r with
        | Some filekey => def_FileKey filekey
        | None => password_did_not_work caps pw
        end) e s1)
  /\
  (forall r s1, dict_get d "R" = Some (OInt r) -> 2 <= r <= 4 ->
     pdf_check_password caps [] e s = (Ok None, s1) ->
     exists s0,
       pdf_check_pre_r5_user_password caps [] e s = (Ok None, s0) /\
       pdf_check_pre_r5_owner_password caps [] e s0 = (Ok None, s1)).
Proof.
  intros HE HF Hstd Hreq Hruns.
  assert (Hrun : pdf_process_Encrypt caps e s = verify_passwords caps e s).
  { rewrite (process_Encrypt_decides caps e s d f b HE HF Hstd Hreq).
    rewrite Hruns. reflexivity. }
  split; [|split].
  - intros k s1 Hk. rewrite Hrun. apply verify_empty_works. exact Hk.
  - intros pw s1 Hpw Hempty.
    rewrite Hrun, (verify_empty_fails caps e s s1 Hempty), Hpw. reflexivity.
  - intros r s1 HR Hr Hempty.
    rewrite (check_password_R2_to_R4 caps [] e s d r HE HR Hr) in Hempty.
    unfold bind in Hempty.
    destruct (pdf_check_pre_r5_user_password caps [] e s) as [[[k|]|x] s0].
    + discriminate.
    + exists s0. split; [reflexivity|exact Hempty].
    + discriminate.
Qed.

(** ** Revision 5 *)

Lemma r5_password_firstn caps p :
  r5_password caps p
  = firstn 127 (match saslprep caps with Some prep => prep p | None => p end).
Proof.
  unfold r5_password. destruct (saslprep caps) as [prep|];
    match goal with
    | |- (if 127 <? len ?x then _ else _) = _ =>
        destruct (Z.ltb_spec 127 (len x)) as [H|H];
          [reflexivity | symmetry; apply firstn_all2; unfold len in H; lia]
    end.
Qed.

(** C10. pdf_check_r5_password uses the first 127 bytes of the password
    (after .saslprep, when the operator exists) and nothing more: two
    passwords that agree there get the same answer and the same file
    key. *)
Theorem r5_uses_127_bytes caps p1 p2 e s :
  firstn 127 (match saslprep caps with Some prep => prep p1 | None => p1 end)
  = firstn 127 (match saslprep caps with Some prep => prep p2 | None => p2 end) ->
  pdf_check_r5_password caps p1 e s = pdf_check_r5_password caps p2 e s.
Proof.
  intros H. rewrite <- !r5_password_firstn in H.
  unfold pdf_check_r5_password, r5_candidate. rewrite H. reflexivity.
Qed.

(** ** The user password of revisions 3 and 4 *)

Lemma lxor_byte_range a b :
  0 <= a < 256 -> 0 <= b < 256 -> 0 <= Z.lxor a b < 256.
Proof.
  intros Ha Hb. split.
  - apply Z.lxor_nonneg. lia.
  - destruct (Z.eq_dec (Z.lxor a b) 0) as [E|E]; [lia|].
    assert (Hp : 0 < Z.lxor a b).
    { assert (0 <= Z.lxor a b) by (apply Z.lxor_nonneg; lia). lia. }
    change 256 with (2 ^ 8). apply Z.log2_lt_pow2; [exact Hp|].
    pose proof (Z.log2_lxor a b (proj1 Ha) (proj1 Hb)) as Hl.
    assert (La : Z.log2 a < 8).
    { destruct (Z.eq_dec a 0) as [->|Na]; [cbn; lia|].
      apply Z.log2_lt_pow2; [lia|]. change (2 ^ 8) with 256. lia. }
    assert (Lb : Z.log2 b < 8).
    { destruct (Z.eq_dec b 0) as [->|Nb]; [cbn; lia|].
      apply Z.log2_lt_pow2; [lia|]. change (2 ^ 8) with 256. lia. }
    lia.
Qed.

Lemma byte_unsigned_range b : 0 <= byte.unsigned b < 256.
Proof. pose proof (byte.unsigned_range b) as H. change (2 ^ 8) with 256 in H. exact H. Qed.

Lemma xor_key_length key i : List.length (xor_key key i) = List.length key.
Proof. unfold xor_key. apply length_map. Qed.

Lemma firstn_succ_nth (l : bytes) k :
  (k < List.length l)%nat -> firstn (S k) l = firstn k l ++ [nth k l x00].
Proof.
  revert k. induction l as [|x l IH]; intros k Hk; simpl in Hk; [lia|].
  destruct k as [|k]; [reflexivity|].
  cbn [firstn nth app]. f_equal. apply IH. lia.
Qed.

(** The loop of pdf_xorbytes, started at byte [k] with the bytes before
    it already stored. *)
Lemma xorbytes_loop iter key e s :
  0 <= iter < 256 ->
  forall m k,
    (k + m = List.length key)%nat ->
    for_from (Z.of_nat k) m
      (fun byte_num new_key =>
         b <- sget key byte_num ;; put new_key byte_num (Z.lxor b iter))
      (xor_key (firstn k key) iter ++ zeros m) e s
    = (Ok (xor_key key iter), s).
Proof.
  intros Hi. induction m as [|m IH]; intros k Hk.
  - cbn [for_from]. unfold zeros. cbn [repeat]. rewrite app_nil_r.
    rewrite firstn_all2 by lia. reflexivity.
  - cbn [for_from].
    assert (Hlen : len key = Z.of_nat (List.length key)) by reflexivity.
    assert (Hget : sget key (Z.of_nat k) e s
                   = (Ok (byte.unsigned (nth k key x00)), s)).
    { unfold sget. rewrite Nat2Z.id.
      replace ((0 <=? Z.of_nat k) && (Z.of_nat k <? len key)) with true; [reflexivity|].
      symmetry. apply andb_true_iff. split; [apply Z.leb_le|apply Z.ltb_lt]; lia. }
    set (acc := xor_key (firstn k key) iter ++ zeros (S m)).
    set (v := Z.lxor (byte.unsigned (nth k key x00)) iter).
    assert (Hacc : List.length (xor_key (firstn k key) iter) = k).
    { rewrite xor_key_length, length_firstn. lia. }
    assert (Hput : put acc (Z.of_nat k) v e s
                   = (Ok (xor_key (firstn (S k) key) iter ++ zeros m), s)).
    { unfold put. rewrite Nat2Z.id.
      assert (Hv : 0 <= v < 256)
        by (apply lxor_byte_range; [apply byte_unsigned_range|exact Hi]).
      replace ((0 <=? Z.of_nat k) && (Z.of_nat k <? len acc)) with true.
      2:{ symmetry. apply andb_true_iff. split; [apply Z.leb_le|apply Z.ltb_lt]; [lia|].
          unfold acc, len. rewrite length_app, Hacc. unfold zeros.
          rewrite repeat_length. lia. }
      replace ((0 <=? v) && (v <=? 255)) with true.
      2:{ symmetry. apply andb_true_iff. split; apply Z.leb_le; lia. }
      unfold ret. f_equal. f_equal. unfold acc.
      rewrite firstn_app, Hacc, Nat.sub_diag, firstn_O, app_nil_r.
      rewrite firstn_all2 by lia.
      rewrite skipn_app, Hacc.
      rewrite skipn_all2 by lia.
      replace (k + 1 - k)%nat with 1%nat by lia.
      cbn [app zeros repeat skipn].
      rewrite (firstn_succ_nth key) by lia.
      unfold xor_key at 2. rewrite map_app. cbn [map]. rewrite <- app_assoc.
      reflexivity. }
    assert (Hbody : (b <- sget key (Z.of_nat k) ;;
                     put acc (Z.of_nat k) (Z.lxor b iter)) e s
                    = (Ok (xor_key (firstn (S k) key) iter ++ zeros m), s)).
    { run Hget. exact Hput. }
    run Hbody.
    replace (Z.of_nat k + 1) with (Z.of_nat (S k)) by lia.
    apply IH. lia.
Qed.

Lemma pdf_xorbytes_ok iter key e s :
  0 <= iter < 256 -> pdf_xorbytes iter key e s = (Ok (xor_key key iter), s).
Proof.
  intros Hi. unfold pdf_xorbytes, ps_for.
  replace (Z.to_nat (len key - 1 - 0 + 1)) with (List.length key) by (unfold len; lia).
  apply (xorbytes_loop iter key e s Hi (List.length key) 0%nat). reflexivity.
Qed.

Lemma arc4decode_rc4 caps c key e s :
  arc4decode caps c key e s = (rc4 caps c key, s).
Proof.
  unfold arc4decode, rc4. destruct (len c =? 0); [reflexivity|].
  unfold bind, lift, ret. destruct (ArcfourDecode caps key c); reflexivity.
Qed.

Lemma rounds_loop caps fk e s :
  forall n i u,
    0 <= i -> i + Z.of_nat n <= 256 ->
    for_from i n (fun i u => k <- pdf_xorbytes i fk ;; arc4decode caps u k) u e s
    = (rounds caps fk i n u, s).
Proof.
  induction n as [|n IH]; intros i u Hi Hn; [reflexivity|].
  cbn [for_from rounds].
  assert (Hbody : (k <- pdf_xorbytes i fk ;; arc4decode caps u k) e s
                  = (rc4 caps u (xor_key fk i), s)).
  { run (pdf_xorbytes_ok i fk e s ltac:(lia)). apply arc4decode_rc4. }
  destruct (rc4 caps u (xor_key fk i)) as [u'|x].
  - run Hbody. apply IH; lia.
  - apply bind_err. exact Hbody.
Qed.

Lemma gen_user_password_R3_value caps fk e s id0 :
  trailer_id0 e s = (Ok (OString id0), s) ->
  pdf_gen_user_password_R3 caps fk e s = (user_value_R3 caps fk id0, s).
Proof.
  intros HID. unfold pdf_gen_user_password_R3, user_value_R3.
  run HID. unfold as_string. rewrite bind_ret.
  pose proof (arc4decode_rc4 caps (md5 caps (pdf_padding_string ++ id0)) fk e s) as H0.
  destruct (rc4 caps (md5 caps (pdf_padding_string ++ id0)) fk) as [u|x].
  - run H0. unfold ps_for. apply rounds_loop; cbn; lia.
  - apply bind_err. exact H0.
Qed.

Lemma rc4_length caps c key u :
  length_preserving caps -> rc4 caps c key = Ok u -> List.length u = List.length c.
Proof.
  intros Hl. unfold rc4. destruct (len c =? 0); [intros H; injection H as <-; reflexivity|].
  destruct (ArcfourDecode caps key c) as [out|x] eqn:E; [|discriminate].
  intros H. injection H as <-. rewrite length_firstn, (Hl key c out E). lia.
Qed.

Lemma rounds_length caps key :
  length_preserving caps ->
  forall n i u v, rounds caps key i n u = Ok v -> List.length v = List.length u.
Proof.
  intros Hl. induction n as [|n IH]; intros i u v H; cbn [rounds] in H.
  - injection H as <-. reflexivity.
  - destruct (rc4 caps u (xor_key key i)) as [u'|x] eqn:E; [|discriminate].
    rewrite (IH _ _ _ H). apply (rc4_length caps u (xor_key key i) u' Hl E).
Qed.

Lemma user_value_R3_length caps fk id0 u :
  length_preserving caps -> user_value_R3 caps fk id0 = Ok u -> len u = 16.
Proof.
  intros Hl. unfold user_value_R3.
  destruct (rc4 caps _ fk) as [u0|x] eqn:E; [|discriminate].
  intros H. unfold len. rewrite (rounds_length caps fk Hl _ _ _ _ H).
  rewrite (rc4_length caps _ fk u0 Hl E). apply len_md5.
Qed.

(** C2, as the source computes it.  At R = 3 and R = 4 the user check
    takes h = MD5(padding string ++ id0), u = RC4(h) under the file key,
    then for i = 1..19 u = RC4(u) under the file key with every byte XORed
    with i (pdf_xorbytes takes the round and the key only), and succeeds
    exactly when the first 16 bytes of U equal u. *)
Theorem user_check_R3_R4 caps pw e s s1 d r fk id0 U :
  dict_get (Trailer e) "Encrypt" = Some (ODict d) ->
  dict_get d "R" = Some (OInt r) -> r = 3 \/ r = 4 ->
  pdf_compute_encryption_key caps pw e s = (Ok fk, s1) ->
  trailer_id0 e s1 = (Ok (OString id0), s1) ->
  dict_get d "U" = Some (OString U) -> 16 <= len U ->
  length_preserving caps ->
  pdf_check_pre_r5_user_password caps pw e s
  = (match user_value_R3 caps fk id0 with
     | Ok u => Ok (if bytes_eqb (firstn 16 U) (firstn 16 u) then Some fk else None)
     | Err x => Err x
     end, s1)
  /\
  (forall i key, 0 <= i < 256 ->
     pdf_xorbytes i key e s = (Ok (xor_key key i), s) /\
     forall j, (j < List.length key)%nat ->
       byte.unsigned (nth j (xor_key key i) x00)
       = Z.lxor (byte.unsigned (nth j key x00)) i).
Proof.
  intros HE HR Hr Hkey HID HU HlenU Hl. split.
  - unfold pdf_check_pre_r5_user_password, pdf_gen_user_password.
    assert (Hgen : (filekey <- pdf_compute_encryption_key caps pw ;;
                    enc <- Encrypt ;;
                    r0 <- oget enc "R" ;;
                    if int_eq r0 2 then
                      u <- pdf_gen_user_password_R2 caps filekey ;; ret (filekey, u)
                    else if int_eq r0 3 then
                      u <- pdf_gen_user_password_R3 caps filekey ;; ret (filekey, u)
                    else if int_eq r0 4 then
                      u <- pdf_gen_user_password_R3 caps filekey ;; ret (filekey, u)
                    else signalerror undefined) e s
                   = (match user_value_R3 caps fk id0 with
                      | Ok u => Ok (fk, u)
                      | Err x => Err x
                      end, s1)).
    { run Hkey. run (Encrypt_ok e s1 _ HE). run (oget_ok _ _ _ e s1 HR).
      pose proof (gen_user_password_R3_value caps fk e s1 id0 HID) as H3.
      destruct Hr as [-> | ->]; cbn [int_eq Z.eqb Pos.eqb];
        (destruct (user_value_R3 caps fk id0) as [u|x];
         [run H3; reflexivity | apply bind_err; exact H3]). }
    destruct (user_value_R3 caps fk id0) as [u|x] eqn:Eu.
    + run Hgen. run (Encrypt_ok e s1 _ HE). run (oget_ok _ _ _ e s1 HU).
      unfold as_string. rewrite bind_ret.
      pose proof (user_value_R3_length caps fk id0 u Hl Eu) as Lu.
      rewrite Lu.
      run (getinterval_ok U 0 16 e s1 ltac:(lia) ltac:(lia) ltac:(lia)).
      unfold substr. rewrite skipn_O.
      change (Z.to_nat 16) with 16%nat.
      rewrite (firstn_all2 (n := 16) u) by (unfold len in Lu; lia).
      destruct (bytes_eqb (firstn 16 U) u); reflexivity.
    + apply bind_err. exact Hgen.
  - intros i key Hi. split; [apply pdf_xorbytes_ok; exact Hi|].
    intros j Hj. unfold xor_key.
    rewrite (nth_indep _ x00 (byte.of_Z (Z.lxor (byte.unsigned x00) i)))
      by (rewrite length_map; exact Hj).
    rewrite (map_nth (fun b => byte.of_Z (Z.lxor (byte.unsigned b) i))).
    rewrite byte.unsigned_of_Z. unfold byte.wrap.
    apply Z.mod_small. change (2 ^ 8) with 256.
    apply lxor_byte_range; [apply byte_unsigned_range|exact Hi].
Qed.

(** ** The Perms test of revisions 5 and 6 *)

Lemma quiet_ret {A} (a : A) : quiet (ret a).
Proof. intros e s. reflexivity. Qed.

Lemma quiet_signalerror {A} x : quiet (@signalerror A x).
Proof. intros e s. reflexivity. Qed.

Lemma quiet_lift {A} (r : result A) : quiet (lift r).
Proof. intros e s. reflexivity. Qed.

Lemma quiet_bind {A B} (m : M A) (f : A -> M B) :
  quiet m -> (forall a, quiet (f a)) -> quiet (bind m f).
Proof.
  intros Hm Hf e s. unfold bind. specialize (Hm e s).
  destruct (m e s) as [[a|x] s']; cbn in Hm; subst s'; [apply Hf|reflexivity].
Qed.

Lemma quiet_getinterval x i n : quiet (getinterval x i n).
Proof. intros e s. unfold getinterval. destruct (_ && _); reflexivity. Qed.

Lemma quiet_oget d k : quiet (oget d k).
Proof.
  intros e s. unfold oget, get. destruct d; try reflexivity.
  destruct (dict_get d k); reflexivity.
Qed.

Lemma quiet_as_string o : quiet (as_string o).
Proof. intros e s. destruct o; reflexivity. Qed.

Lemma quiet_Encrypt : quiet Encrypt.
Proof.
  unfold Encrypt. apply quiet_bind; [intros e s; reflexivity|].
  intros t. apply quiet_oget.
Qed.

Lemma quiet_aesdecode caps c key padding : quiet (aesdecode caps c key padding).
Proof.
  unfold aesdecode. destruct (len c =? 0); [apply quiet_ret|].
  apply quiet_bind; [apply quiet_lift|]. intros out. apply quiet_ret.
Qed.

Create HintDb quiet.
#[local] Hint Resolve quiet_ret quiet_signalerror quiet_lift quiet_getinterval
  quiet_oget quiet_as_string quiet_Encrypt quiet_aesdecode : quiet.

Ltac quiet_steps :=
  repeat first
    [ apply quiet_bind; [solve [auto with quiet] | intros ?]
    | apply quiet_bind; [apply quiet_bind; [solve [auto with quiet] | intros ?] | intros ?]
    | match goal with |- quiet (if ?b then _ else _) => destruct b end
    | solve [auto with quiet] ].

Lemma quiet_r5_candidate caps pw : quiet (r5_candidate caps pw).
Proof. unfold r5_candidate. quiet_steps. Qed.

Lemma quiet_spec_r6_candidate caps hh pw enc : quiet (spec_r6_candidate caps hh pw enc).
Proof. unfold spec_r6_candidate. quiet_steps. Qed.

Lemma quiet_result {A} (m : M A) e s r : quiet m -> fst (m e s) = r -> m e s = (r, s).
Proof.
  intros Hq Hr. specialize (Hq e s). destruct (m e s) as [r' s']. cbn in *. congruence.
Qed.

Lemma substr_length_3 p : List.length (substr p 9 3) = 3%nat -> 12 <= len p.
Proof.
  unfold substr, len. rewrite length_firstn, length_skipn.
  change (Z.to_nat 3) with 3%nat. change (Z.to_nat 9) with 9%nat. lia.
Qed.

Lemma check_Perms_decides caps perms k out e s :
  AESDecode caps k false (zeros 16 ++ perms) = Ok out ->
  (Perms_marker perms out = chars "adb" ->
     check_Perms caps (OString perms) k e s = (Ok tt, s))
  /\
  (Perms_marker perms out <> chars "adb" ->
     fst (check_Perms caps (OString perms) k e s) = Err rangecheck).
Proof.
  intros Haes. unfold Perms_marker.
  set (p := firstn (List.length (zeros 16 ++ perms)) out).
  assert (Hdec : aesdecode caps (zeros 16 ++ perms) k false e s = (Ok p, s)).
  { unfold aesdecode.
    replace (len (zeros 16 ++ perms) =? 0) with false.
    - unfold bind, lift. rewrite Haes. reflexivity.
    - symmetry. apply Z.eqb_neq. rewrite len_app, len_zeros.
      pose proof (len_nonneg perms). lia. }
  unfold check_Perms, as_string. rewrite bind_ret.
  split.
  - intros Hm.
    assert (Hlen : 12 <= len p) by (apply substr_length_3; rewrite Hm; reflexivity).
    run Hdec. run (getinterval_ok p 9 3 e s ltac:(lia) ltac:(lia) ltac:(lia)).
    rewrite Hm. reflexivity.
  - intros Hm. run Hdec.
    destruct (Z.le_gt_cases 12 (len p)) as [Hlen|Hlen].
    + run (getinterval_ok p 9 3 e s ltac:(lia) ltac:(lia) ltac:(lia)).
      apply bytes_eqb_neq in Hm. rewrite Hm. reflexivity.
    + erewrite bind_err; [reflexivity|].
      apply getinterval_short; lia.
Qed.

(** C6, as the source decides it at revision 5 and the specification at
    revision 6.  Once a hash comparison passed and gave a candidate file
    key, Perms is decrypted by the AESDecode filter under that key, with 16
    zero bytes as initialisation vector and without padding, and the check
    fails with rangecheck (the IntegrityError of the specification) exactly
    when bytes 9 to 11 of the result are not the characters adb; otherwise
    it returns the candidate.  A corrupted Perms is refused when, and only
    when, its decryption no longer shows adb there. *)
Theorem Perms_marker_decides caps hh pw e s d perms k out :
  dict_get (Trailer e) "Encrypt" = Some (ODict d) ->
  dict_get d "Perms" = Some (OString perms) ->
  AESDecode caps k false (zeros 16 ++ perms) = Ok out ->
  (fst (r5_candidate caps pw e s) = Ok (Some k) ->
     (Perms_marker perms out = chars "adb" ->
        pdf_check_r5_password caps pw e s = (Ok (Some k), s))
     /\
     (Perms_marker perms out <> chars "adb" ->
        fst (pdf_check_r5_password caps pw e s) = Err rangecheck))
  /\
  (fst (spec_r6_candidate caps hh pw (ODict d) e s) = Ok (Some k) ->
     (Perms_marker perms out = chars "adb" ->
        spec_check_r6_password caps hh pw (ODict d) e s = (Ok (Some k), s))
     /\
     (Perms_marker perms out <> chars "adb" ->
        fst (spec_check_r6_password caps hh pw (ODict d) e s) = Err rangecheck)).
Proof.
  intros HE HP Haes.
  destruct (check_Perms_decides caps perms k out e s Haes) as [Hgood Hbad].
  assert (Hfail : Perms_marker perms out <> chars "adb" ->
                  exists s', check_Perms caps (OString perms) k e s = (Err rangecheck, s')).
  { intros Hm. specialize (Hbad Hm).
    destruct (check_Perms caps (OString perms) k e s) as [[[]|x] s'];
      cbn in Hbad; [discriminate|].
    exists s'. congruence. }
  assert (Hperms : (enc <- Encrypt ;; oget enc "Perms") e s = (Ok (OString perms), s)).
  { run (Encrypt_ok e s _ HE). apply oget_ok. exact HP. }
  assert (H5 : r5_check_Perms caps k e s = check_Perms caps (OString perms) k e s).
  { unfold r5_check_Perms. run Hperms. reflexivity. }
  split.
  - intros Hc. apply (quiet_result _ e s _ (quiet_r5_candidate caps pw)) in Hc.
    unfold pdf_check_r5_password. run Hc.
    split.
    + intros Hm. rewrite <- H5 in Hgood. run (Hgood Hm). reflexivity.
    + intros Hm. destruct (Hfail Hm) as (s' & E). rewrite <- H5 in E.
      erewrite bind_err by exact E. reflexivity.
  - intros Hc. apply (quiet_result _ e s _ (quiet_spec_r6_candidate caps hh pw _)) in Hc.
    unfold spec_check_r6_password. run Hc. run (oget_ok _ _ _ e s HP).
    split.
    + intros Hm. run (Hgood Hm). reflexivity.
    + intros Hm. destruct (Hfail Hm) as (s' & E).
      erewrite bind_err by exact E. reflexivity.
Qed.


Import Docs.

(** ** Where the source departs from the specification *)

(** C5 as stated fails for strings: with StmF Identity and StrF the
    crypt filter StdCF of method AESV2, the strings of an object are
    decrypted with AES, and the key that computeobjkey returns for them is
    the one without sAlT. *)
Lemma AESV2_strings_get_unsalted_key :
  let d := Encrypt_R4 "Identity" "StdCF" "DocOpen" in
  let e := doc_R4 "Identity" "StdCF" "DocOpen" None in
  let s := mkState (Some key_R3) [] in
  let key := Real.hex "852eda51285bd75bea907b7f5d7dd0b3" in
  let str := Real.hex "000102030405060708090a0b0c0d0e0f101112131415161718191a1b1c1d1e1f" in
  spec_resolve_cfm d "StrF" = CFM_AESV2 /\
  computeobjkey Real.caps 12 0 e s = (Ok key, s) /\
  key = spec_deriveObjectKey Real.MD5 key_R3 12 0 CFM_Identity 4 /\
  key <> spec_deriveObjectKey Real.MD5 key_R3 12 0 CFM_AESV2 4 /\
  decrypt_string Real.caps false key str e s = aesdecode Real.caps str key false e s /\
  decrypt_string Real.caps false key str e s <> arc4decode Real.caps str key e s.
Proof.
  intros d e s key str.
  split; [vm_compute; reflexivity|].
  split; [vm_compute; reflexivity|].
  split; [vm_compute; reflexivity|].
  split; [intros H; vm_compute in H; discriminate H|].
  split; [vm_compute; reflexivity|].
  intros H. vm_compute in H. discriminate H.
Qed.


(** C1 as stated fails: with V = 4, StmF and StrF Identity and AuthEvent
    DocOpen the source requires a password, and with another AuthEvent it
    requires none. *)
Lemma DocOpen_requires_password :
  spec_not_required (Encrypt_R4 "Identity" "Identity" "DocOpen") = true /\
  isRequired (doc_R4 "Identity" "Identity" "DocOpen" None) st0 = (Ok true, st0) /\
  spec_not_required (Encrypt_R4 "Identity" "Identity" "EFOpen") = false /\
  isRequired (doc_R4 "Identity" "Identity" "EFOpen" None) st0 = (Ok false, st0).
Proof. repeat split; vm_compute; reflexivity. Qed.

(** C2 as stated fails: the source accepts the empty user password for
    doc_R3, while the chain in which the data is XORed with the key and the
    round, and RC4 is keyed with the unchanged file key, does not reproduce
    the first 16 bytes of U. *)
Lemma xorBytes_of_data_rejects_valid_password :
  pdf_check_pre_r5_user_password Real.caps [] (doc_R3 U_R3 []) st0
  = (Ok (Some key_R3), st0) /\
  pdf_compute_encryption_key Real.caps [] (doc_R3 U_R3 []) st0 = (Ok key_R3, st0) /\
  exists u, spec_user_value_R3 Real.caps key_R3 id0 = Ok u /\
            bytes_eqb (firstn 16 U_R3) (firstn 16 u) = false.
Proof.
  split; [vm_compute; reflexivity|]. split; [vm_compute; reflexivity|].
  eexists. split; vm_compute; reflexivity.
Qed.

(** C3 as stated fails: at R = 3, with EncryptMetadata false, a metadata
    stream gets no stream key. *)
Lemma R3_metadata_gets_no_StreamKey :
  let e := doc_R3 U_R3 [ent "EncryptMetadata" (OBool false)] in
  let s := mkState (Some key_R3) [] in
  pdf_run_resolve Real.caps 12 0 (fun _ => ret (true, ODict metadata_stream)) e s
  = (Ok (true, ODict metadata_stream), s) /\
  dict_get metadata_stream "StreamKey" = None.
Proof. split; vm_compute; reflexivity. Qed.

(** C6 as stated fails: the user password "user" opens doc_R5 with
    either Perms, though the second differs from the first in one byte;
    both decrypt to a block with adb in bytes 9 to 11. *)
Lemma corrupted_Perms_accepted :
  pdf_check_r5_password Real.caps (chars "user") (doc_R5 Perms_R5) st0
  = (Ok (Some key_R5), st0) /\
  Perms_R5_corrupted = firstn 6 Perms_R5 ++ xcc :: skipn 7 Perms_R5 /\
  nth 6 Perms_R5 x00 = x16 /\
  pdf_check_r5_password Real.caps (chars "user") (doc_R5 Perms_R5_corrupted) st0
  = (Ok (Some key_R5), st0).
Proof. repeat split; vm_compute; reflexivity. Qed.

(** ** The theorems at work on the documents *)

Lemma rc4_prga_length s i j data :
  List.length (Real.rc4_prga s i j data) = List.length data.
Proof.
  revert s i j. induction data as [|x data IH]; intros s i j; [reflexivity|].
  cbn [Real.rc4_prga List.length]. rewrite IH. reflexivity.
Qed.

Lemma Real_RC4_length_preserving : length_preserving Real.caps.
Proof.
  intros key c out. cbn [ArcfourDecode Real.caps]. unfold Real.RC4.
  destruct (_ && _); [|discriminate].
  intros H. injection H as <-.
  rewrite length_map, rc4_prga_length, length_map. reflexivity.
Qed.

Lemma dict_get_cons k' v d k :
  dict_get ((k', v) :: d) k = if String.eqb k' k then Some v else dict_get d k.
Proof. reflexivity. Qed.

Lemma dict_get_app_other d k k' v :
  k' <> k -> dict_get (d ++ [(k', v)]) k = dict_get d k.
Proof.
  intros Hk. induction d as [|[k0 v0] d IH].
  - cbn [app]. rewrite dict_get_cons.
    destruct (String.eqb_spec k' k); [contradiction|reflexivity].
  - cbn [app]. rewrite !dict_get_cons. rewrite IH. reflexivity.
Qed.

Lemma isRequired_false_iff_witness :
  let e := doc_R4 "Identity" "Identity" "EFOpen" None in
  let d := Encrypt_R4 "Identity" "Identity" "EFOpen" in
  dict_get (Trailer e) "Encrypt" = Some (ODict d) /\
  dict_get d "V" = Some (OInt 4) /\
  fst (isRequired e st0) = Ok false.
Proof.
  intros e d. split; [reflexivity|]. split; [reflexivity|].
  apply (proj1 (isRequired_false_iff e st0 d 4 eq_refl eq_refl)).
  split; [lia|]. split; [reflexivity|]. split; [reflexivity|].
  exists [ent "StdCF" (ODict [ent "AuthEvent" (OName "EFOpen");
                              ent "CFM" (OName "AESV2"); ent "Length" (OInt 16)])],
         [ent "AuthEvent" (OName "EFOpen"); ent "CFM" (OName "AESV2");
          ent "Length" (OInt 16)],
         "EFOpen"%string.
  repeat split; discriminate.
Defined.

Lemma user_check_R3_R4_witness :
  let e := doc_R3 U_R3 [] in
  dict_get (Trailer e) "Encrypt" = Some (ODict (Encrypt_R3 U_R3 [])) /\
  dict_get (Encrypt_R3 U_R3 []) "R" = Some (OInt 3) /\
  pdf_compute_encryption_key Real.caps [] e st0 = (Ok key_R3, st0) /\
  trailer_id0 e st0 = (Ok (OString id0), st0) /\
  dict_get (Encrypt_R3 U_R3 []) "U" = Some (OString U_R3) /\
  16 <= len U_R3 /\
  pdf_check_pre_r5_user_password Real.caps [] e st0
  = (match user_value_R3 Real.caps key_R3 id0 with
     | Ok u => Ok (if bytes_eqb (firstn 16 U_R3) (firstn 16 u) then Some key_R3 else None)
     | Err x => Err x
     end, st0).
Proof.
  intros e.
  assert (Hkey : pdf_compute_encryption_key Real.caps [] e st0 = (Ok key_R3, st0))
    by (vm_compute; reflexivity).
  assert (HU : 16 <= len U_R3) by (vm_compute; discriminate).
  split; [reflexivity|]. split; [reflexivity|]. split; [exact Hkey|].
  split; [reflexivity|]. split; [reflexivity|]. split; [exact HU|].
  exact (proj1 (user_check_R3_R4 Real.caps [] e st0 st0 (Encrypt_R3 U_R3 []) 3
                  key_R3 id0 U_R3 eq_refl eq_refl (or_introl eq_refl) Hkey eq_refl
                  eq_refl HU Real_RC4_length_preserving)).
Defined.

Lemma resolve_attaches_StreamKey_witness :
  let e := doc_R3 U_R3 [ent "EncryptMetadata" (OBool false)] in
  let s := mkState (Some key_R3) [] in
  let run := fun _ : option bytes => ret (true, ODict page_stream) : M xobj in
  exists key,
    computeobjkey Real.caps 12 0 e s = (Ok key, s) /\
    pdf_run_resolve Real.caps 12 0 run e s = (Ok (true, put_StreamKey page_stream key), s).
Proof.
  intros e s run. eexists. split; [vm_compute; reflexivity|].
  refine (proj1 (proj2 (resolve_attaches_StreamKey Real.caps 12 0 run e s s s key_R3 _
                          page_stream (Encrypt_R3 U_R3 [ent "EncryptMetadata" (OBool false)])
                          3 eq_refl _ eq_refl eq_refl eq_refl)
                        (Some false) eq_refl) eq_refl).
  vm_compute. reflexivity.
Defined.

Lemma EncryptMetadata_from_R4_only_witness :
  let e := doc_R3 U_R3 [] in
  let e' := doc_R3 U_R3 [ent "EncryptMetadata" (OBool false)] in
  let d4 := MoreDocs.Encrypt_with "Standard" 4 4 [ent "EncryptMetadata" (OBool false)] in
  let e4 := MoreDocs.doc_of d4 None in
  (same_but_EncryptMetadata e e' /\
   pdf_compute_encryption_key Real.caps [] e' st0
   = pdf_compute_encryption_key Real.caps [] e st0) /\
  (same_but_EncryptMetadata e4 e4 /\
   pdf_compute_encryption_key Real.caps [] e4 st0
   = hash_rounds Real.caps 4
       (pdf_pad_key [] ++ O_R3 ++ P_bytes (-3904) ++ id0 ++ [xff; xff; xff; xff]) e4 st0 /\
   pdf_compute_encryption_key Real.caps [] e4 st0
   = (Ok (Real.hex "60ad2e3640f5ca813585c087dc04b670"), st0) /\
   pdf_compute_encryption_key Real.caps [] (MoreDocs.doc_of (MoreDocs.Encrypt_with "Standard" 4 4 []) None) st0
   = (Ok key_R3, st0)).
Proof.
  intros e e' d4 e4. split.
  - assert (Hsame : same_but_EncryptMetadata e e').
    { split; [reflexivity|]. split.
      - intros k Hk. unfold e, e', doc_R3, ent. cbn [Trailer].
        rewrite !dict_get_cons.
        destruct (String.eqb_spec "Encrypt" k); [congruence|reflexivity].
      - exists (Encrypt_R3 U_R3 []), (Encrypt_R3 U_R3 [ent "EncryptMetadata" (OBool false)]).
        split; [reflexivity|]. split; [reflexivity|].
        intros k Hk. unfold Encrypt_R3. rewrite app_nil_r.
        apply dict_get_app_other. congruence. }
    split; [exact Hsame|].
    exact (proj2 (EncryptMetadata_from_R4_only Real.caps [] e e' st0 st0
                    (Encrypt_R3 U_R3 []) O_R3 (-3904) 3 id0 None
                    eq_refl eq_refl eq_refl eq_refl eq_refl eq_refl Hsame) eq_refl).
  - assert (Hsame : same_but_EncryptMetadata e4 e4).
    { split; [reflexivity|]. split; [reflexivity|].
      exists d4, d4. split; [reflexivity|]. split; [reflexivity|]. reflexivity. }
    pose proof (proj1 (EncryptMetadata_from_R4_only Real.caps [] e4 e4 st0 st0
                         d4 O_R3 (-3904) 4 id0 (Some false)
                         eq_refl eq_refl eq_refl eq_refl eq_refl eq_refl Hsame)) as H4.
    split; [exact Hsame|]. split; [exact H4|].
    split; [rewrite H4|]; vm_compute; reflexivity.
Defined.

Lemma computeobjkey_spec_witness :
  let d := Encrypt_R4 "StdCF" "StdCF" "DocOpen" in
  let e := doc_R4 "StdCF" "StdCF" "DocOpen" None in
  let s := mkState (Some key_R3) [] in
  StmF_resolves d = true /\
  spec_resolve_cfm d "StmF" = CFM_AESV2 /\
  spec_deriveObjectKey (MD5Encode Real.caps) key_R3 12 0 CFM_AESV2 4
  = Real.hex "811eb0ad5a82ee2afba4e9810b2e3fba" /\
  computeobjkey Real.caps 12 0 e s
  = (Ok (spec_deriveObjectKey (MD5Encode Real.caps) key_R3 12 0
           (spec_resolve_cfm d "StmF") 4), s).
Proof.
  intros d e s. split; [reflexivity|]. split; [reflexivity|].
  split; [vm_compute; reflexivity|].
  apply (computeobjkey_spec Real.caps e s d key_R3 12 0 4 eq_refl eq_refl eq_refl).
  - intros _. reflexivity.
  - intros _. vm_compute. reflexivity.
Defined.

Lemma Perms_marker_decides_witness :
  let e := doc_R5 Perms_R5 in
  fst (r5_candidate Real.caps (chars "user") e st0) = Ok (Some key_R5) /\
  pdf_check_r5_password Real.caps (chars "user") e st0 = (Ok (Some key_R5), st0).
Proof.
  intros e.
  assert (Hc : fst (r5_candidate Real.caps (chars "user") e st0) = Ok (Some key_R5))
    by (vm_compute; reflexivity).
  split; [exact Hc|].
  refine (proj1 (proj1 (Perms_marker_decides Real.caps (fun _ _ _ => [])
                          (chars "user") e st0 (Encrypt_R5 Perms_R5) Perms_R5 key_R5
                          _ eq_refl eq_refl _) Hc) _).
  - vm_compute. reflexivity.
  - vm_compute. reflexivity.
Defined.

Lemma supplied_password_is_verified_witness :
  let e := doc_R4 "Identity" "Identity" "EFOpen" (Some (chars "user")) in
  isRequired e st0 = (Ok false, st0) /\
  PDFPassword e = Some (chars "user") /\
  pdf_process_Encrypt Real.caps e st0 = verify_passwords Real.caps e st0.
Proof.
  intros e. split; [reflexivity|]. split; [reflexivity|].
  exact (proj1 (supplied_password_is_verified Real.caps e st0
                  (Encrypt_R4 "Identity" "Identity" "EFOpen") (OName "Standard")
                  false (chars "user") eq_refl eq_refl eq_refl eq_refl eq_refl)).
Defined.

Lemma absent_ID_still_gives_key_witness :
  dict_get (Trailer doc_R3_no_ID) "ID" = None /\
  exists key,
    pdf_compute_encryption_key Real.caps [] doc_R3_no_ID st0
    = (Ok key, mkState None [FormatError ID_error_1; FormatError ID_error_2]) /\
    len key = 16.
Proof.
  split; [reflexivity|].
  destruct (absent_ID_still_gives_key Real.caps [] doc_R3_no_ID st0
              (Encrypt_R3 U_R3 []) O_R3 (-3904) 3 16 None
              eq_refl eq_refl eq_refl eq_refl eq_refl
              (fun st => eq_refl) ltac:(lia) eq_refl) as (key & Hkey & _ & Hlen).
  exists key. split; [exact Hkey|exact Hlen].
Defined.

Lemma empty_password_first_witness :
  let e := doc_R3 U_R3 [] in
  isRequired e st0 = (Ok true, st0) /\
  pdf_check_password Real.caps [] e st0 = (Ok (Some key_R3), st0) /\
  pdf_process_Encrypt Real.caps e st0 = (Ok tt, mkState (Some key_R3) []).
Proof.
  intros e.
  assert (Hk : pdf_check_password Real.caps [] e st0 = (Ok (Some key_R3), st0))
    by (vm_compute; reflexivity).
  split; [reflexivity|]. split; [exact Hk|].
  exact (proj1 (empty_password_first Real.caps e st0 (Encrypt_R3 U_R3 [])
                  (OName "Standard") true eq_refl eq_refl eq_refl eq_refl eq_refl)
               key_R3 st0 Hk).
Defined.

Lemma r5_uses_127_bytes_witness :
  let p1 := repeat x61 127 ++ chars "one" in
  let p2 := repeat x61 127 ++ chars "another" in
  firstn 127 p1 = firstn 127 p2 /\
  pdf_check_r5_password Real.caps p1 (doc_R5 Perms_R5) st0
  = pdf_check_r5_password Real.caps p2 (doc_R5 Perms_R5) st0.
Proof.
  intros p1 p2. split; [reflexivity|].
  exact (r5_uses_127_bytes Real.caps p1 p2 (doc_R5 Perms_R5) st0 eq_refl).
Defined.

(** * Further properties of the procedures *)

(** ** Passwords of revisions 2 to 4 *)

(** X1. pdf_pad_key returns the first 32 bytes of the key followed by the
    padding string: always 32 bytes, the key cut at 32. *)
Theorem pdf_pad_key_first_32 key :
  pdf_pad_key key = firstn 32 (key ++ pdf_padding_string) /\
  len (pdf_pad_key key) = 32.
Proof.
  assert (H : pdf_pad_key key = firstn 32 (key ++ pdf_padding_string)).
  { unfold pdf_pad_key. destruct (Z.ltb_spec 32 (len key)) as [Hl|Hl].
    - unfold substr. change (Z.to_nat 0) with 0%nat. rewrite skipn_O.
      change (Z.to_nat 32) with 32%nat.
      assert (L : len (firstn 32 key) = 32) by (rewrite len_firstn; lia).
      rewrite L. change (Z.to_nat (32 - 32)) with 0%nat. rewrite firstn_O, app_nil_r.
      rewrite firstn_app.
      replace (32 - List.length key)%nat with 0%nat by (unfold len in Hl; lia).
      rewrite firstn_O, app_nil_r. reflexivity.
    - unfold substr. change (Z.to_nat 0) with 0%nat. rewrite skipn_O.
      rewrite firstn_app. rewrite (firstn_all2 (n := 32) key) by (unfold len in Hl; lia).
      f_equal. f_equal. unfold len. lia. }
  split; [exact H|]. rewrite H, len_firstn, len_app.
  change (len pdf_padding_string) with 32. pose proof (len_nonneg key). lia.
Qed.

Lemma compute_key_pad caps p1 p2 :
  pdf_pad_key p1 = pdf_pad_key p2 ->
  pdf_compute_encryption_key caps p1 = pdf_compute_encryption_key caps p2.
Proof. intros H. unfold pdf_compute_encryption_key. rewrite H. reflexivity. Qed.

Lemma user_check_pad caps p1 p2 :
  pdf_pad_key p1 = pdf_pad_key p2 ->
  pdf_check_pre_r5_user_password caps p1 = pdf_check_pre_r5_user_password caps p2.
Proof.
  intros H. unfold pdf_check_pre_r5_user_password, pdf_gen_user_password.
  rewrite (compute_key_pad caps p1 p2 H). reflexivity.
Qed.

Lemma owner_check_pad caps p1 p2 :
  pdf_pad_key p1 = pdf_pad_key p2 ->
  pdf_check_pre_r5_owner_password caps p1 = pdf_check_pre_r5_owner_password caps p2.
Proof.
  intros H. unfold pdf_check_pre_r5_owner_password, pdf_owner_key.
  rewrite H. reflexivity.
Qed.

(** X2. At revisions 2 to 4 pdf_check_password sees a password only through
    pdf_pad_key: two passwords with the same padded key, for instance two
    that agree on their first 32 bytes, get the same answer, the same file
    key and the same diagnostics. *)
Theorem padded_password_decides caps p1 p2 e s d r :
  dict_get (Trailer e) "Encrypt" = Some (ODict d) ->
  dict_get d "R" = Some (OInt r) -> 2 <= r <= 4 ->
  pdf_pad_key p1 = pdf_pad_key p2 ->
  pdf_check_password caps p1 e s = pdf_check_password caps p2 e s.
Proof.
  intros HE HR Hr Hp.
  rewrite !(check_password_R2_to_R4 caps _ e s d r HE HR Hr).
  rewrite (user_check_pad caps p1 p2 Hp), (owner_check_pad caps p1 p2 Hp).
  reflexivity.
Qed.

Lemma padded_password_decides_witness :
  let p1 := repeat x61 32 ++ chars "tail" in
  let p2 := repeat x61 32 in
  pdf_pad_key p1 = pdf_pad_key p2 /\
  pdf_check_password Real.caps p1 (Docs.doc_R3 Docs.U_R3 []) Docs.st0
  = pdf_check_password Real.caps p2 (Docs.doc_R3 Docs.U_R3 []) Docs.st0.
Proof.
  intros p1 p2. split; [reflexivity|].
  apply (padded_password_decides Real.caps p1 p2 (Docs.doc_R3 Docs.U_R3 []) Docs.st0
           (Docs.Encrypt_R3 Docs.U_R3 []) 3 eq_refl eq_refl); [lia|reflexivity].
Defined.

Lemma xor_key_involutive key i : 0 <= i < 256 -> xor_key (xor_key key i) i = key.
Proof.
  intros Hi. unfold xor_key. rewrite map_map. rewrite <- (map_id key) at 2.
  apply map_ext. intros b.
  rewrite byte.unsigned_of_Z. unfold byte.wrap.
  rewrite Z.mod_small
    by (change (2 ^ 8) with 256; apply lxor_byte_range;
        [apply byte_unsigned_range|exact Hi]).
  rewrite Z.lxor_assoc, Z.lxor_nilpotent, Z.lxor_0_r.
  apply byte.of_Z_unsigned.
Qed.

(** X3. pdf_xorbytes undoes itself: for a round number that is a byte, the
    result has the length of the key and running the procedure on it with
    the same round gives the key back. *)
Theorem pdf_xorbytes_round_trip iter key e s :
  0 <= iter < 256 ->
  exists k, pdf_xorbytes iter key e s = (Ok k, s) /\
            len k = len key /\
            pdf_xorbytes iter k e s = (Ok key, s).
Proof.
  intros Hi. exists (xor_key key iter).
  split; [apply pdf_xorbytes_ok; exact Hi|]. split.
  - unfold len. rewrite xor_key_length. reflexivity.
  - rewrite pdf_xorbytes_ok by exact Hi. rewrite xor_key_involutive by exact Hi.
    reflexivity.
Qed.

Lemma pdf_xorbytes_round_trip_witness :
  0 <= 19 < 256 /\
  exists k, pdf_xorbytes 19 Docs.key_R3 (Docs.doc_R3 Docs.U_R3 []) Docs.st0
            = (Ok k, Docs.st0) /\
            len k = len Docs.key_R3 /\
            pdf_xorbytes 19 k (Docs.doc_R3 Docs.U_R3 []) Docs.st0
            = (Ok Docs.key_R3, Docs.st0).
Proof.
  split; [lia|].
  apply (pdf_xorbytes_round_trip 19 Docs.key_R3 (Docs.doc_R3 Docs.U_R3 []) Docs.st0).
  lia.
Defined.

Lemma lxor_not_byte b iter :
  0 <= b < 256 -> iter < 0 \/ 255 < iter -> ~ (0 <= Z.lxor b iter <= 255).
Proof.
  intros Hb [Hi|Hi] [H0 H1].
  - apply Z.lxor_nonneg in H0. lia.
  - assert (Hx : 0 <= Z.lxor (Z.lxor b iter) b < 256)
      by (apply lxor_byte_range; lia).
    rewrite (Z.lxor_comm b iter), Z.lxor_assoc, Z.lxor_nilpotent, Z.lxor_0_r in Hx.
    lia.
Qed.

(** X4. pdf_xorbytes fails, with rangecheck, exactly when the key is not
    empty and the round number is not a byte; the empty key goes through
    with any number. *)
Theorem pdf_xorbytes_rangecheck iter key e s :
  fst (pdf_xorbytes iter key e s) = Err rangecheck
  <-> key <> [] /\ (iter < 0 \/ 255 < iter).
Proof.
  split.
  - intros H. destruct key as [|b key].
    + discriminate.
    + split; [discriminate|].
      destruct (Z_lt_ge_dec iter 0) as [?|H0]; [left; assumption|].
      destruct (Z_lt_ge_dec 255 iter) as [?|H1]; [right; assumption|].
      rewrite (pdf_xorbytes_ok iter (b :: key) e s) in H by lia. discriminate.
  - intros [Hk Hi]. destruct key as [|b key]; [contradiction|].
    unfold pdf_xorbytes, ps_for.
    replace (Z.to_nat (len (b :: key) - 1 - 0 + 1)) with (S (List.length key))
      by (unfold len; cbn [List.length]; lia).
    cbn [for_from].
    assert (Hget : sget (b :: key) 0 e s = (Ok (byte.unsigned b), s)).
    { unfold sget.
      replace ((0 <=? 0) && (0 <? len (b :: key))) with true; [reflexivity|].
      symmetry. apply andb_true_iff. split; [reflexivity|].
      apply Z.ltb_lt. unfold len. cbn [List.length]. lia. }
    assert (Hbody : (x <- sget (b :: key) 0 ;;
                     put (zeros (List.length (b :: key))) 0 (Z.lxor x iter)) e s
                    = (Err rangecheck, s)).
    { run Hget. unfold put.
      destruct ((0 <=? 0) && (0 <? len (zeros (List.length (b :: key)))));
        [|reflexivity].
      pose proof (lxor_not_byte (byte.unsigned b) iter (byte_unsigned_range b) Hi) as Hn.
      destruct ((0 <=? Z.lxor (byte.unsigned b) iter)
                && (Z.lxor (byte.unsigned b) iter <=? 255)) eqn:E; [|reflexivity].
      apply andb_true_iff in E. destruct E as [E1 E2].
      apply Z.leb_le in E1, E2. exfalso. apply Hn. lia. }
    erewrite bind_err by exact Hbody. reflexivity.
Qed.

(** ** The length of the file key *)

Lemma md5_trunk_rangecheck caps e s x n :
  pdf_key_length e s = (Ok n, s) -> n < 0 \/ 16 < n ->
  md5_trunk caps x e s = (Err rangecheck, s).
Proof.
  intros Hn Hr. unfold md5_trunk. run Hn. unfold getinterval.
  pose proof (len_md5 caps x) as L.
  destruct ((0 <=? 0) && (0 <=? n) && (0 + n <=? len (md5 caps x))) eqn:E;
    [|reflexivity].
  apply andb_true_iff in E. destruct E as [E E3].
  apply andb_true_iff in E. destruct E as [_ E2].
  apply Z.leb_le in E2, E3. lia.
Qed.

Lemma hash_rounds_rangecheck caps e s r x n :
  pdf_key_length e s = (Ok n, s) -> n < 0 \/ 16 < n ->
  hash_rounds caps r x e s = (Err rangecheck, s).
Proof.
  intros Hn Hr. unfold hash_rounds.
  pose proof (md5_trunk_rangecheck caps e s x n Hn Hr) as H.
  destruct (3 <=? r); [apply bind_err|]; exact H.
Qed.

(** X5. pdf_compute_encryption_key returns a key of exactly pdf_key_length
    bytes when that length lies between 0 and 16, and fails with rangecheck
    when it does not, as for /Length 256 in a dictionary of revision 2 to
    4: an MD5 digest has no more than 16 bytes to give. *)
Theorem file_key_length caps pw e s s1 d o p r id0 n (em : option bool) :
  dict_get (Trailer e) "Encrypt" = Some (ODict d) ->
  dict_get d "O" = Some (OString o) ->
  dict_get d "P" = Some (OInt p) ->
  dict_get d "R" = Some (OInt r) ->
  dict_get d "EncryptMetadata" = option_map OBool em ->
  trailer_id0 e s = (Ok (OString id0), s1) ->
  pdf_key_length e s1 = (Ok n, s1) ->
  (0 <= n <= 16 ->
     exists key, pdf_compute_encryption_key caps pw e s = (Ok key, s1) /\ len key = n)
  /\
  (n < 0 \/ 16 < n ->
     pdf_compute_encryption_key caps pw e s = (Err rangecheck, s1)).
Proof.
  intros HE HO HP HR HEM HID Hn.
  rewrite (compute_key_buffer caps pw e s s1 d o p r id0 em HE HO HP HR HEM HID).
  split; intros Hr.
  - apply hash_rounds_ok; assumption.
  - apply (hash_rounds_rangecheck caps e s1 r _ n Hn Hr).
Qed.

Lemma file_key_length_witness :
  let d := Docs.Encrypt_R3 Docs.U_R3 [] in
  let e := Docs.doc_R3 Docs.U_R3 [] in
  pdf_key_length e Docs.st0 = (Ok 16, Docs.st0) /\
  exists key, pdf_compute_encryption_key Real.caps [] e Docs.st0 = (Ok key, Docs.st0)
              /\ len key = 16.
Proof.
  intros d e. split; [reflexivity|].
  apply (proj1 (file_key_length Real.caps [] e Docs.st0 Docs.st0 d Docs.O_R3 (-3904) 3
                  Docs.id0 16 None eq_refl eq_refl eq_refl eq_refl eq_refl eq_refl
                  eq_refl)).
  lia.
Defined.

(** ** Malformed dictionaries at revisions 2 to 4 *)

Lemma oget_missing l k e s :
  dict_get l k = None -> oget (ODict l) k e s = (Err undefined, s).
Proof. intros H. unfold oget, get. rewrite H. reflexivity. Qed.

Lemma compute_key_missing caps pw e s d :
  dict_get (Trailer e) "Encrypt" = Some (ODict d) ->
  dict_get d "O" = None \/ dict_get d "P" = None ->
  pdf_compute_encryption_key caps pw e s = (Err undefined, s).
Proof.
  intros HE H. unfold pdf_compute_encryption_key. run (Encrypt_ok e s _ HE).
  destruct (dict_get d "O") as [o|] eqn:HO.
  - destruct H as [H|H]; [discriminate|].
    run (oget_ok _ _ _ e s HO). apply bind_err. apply oget_missing. exact H.
  - apply bind_err. apply oget_missing. exact HO.
Qed.

(** X6. A dictionary of revision 2 to 4 without /O or without /P makes
    pdf_check_password fail with undefined, before anything is written and
    whatever the password: the answer is an error, not "wrong password". *)
Theorem missing_O_or_P_is_an_error caps pw e s d r :
  dict_get (Trailer e) "Encrypt" = Some (ODict d) ->
  dict_get d "R" = Some (OInt r) -> 2 <= r <= 4 ->
  dict_get d "O" = None \/ dict_get d "P" = None ->
  pdf_check_password caps pw e s = (Err undefined, s).
Proof.
  intros HE HR Hr H.
  rewrite (check_password_R2_to_R4 caps pw e s d r HE HR Hr).
  apply bind_err. unfold pdf_check_pre_r5_user_password. apply bind_err.
  unfold pdf_gen_user_password. apply bind_err.
  apply (compute_key_missing caps pw e s d HE H).
Qed.

Lemma missing_O_or_P_is_an_error_witness :
  let d := [Docs.ent "Filter" (OName "Standard"); Docs.ent "V" (OInt 1);
            Docs.ent "R" (OInt 2); Docs.ent "U" (OString Docs.U_R3);
            Docs.ent "P" (OInt (-64))] in
  let e := mkEnv [Docs.ent "Encrypt" (ODict d)] None in
  dict_get d "O" = None /\
  pdf_check_password Real.caps [] e Docs.st0 = (Err undefined, Docs.st0).
Proof.
  intros d e. split; [reflexivity|].
  apply (missing_O_or_P_is_an_error Real.caps [] e Docs.st0 d 2 eq_refl eq_refl);
    [lia|left; reflexivity].
Defined.

(** ** The user check against /U *)

Lemma gen_user_password_R2_value caps pw e s s1 d fk :
  dict_get (Trailer e) "Encrypt" = Some (ODict d) ->
  dict_get d "R" = Some (OInt 2) ->
  pdf_compute_encryption_key caps pw e s = (Ok fk, s1) ->
  pdf_gen_user_password caps pw e s
  = (match rc4 caps pdf_padding_string fk with
     | Ok u => Ok (fk, u)
     | Err x => Err x
     end, s1).
Proof.
  intros HE HR Hkey. unfold pdf_gen_user_password.
  run Hkey. run (Encrypt_ok e s1 _ HE). run (oget_ok _ _ _ e s1 HR).
  cbn [int_eq Z.eqb Pos.eqb]. unfold pdf_gen_user_password_R2.
  pose proof (arc4decode_rc4 caps pdf_padding_string fk e s1) as H.
  destruct (rc4 caps pdf_padding_string fk) as [u|x].
  - run H. reflexivity.
  - apply bind_err. exact H.
Qed.

Lemma user_check_against_U caps pw e s s1 d fk u U :
  dict_get (Trailer e) "Encrypt" = Some (ODict d) ->
  pdf_gen_user_password caps pw e s = (Ok (fk, u), s1) ->
  dict_get d "U" = Some (OString U) ->
  pdf_check_pre_r5_user_password caps pw e s
  = (if len u <=? len U
     then Ok (if bytes_eqb (substr U 0 (len u)) u then Some fk else None)
     else Err rangecheck, s1).
Proof.
  intros HE Hgen HU. unfold pdf_check_pre_r5_user_password.
  run Hgen. run (Encrypt_ok e s1 _ HE). run (oget_ok _ _ _ e s1 HU).
  unfold as_string. rewrite bind_ret.
  pose proof (len_nonneg u) as Lu.
  destruct (Z.leb_spec (len u) (len U)) as [Hl|Hl].
  - run (getinterval_ok U 0 (len u) e s1 ltac:(lia) ltac:(lia) ltac:(lia)).
    destruct (bytes_eqb _ u); reflexivity.
  - apply bind_err. apply getinterval_short; lia.
Qed.

(** X7. At revision 2 the user check compares all 32 bytes: it accepts
    exactly when the first 32 bytes of /U are the padding string under RC4
    with the file key. *)
Theorem user_check_R2 caps pw e s s1 d fk u U :
  dict_get (Trailer e) "Encrypt" = Some (ODict d) ->
  dict_get d "R" = Some (OInt 2) ->
  pdf_compute_encryption_key caps pw e s = (Ok fk, s1) ->
  rc4 caps pdf_padding_string fk = Ok u ->
  length_preserving caps ->
  dict_get d "U" = Some (OString U) -> 32 <= len U ->
  pdf_check_pre_r5_user_password caps pw e s
  = (Ok (if bytes_eqb (firstn 32 U) u then Some fk else None), s1).
Proof.
  intros HE HR Hkey Hu Hl HU HlenU.
  pose proof (gen_user_password_R2_value caps pw e s s1 d fk HE HR Hkey) as Hgen.
  rewrite Hu in Hgen.
  rewrite (user_check_against_U caps pw e s s1 d fk u U HE Hgen HU).
  assert (Lu : len u = 32).
  { unfold len. rewrite (rc4_length caps _ _ _ Hl Hu). reflexivity. }
  rewrite Lu. replace (32 <=? len U) with true by (symmetry; apply Z.leb_le; lia).
  unfold substr. rewrite skipn_O. reflexivity.
Qed.

(** X8. A /U shorter than the value the check computes (32 bytes at revision
    2, 16 at revisions 3 and 4) makes the user check fail with rangecheck;
    it does not answer false, so the owner check is never reached. *)
Theorem short_U_is_rangecheck caps pw e s s1 d r fk u U :
  dict_get (Trailer e) "Encrypt" = Some (ODict d) ->
  dict_get d "R" = Some (OInt r) -> 2 <= r <= 4 ->
  pdf_gen_user_password caps pw e s = (Ok (fk, u), s1) ->
  dict_get d "U" = Some (OString U) -> len U < len u ->
  pdf_check_pre_r5_user_password caps pw e s = (Err rangecheck, s1) /\
  pdf_check_password caps pw e s = (Err rangecheck, s1).
Proof.
  intros HE HR Hr Hgen HU Hshort.
  assert (H : pdf_check_pre_r5_user_password caps pw e s = (Err rangecheck, s1)).
  { rewrite (user_check_against_U caps pw e s s1 d fk u U HE Hgen HU).
    replace (len u <=? len U) with false by (symmetry; apply Z.leb_gt; lia).
    reflexivity. }
  split; [exact H|].
  rewrite (check_password_R2_to_R4 caps pw e s d r HE HR Hr).
  apply bind_err. exact H.
Qed.

Lemma user_check_R2_witness :
  let e := MoreDocs.doc_R2 MoreDocs.U_R2 None in
  pdf_compute_encryption_key Real.caps [] e Docs.st0 = (Ok MoreDocs.key_R2, Docs.st0) /\
  rc4 Real.caps pdf_padding_string MoreDocs.key_R2 = Ok MoreDocs.U_R2 /\
  32 <= len MoreDocs.U_R2 /\
  pdf_check_pre_r5_user_password Real.caps [] e Docs.st0
  = (Ok (if bytes_eqb (firstn 32 MoreDocs.U_R2) MoreDocs.U_R2
         then Some MoreDocs.key_R2 else None), Docs.st0).
Proof.
  intros e.
  assert (Hkey : pdf_compute_encryption_key Real.caps [] e Docs.st0
                 = (Ok MoreDocs.key_R2, Docs.st0)) by (vm_compute; reflexivity).
  assert (Hu : rc4 Real.caps pdf_padding_string MoreDocs.key_R2 = Ok MoreDocs.U_R2)
    by (vm_compute; reflexivity).
  assert (HU : 32 <= len MoreDocs.U_R2) by (vm_compute; discriminate).
  split; [exact Hkey|]. split; [exact Hu|]. split; [exact HU|].
  exact (user_check_R2 Real.caps [] e Docs.st0 Docs.st0 (MoreDocs.Encrypt_R2 MoreDocs.U_R2)
           MoreDocs.key_R2 MoreDocs.U_R2 MoreDocs.U_R2 eq_refl eq_refl Hkey Hu
           Real_RC4_length_preserving eq_refl HU).
Defined.

Lemma short_U_is_rangecheck_witness :
  let U := firstn 8 MoreDocs.U_R2 in
  let e := MoreDocs.doc_R2 U None in
  pdf_gen_user_password Real.caps [] e Docs.st0
  = (Ok (MoreDocs.key_R2, MoreDocs.U_R2), Docs.st0) /\
  len U < len MoreDocs.U_R2 /\
  pdf_check_password Real.caps [] e Docs.st0 = (Err rangecheck, Docs.st0).
Proof.
  intros U e.
  assert (Hgen : pdf_gen_user_password Real.caps [] e Docs.st0
                 = (Ok (MoreDocs.key_R2, MoreDocs.U_R2), Docs.st0))
    by (vm_compute; reflexivity).
  assert (Hs : len U < len MoreDocs.U_R2) by (vm_compute; reflexivity).
  split; [exact Hgen|]. split; [exact Hs|].
  exact (proj2 (short_U_is_rangecheck Real.caps [] e Docs.st0 Docs.st0
                  (MoreDocs.Encrypt_R2 U) 2 MoreDocs.key_R2 MoreDocs.U_R2 U
                  eq_refl eq_refl ltac:(lia) Hgen eq_refl Hs)).
Defined.

(** ** The owner password: wrapping and unwrapping /O *)

Lemma byte_xor_cancel a b : byte_xor (byte_xor a b) b = a.
Proof.
  unfold byte_xor. rewrite byte.unsigned_of_Z. unfold byte.wrap.
  rewrite Z.mod_small
    by (change (2 ^ 8) with 256; apply lxor_byte_range; apply byte_unsigned_range).
  rewrite Z.lxor_assoc, Z.lxor_nilpotent, Z.lxor_0_r. apply byte.of_Z_unsigned.
Qed.

Lemma byte_xor_swap a b c : byte_xor (byte_xor a b) c = byte_xor (byte_xor a c) b.
Proof.
  unfold byte_xor. rewrite !byte.unsigned_of_Z. unfold byte.wrap.
  rewrite !Z.mod_small
    by (change (2 ^ 8) with 256; apply lxor_byte_range; apply byte_unsigned_range).
  f_equal. rewrite !Z.lxor_assoc. f_equal. apply Z.lxor_comm.
Qed.

Lemma xor_stream_length d k :
  List.length k = List.length d -> List.length (xor_stream d k) = List.length d.
Proof.
  revert k. induction d as [|a d IH]; intros [|b k] H; cbn in *; try lia.
  rewrite IH; lia.
Qed.

Lemma xor_stream_cancel d k :
  List.length k = List.length d -> xor_stream (xor_stream d k) k = d.
Proof.
  revert k. induction d as [|a d IH]; intros [|b k] H; cbn in *; try lia; [reflexivity|].
  rewrite byte_xor_cancel, IH by lia. reflexivity.
Qed.

Lemma xor_stream_swap d k1 k2 :
  List.length k1 = List.length d -> List.length k2 = List.length d ->
  xor_stream (xor_stream d k1) k2 = xor_stream (xor_stream d k2) k1.
Proof.
  revert k1 k2. induction d as [|a d IH]; intros [|b1 k1] [|b2 k2] H1 H2;
    cbn in *; try lia; [reflexivity|].
  rewrite byte_xor_swap, IH by lia. reflexivity.
Qed.

Section Stream.

Variable caps : capabilities.
Variable ks : bytes -> nat -> bytes.
Hypothesis ks_length : forall key n, List.length (ks key n) = n.
Hypothesis ks_rc4 : forall key data, 1 <= len key <= 16 ->
  ArcfourDecode caps key data = Ok (xor_stream data (ks key (List.length data))).

Lemma pass_length key d : List.length (pass ks key d) = List.length d.
Proof. unfold pass. apply xor_stream_length. apply ks_length. Qed.

Lemma rc4_pass key d : 1 <= len key <= 16 -> rc4 caps d key = Ok (pass ks key d).
Proof.
  intros Hk. unfold rc4. destruct (Z.eqb_spec (len d) 0) as [H0|H0].
  - destruct d; [reflexivity|]. unfold len in H0. cbn in H0. lia.
  - rewrite (ks_rc4 key d Hk). unfold pass.
    rewrite firstn_all2; [reflexivity|].
    rewrite xor_stream_length by apply ks_length. lia.
Qed.

Lemma pass_cancel key d : pass ks key (pass ks key d) = d.
Proof.
  unfold pass at 1. rewrite pass_length. unfold pass.
  apply xor_stream_cancel. apply ks_length.
Qed.

Lemma pass_swap k1 k2 d : pass ks k1 (pass ks k2 d) = pass ks k2 (pass ks k1 d).
Proof.
  unfold pass at 1 3. rewrite !pass_length. unfold pass.
  apply xor_stream_swap; apply ks_length.
Qed.

Lemma rounds_passes key :
  1 <= len key <= 16 ->
  forall n i d, rounds caps key i n d = Ok (passes ks key i n d).
Proof.
  intros Hk. induction n as [|n IH]; intros i d; [reflexivity|].
  cbn [rounds passes]. rewrite rc4_pass.
  - apply IH.
  - unfold len. rewrite xor_key_length. exact Hk.
Qed.

Lemma passes_pass key k n : forall i d,
  passes ks key i n (pass ks k d) = pass ks k (passes ks key i n d).
Proof.
  induction n as [|n IH]; intros i d; [reflexivity|].
  cbn [passes]. rewrite pass_swap. apply IH.
Qed.

Lemma passes_cancel key n : forall i d, passes ks key i n (passes ks key i n d) = d.
Proof.
  induction n as [|n IH]; intros i d; [reflexivity|].
  cbn [passes]. rewrite <- passes_pass, pass_cancel. apply IH.
Qed.

Lemma owner_unwrap_twice r okey m o :
  1 <= len okey <= 16 ->
  owner_unwrap caps r okey m = Ok o -> owner_unwrap caps r okey o = Ok m.
Proof.
  intros Hk. unfold owner_unwrap. rewrite !rc4_pass by exact Hk. cbv beta iota.
  destruct (3 <=? r).
  - rewrite !rounds_passes by exact Hk.
    set (x := passes ks okey 1 19 (pass ks okey m)). intros H. injection H as <-.
    unfold x. rewrite <- passes_pass, passes_cancel, pass_cancel. reflexivity.
  - intros H. injection H as <-. rewrite pass_cancel. reflexivity.
Qed.

End Stream.

Lemma owner_check_unwraps caps pw e s s1 d r okey O :
  dict_get (Trailer e) "Encrypt" = Some (ODict d) ->
  dict_get d "R" = Some (OInt r) ->
  dict_get d "O" = Some (OString O) ->
  pdf_owner_key caps pw e s = (Ok okey, s1) ->
  1 <= len okey <= 16 ->
  pdf_check_pre_r5_owner_password caps pw e s
  = match owner_unwrap caps r okey O with
    | Ok m => pdf_check_pre_r5_user_password caps m e s1
    | Err x => (Err x, s1)
    end.
Proof.
  intros HE HR HO Hok Hk. unfold pdf_check_pre_r5_owner_password, owner_unwrap.
  run Hok. run (Encrypt_ok e s1 _ HE). run (oget_ok _ _ _ e s1 HO).
  unfold as_string at 1. rewrite bind_ret.
  pose proof (arc4decode_rc4 caps O okey e s1) as H0.
  destruct (rc4 caps O okey) as [d0|x]; [|apply bind_err; exact H0].
  run H0. run (oget_ok _ _ _ e s1 HR). unfold as_int. rewrite bind_ret.
  destruct (3 <=? r).
  - assert (Hr : ps_for 1 19
                   (fun i d1 => k <- pdf_xorbytes i okey ;; arc4decode caps d1 k) d0 e s1
                 = (rounds caps okey 1 19 d0, s1)).
    { unfold ps_for. apply rounds_loop; cbn; lia. }
    destruct (rounds caps okey 1 19 d0) as [m|x]; [|apply bind_err; exact Hr].
    run Hr. reflexivity.
  - rewrite bind_ret. reflexivity.
Qed.

(** X9. The owner check undoes the wrapping of /O.  When /O is what the 20
    RC4 passes of the check itself (1 pass at revision 2) make of a string
    m under the owner key, the check unwraps /O to m again and answers what
    the user check answers for m.  RC4 is taken as what it is, an XOR with a
    key stream. *)
Theorem owner_check_round_trip caps pw e s s1 d r okey m O :
  stream_cipher caps ->
  dict_get (Trailer e) "Encrypt" = Some (ODict d) ->
  dict_get d "R" = Some (OInt r) ->
  dict_get d "O" = Some (OString O) ->
  pdf_owner_key caps pw e s = (Ok okey, s1) ->
  1 <= len okey <= 16 ->
  owner_unwrap caps r okey m = Ok O ->
  owner_unwrap caps r okey O = Ok m /\
  pdf_check_pre_r5_owner_password caps pw e s
  = pdf_check_pre_r5_user_password caps m e s1.
Proof.
  intros (ks & Hlen & Hks) HE HR HO Hok Hk Hwrap.
  assert (Hun : owner_unwrap caps r okey O = Ok m)
    by (apply (owner_unwrap_twice caps ks Hlen Hks r okey m O Hk Hwrap)).
  split; [exact Hun|].
  rewrite (owner_check_unwraps caps pw e s s1 d r okey O HE HR HO Hok Hk), Hun.
  reflexivity.
Qed.

Lemma lxor_mod_256 a k : (Z.lxor a k) mod 256 = (Z.lxor a (k mod 256)) mod 256.
Proof.
  change 256 with (2 ^ 8). rewrite <- !Z.land_ones by lia.
  apply Z.bits_inj'. intros n Hn.
  rewrite !Z.land_spec, !Z.lxor_spec, !Z.land_spec.
  destruct (Z.testbit a n), (Z.testbit k n), (Z.testbit (Z.ones 8) n); reflexivity.
Qed.

Lemma of_Z_lxor a k :
  byte.of_Z (Z.lxor (byte.unsigned a) k) = byte_xor a (byte.of_Z k).
Proof.
  unfold byte_xor. apply byte.unsigned_inj.
  rewrite !byte.unsigned_of_Z. unfold byte.wrap. change (2 ^ 8) with 256.
  apply lxor_mod_256.
Qed.

Lemma rc4_prga_keystream data : forall s i j,
  map byte.of_Z (Real.rc4_prga s i j (map byte.unsigned data))
  = xor_stream data (map byte.of_Z (rc4_keystream s i j (List.length data))).
Proof.
  induction data as [|a data IH]; intros s i j; [reflexivity|].
  cbn [map Real.rc4_prga List.length rc4_keystream xor_stream].
  rewrite of_Z_lxor, IH. reflexivity.
Qed.

Lemma rc4_keystream_length n : forall s i j,
  List.length (rc4_keystream s i j n) = n.
Proof.
  induction n as [|n IH]; intros s i j; [reflexivity|].
  cbn [rc4_keystream List.length]. rewrite IH. reflexivity.
Qed.

Lemma Real_RC4_stream_cipher : stream_cipher Real.caps.
Proof.
  exists Real_key_stream. split.
  - intros key n. unfold Real_key_stream.
    rewrite length_map. apply rc4_keystream_length.
  - intros key data Hk. cbn [ArcfourDecode Real.caps]. unfold Real.RC4.
    replace ((1 <=? len key) && (len key <=? 256)) with true.
    + unfold Real_key_stream. rewrite rc4_prga_keystream. reflexivity.
    + symmetry. apply andb_true_iff. split; apply Z.leb_le; lia.
Qed.

Lemma owner_check_round_trip_witness :
  let e := MoreDocs.doc_R3_owner [] None in
  exists okey,
    pdf_owner_key Real.caps (chars "owner") e Docs.st0 = (Ok okey, Docs.st0) /\
    1 <= len okey <= 16 /\
    owner_unwrap Real.caps 3 okey (pdf_pad_key []) = Ok MoreDocs.O_R3_owner /\
    pdf_check_pre_r5_owner_password Real.caps (chars "owner") e Docs.st0
    = pdf_check_pre_r5_user_password Real.caps (pdf_pad_key []) e Docs.st0.
Proof.
  intros e. eexists.
  assert (Hok : pdf_owner_key Real.caps (chars "owner") e Docs.st0
                = (Ok (Real.hex "b4a89327b4f6f8f00a0b6e21e633778e"), Docs.st0)).
  { vm_compute. reflexivity. }
  split; [exact Hok|].
  assert (Hk : 1 <= len (Real.hex "b4a89327b4f6f8f00a0b6e21e633778e") <= 16)
    by (vm_compute; split; discriminate).
  split; [exact Hk|].
  assert (Hw : owner_unwrap Real.caps 3 (Real.hex "b4a89327b4f6f8f00a0b6e21e633778e")
                 (pdf_pad_key []) = Ok MoreDocs.O_R3_owner)
    by (vm_compute; reflexivity).
  split; [exact Hw|].
  exact (proj2 (owner_check_round_trip Real.caps (chars "owner") e Docs.st0 Docs.st0
                  (MoreDocs.Encrypt_R3_owner []) 3 _ (pdf_pad_key []) MoreDocs.O_R3_owner
                  Real_RC4_stream_cipher eq_refl eq_refl eq_refl Hok Hk Hw)).
Defined.

(** ** What stops pdf_process_Encrypt *)

Lemma emit3 {A} d1 d2 d3 (x : error) e s :
  (emit d1 ;;; emit d2 ;;; emit d3 ;;; @signalerror A x) e s
  = (Err x, mkState (FileKey s) (diags s ++ [d1; d2; d3])).
Proof.
  unfold bind, emit, signalerror. cbn [FileKey diags].
  rewrite <- !app_assoc. reflexivity.
Qed.

(** X10. A revision below 2 or above 6 makes pdf_check_password write the
    warning that names it and fail with undefined; no password is tried,
    and pdf_process_Encrypt fails the same way, not with
    invalidfileaccess. *)
Theorem unknown_revision caps pw e s d f r :
  dict_get (Trailer e) "Encrypt" = Some (ODict d) ->
  dict_get d "R" = Some (OInt r) -> r < 2 \/ 6 < r ->
  let s' := mkState (FileKey s)
              (diags s ++ [FormatWarning (unknown_R_warning r);
                           FormatError Cannot_decrypt_warned; Producer]) in
  pdf_check_password caps pw e s = (Err undefined, s') /\
  (dict_get d "Filter" = Some f -> name_eq f "Standard" = true ->
   isRequired e s = (Ok true, s) ->
   pdf_process_Encrypt caps e s = (Err undefined, s')).
Proof.
  intros HE HR Hr s'.
  assert (H : forall pw0, pdf_check_password caps pw0 e s = (Err undefined, s')).
  { intros pw0. unfold pdf_check_password.
    run (Encrypt_ok e s _ HE). run (oget_ok _ _ _ e s HR).
    unfold as_int. rewrite bind_ret.
    replace ((2 <=? r) && (r <=? 4)) with false.
    2:{ symmetry. apply andb_false_iff. destruct Hr; [left; apply Z.leb_gt|right; apply Z.leb_gt]; lia. }
    replace (r =? 5) with false by (symmetry; apply Z.eqb_neq; lia).
    replace (r =? 6) with false by (symmetry; apply Z.eqb_neq; lia).
    apply emit3. }
  split; [apply H|].
  intros HF Hstd Hreq.
  rewrite (process_Encrypt_decides caps e s d f true HE HF Hstd Hreq).
  cbn [orb]. unfold verify_passwords. apply bind_err. apply H.
Qed.

(** X11. A /Filter other than /Standard stops pdf_process_Encrypt at once: a
    warning, an error line, the producer, then undefined, whatever else the
    dictionary holds and whether or not a password was supplied.  The file
    key is not touched. *)
Theorem unknown_security_handler caps e s d f :
  dict_get (Trailer e) "Encrypt" = Some (ODict d) ->
  dict_get d "Filter" = Some f -> name_eq f "Standard" = false ->
  pdf_process_Encrypt caps e s
  = (Err undefined,
     mkState (FileKey s)
       (diags s ++ [FormatWarning "   **** Warning: This file uses an unknown security handler.";
                    FormatError Cannot_decrypt_warned; Producer])).
Proof.
  intros HE HF Hstd. unfold pdf_process_Encrypt.
  run (Encrypt_ok e s _ HE). run (oget_ok _ _ _ e s HF). rewrite Hstd. cbn [negb].
  apply bind_err. apply emit3.
Qed.

(** X12. From V = 4 on, a /CF that is not a dictionary stops
    pdf_process_Encrypt with invalidfileaccess before any password is
    tried, also when PDFPassword is supplied. *)
Theorem CF_of_wrong_type caps e s d f v cf :
  dict_get (Trailer e) "Encrypt" = Some (ODict d) ->
  dict_get d "Filter" = Some f -> name_eq f "Standard" = true ->
  dict_get d "V" = Some (OInt v) -> 4 <= v ->
  dict_get d "CF" = Some cf -> (forall l, cf <> ODict l) ->
  pdf_process_Encrypt caps e s
  = (Err invalidfileaccess,
     mkState (FileKey s)
       (diags s ++ [FormatError "   **** Error: CF has wrong type.";
                    FormatError Cannot_decrypt])).
Proof.
  intros HE HF Hstd HV Hv Hcf Hnd. unfold pdf_process_Encrypt.
  run (Encrypt_ok e s _ HE). run (oget_ok _ _ _ e s HF). rewrite Hstd. cbn [negb].
  rewrite bind_ret. apply bind_err.
  rewrite (isRequired_from_4 e s d v HE HV Hv). cbv zeta. rewrite Hcf.
  destruct cf as [| | | | | |l]; try (unfold wrong_type, bind, pdfformaterror, emit,
    signalerror; cbn [FileKey diags]; rewrite <- !app_assoc; reflexivity).
  exfalso. apply (Hnd l). reflexivity.
Qed.

(** X13. When the test says that no password is needed and none was supplied,
    pdf_process_Encrypt writes its four warnings and defines no file key;
    objects are then resolved as in a file that is not encrypted, without
    computing any key. *)
Theorem identity_document_without_password caps e s d f :
  dict_get (Trailer e) "Encrypt" = Some (ODict d) ->
  dict_get d "Filter" = Some f -> name_eq f "Standard" = true ->
  isRequired e s = (Ok false, s) ->
  PDFPassword e = None ->
  exists s',
    pdf_process_Encrypt caps e s = (Ok tt, s') /\
    FileKey s' = FileKey s /\
    List.length (diags s') = (List.length (diags s) + 4)%nat /\
    (FileKey s = None ->
     forall objnum gen run, pdf_run_resolve caps objnum gen run e s' = run None e s').
Proof.
  intros HE HF Hstd Hreq Hpw.
  rewrite (process_Encrypt_decides caps e s d f false HE HF Hstd Hreq), Hpw.
  cbn [orb]. eexists. split.
  - unfold identity_warnings, bind, pdfformatwarning, emit. cbn [FileKey diags].
    reflexivity.
  - cbn [FileKey diags]. split; [reflexivity|]. split.
    + rewrite !length_app. cbn [List.length]. lia.
    + intros HK objnum gen run. unfold pdf_run_resolve, bind, gets.
      cbn [FileKey]. rewrite HK. reflexivity.
Qed.

(** ** Bounds of /O and /U at revision 5 *)

(** X14. pdf_check_r5_password needs 40 bytes of /O and 48 of /U before it
    compares anything: with fewer it fails with rangecheck, whatever the
    password, and writes nothing. *)
Theorem r5_short_O_or_U caps pw e s d O U :
  dict_get (Trailer e) "Encrypt" = Some (ODict d) ->
  dict_get d "O" = Some (OString O) ->
  dict_get d "U" = Some (OString U) ->
  len O < 40 \/ len U < 48 ->
  pdf_check_r5_password caps pw e s = (Err rangecheck, s).
Proof.
  intros HE HO HU Hshort. unfold pdf_check_r5_password. apply bind_err.
  unfold r5_candidate.
  assert (H1 : (enc <- Encrypt ;; oget enc "O") e s = (Ok (OString O), s)).
  { run (Encrypt_ok e s _ HE). apply oget_ok. exact HO. }
  assert (H2 : (enc <- Encrypt ;; oget enc "U") e s = (Ok (OString U), s)).
  { run (Encrypt_ok e s _ HE). apply oget_ok. exact HU. }
  run H1. run H2. unfold as_string at 1. rewrite bind_ret.
  destruct (Z_lt_ge_dec (len O) 40) as [Ho|Ho].
  - apply bind_err. apply getinterval_short; lia.
  - run (getinterval_ok O 32 8 e s ltac:(lia) ltac:(lia) ltac:(lia)).
    unfold as_string at 1. rewrite bind_ret.
    apply bind_err. apply getinterval_short; lia.
Qed.

(** ** The file key is only ever a key that a check returned *)

Lemma kf_ret {A} (a : A) : keeps_FileKey (ret a).
Proof. intros e s. reflexivity. Qed.

Lemma kf_signalerror {A} x : keeps_FileKey (@signalerror A x).
Proof. intros e s. reflexivity. Qed.

Lemma kf_lift {A} (r : result A) : keeps_FileKey (lift r).
Proof. intros e s. reflexivity. Qed.

Lemma kf_asks {A} (f : env -> A) : keeps_FileKey (asks f).
Proof. intros e s. reflexivity. Qed.

Lemma kf_gets {A} (f : state -> A) : keeps_FileKey (gets f).
Proof. intros e s. reflexivity. Qed.

Lemma kf_emit d : keeps_FileKey (emit d).
Proof. intros e s. reflexivity. Qed.

Lemma kf_bind {A B} (m : M A) (f : A -> M B) :
  keeps_FileKey m -> (forall a, keeps_FileKey (f a)) -> keeps_FileKey (bind m f).
Proof.
  intros Hm Hf e s. unfold bind. specialize (Hm e s).
  destruct (m e s) as [[a|x] s']; cbn [snd] in *; [|exact Hm].
  rewrite Hf. exact Hm.
Qed.

Lemma kf_getinterval x i n : keeps_FileKey (getinterval x i n).
Proof. intros e s. unfold getinterval. destruct (_ && _); reflexivity. Qed.

Lemma kf_oget d k : keeps_FileKey (oget d k).
Proof.
  intros e s. unfold oget, get. destruct d; try reflexivity.
  destruct (dict_get d k); reflexivity.
Qed.

Lemma kf_get d k : keeps_FileKey (get d k).
Proof. apply kf_oget. Qed.

Lemma kf_knownoget d k : keeps_FileKey (knownoget d k).
Proof. intros e s. unfold knownoget, knownget. destruct d; reflexivity. Qed.

Lemma kf_knownget d k : keeps_FileKey (knownget d k).
Proof. apply kf_knownoget. Qed.

Lemma kf_oget0 a : keeps_FileKey (oget0 a).
Proof. intros e s. destruct a as [| | | | |[|]|]; reflexivity. Qed.

Lemma kf_as_string o : keeps_FileKey (as_string o).
Proof. intros e s. destruct o; reflexivity. Qed.

Lemma kf_as_int o : keeps_FileKey (as_int o).
Proof. intros e s. destruct o; reflexivity. Qed.

Lemma kf_as_bool o : keeps_FileKey (as_bool o).
Proof. intros e s. destruct o; reflexivity. Qed.

Lemma kf_put x i v : keeps_FileKey (put x i v).
Proof. intros e s. unfold put. destruct (_ && _); [destruct (_ && _)|]; reflexivity. Qed.

Lemma kf_sget x i : keeps_FileKey (sget x i).
Proof. intros e s. unfold sget. destruct (_ && _); reflexivity. Qed.

Lemma kf_ps_repeat {A} (f : A -> M A) n :
  (forall a, keeps_FileKey (f a)) -> forall a, keeps_FileKey (ps_repeat n f a).
Proof.
  intros Hf. induction n as [|n IH]; intros a; cbn [ps_repeat].
  - apply kf_ret.
  - apply kf_bind; [apply Hf|exact IH].
Qed.

Lemma kf_for_from {A} (f : Z -> A -> M A) n :
  (forall i a, keeps_FileKey (f i a)) -> forall i a, keeps_FileKey (for_from i n f a).
Proof.
  intros Hf. induction n as [|n IH]; intros i a; cbn [for_from].
  - apply kf_ret.
  - apply kf_bind; [apply Hf|intros a'; apply IH].
Qed.

Create HintDb kf.
#[local] Hint Resolve kf_ret kf_signalerror kf_lift kf_asks kf_gets kf_emit
  kf_getinterval kf_oget kf_get kf_knownoget kf_knownget kf_oget0 kf_as_string
  kf_as_int kf_as_bool kf_put kf_sget : kf.

Ltac kf_steps :=
  repeat first
    [ solve [auto with kf]
    | apply kf_bind; [|intros ?]
    | apply kf_ps_repeat; intros ?
    | apply kf_for_from; intros ? ?
    | match goal with
      | |- keeps_FileKey (if ?b then _ else _) => destruct b
      | |- keeps_FileKey (match ?x with _ => _ end) => destruct x
      | |- keeps_FileKey (let (_, _) := ?x in _) => destruct x
      end
    | unfold pdfformaterror, pdfformatwarning, printProducer ].

Lemma kf_Encrypt : keeps_FileKey Encrypt.
Proof. unfold Encrypt. kf_steps. Qed.
#[local] Hint Resolve kf_Encrypt : kf.

Lemma kf_arc4decode caps c key : keeps_FileKey (arc4decode caps c key).
Proof. unfold arc4decode. kf_steps. Qed.

Lemma kf_aesdecode caps c key p : keeps_FileKey (aesdecode caps c key p).
Proof. unfold aesdecode. kf_steps. Qed.
#[local] Hint Resolve kf_arc4decode kf_aesdecode : kf.

Lemma kf_pdf_xorbytes i key : keeps_FileKey (pdf_xorbytes i key).
Proof. unfold pdf_xorbytes, ps_for. kf_steps. Qed.

Lemma kf_pdf_key_length : keeps_FileKey pdf_key_length.
Proof. unfold pdf_key_length. kf_steps. Qed.
#[local] Hint Resolve kf_pdf_xorbytes kf_pdf_key_length : kf.

Lemma kf_md5_trunk caps x : keeps_FileKey (md5_trunk caps x).
Proof. unfold md5_trunk. kf_steps. Qed.

Lemma kf_trailer_id0 : keeps_FileKey trailer_id0.
Proof. unfold trailer_id0. kf_steps. Qed.
#[local] Hint Resolve kf_md5_trunk kf_trailer_id0 : kf.

Lemma kf_compute_key caps pw : keeps_FileKey (pdf_compute_encryption_key caps pw).
Proof. unfold pdf_compute_encryption_key. kf_steps. Qed.
#[local] Hint Resolve kf_compute_key : kf.

Lemma kf_gen_R3 caps fk : keeps_FileKey (pdf_gen_user_password_R3 caps fk).
Proof. unfold pdf_gen_user_password_R3, ps_for. kf_steps. Qed.
#[local] Hint Resolve kf_gen_R3 : kf.

Lemma kf_gen caps pw : keeps_FileKey (pdf_gen_user_password caps pw).
Proof. unfold pdf_gen_user_password, pdf_gen_user_password_R2. kf_steps. Qed.
#[local] Hint Resolve kf_gen : kf.

Lemma kf_user_check caps pw : keeps_FileKey (pdf_check_pre_r5_user_password caps pw).
Proof. unfold pdf_check_pre_r5_user_password. kf_steps. Qed.
#[local] Hint Resolve kf_user_check : kf.

Lemma kf_owner_check caps pw : keeps_FileKey (pdf_check_pre_r5_owner_password caps pw).
Proof. unfold pdf_check_pre_r5_owner_password, pdf_owner_key, ps_for. kf_steps. Qed.
#[local] Hint Resolve kf_owner_check : kf.

Lemma kf_check_r5 caps pw : keeps_FileKey (pdf_check_r5_password caps pw).
Proof.
  unfold pdf_check_r5_password, r5_candidate, r5_check_Perms, check_Perms.
  kf_steps.
Qed.
#[local] Hint Resolve kf_check_r5 : kf.

Lemma kf_check_password caps pw :
  (forall p enc, keeps_FileKey (check_r6_password caps p enc)) ->
  keeps_FileKey (pdf_check_password caps pw).
Proof. intros H6. unfold pdf_check_password. kf_steps; apply H6. Qed.

Lemma kf_isRequired : keeps_FileKey isRequired.
Proof. unfold isRequired, wrong_type. kf_steps. Qed.

Lemma kf_did_not_work caps pw : keeps_FileKey (password_did_not_work caps pw).
Proof. unfold password_did_not_work. kf_steps. Qed.

Lemma kf_identity_warnings : keeps_FileKey identity_warnings.
Proof. unfold identity_warnings. kf_steps. Qed.

Lemma from_check_bind {A} caps (m : M A) (f : A -> M unit) e s :
  keeps_FileKey m ->
  (forall a s', FileKey_from_check caps e (FileKey s') (f a e s')) ->
  FileKey_from_check caps e (FileKey s) (bind m f e s).
Proof.
  intros Hm Hf. unfold bind. specialize (Hm e s).
  destruct (m e s) as [[a|x] s'] eqn:E; cbn [snd] in Hm.
  - rewrite <- Hm. apply Hf.
  - split.
    + intros _ _. exact Hm.
    + discriminate.
Qed.

Lemma from_check_keeps caps (m : M unit) e s :
  keeps_FileKey m -> FileKey_from_check caps e (FileKey s) (m e s).
Proof.
  intros Hm. split.
  - intros _ _. apply Hm.
  - intros _. left. apply Hm.
Qed.

Lemma from_check_attempt caps e pw s :
  (forall p enc, keeps_FileKey (check_r6_password caps p enc)) ->
  pw = [] \/ PDFPassword e = Some pw ->
  forall (otherwise : M unit),
    (forall s', FileKey_from_check caps e (FileKey s') (otherwise e s')) ->
    FileKey_from_check caps e (FileKey s)
      ((r <- pdf_check_password caps pw ;;
        match r with
        | Some filekey => def_FileKey filekey
        | None => otherwise
        end) e s).
Proof.
  intros H6 Hpw otherwise Hother. unfold bind.
  pose proof (kf_check_password caps pw H6 e s) as Hk.
  destruct (pdf_check_password caps pw e s) as [[[k|]|x] s'] eqn:E; cbn [snd] in Hk.
  - split; [discriminate|]. intros _. right. exists pw, s, s', k.
    split; [exact Hpw|]. split; [exact E|]. reflexivity.
  - rewrite <- Hk. apply Hother.
  - split; [intros _ _; exact Hk|discriminate].
Qed.

(** X15. pdf_process_Encrypt defines the file key only as a key that
    pdf_check_password returned, for the empty password or for PDFPassword;
    when it fails, for whatever reason, the file key is what it was
    before.  The operator of revision 6 is taken not to define FileKey
    itself. *)
Theorem FileKey_comes_from_a_check caps e s :
  (forall p enc, keeps_FileKey (check_r6_password caps p enc)) ->
  FileKey_from_check caps e (FileKey s) (pdf_process_Encrypt caps e s).
Proof.
  intros H6. unfold pdf_process_Encrypt.
  apply from_check_bind; [apply kf_Encrypt|]. intros enc s1.
  apply from_check_bind; [apply kf_oget|]. intros f s2.
  apply from_check_bind; [kf_steps|]. intros _ s3.
  apply from_check_bind; [apply kf_isRequired|]. intros required s4.
  apply from_check_bind; [apply kf_asks|]. intros given s5.
  destruct (required || _).
  - unfold verify_passwords.
    apply (from_check_attempt caps e [] s5 H6 (or_introl eq_refl)). intros s6.
    unfold bind at 1, asks at 1.
    destruct (PDFPassword e) as [pw|] eqn:Hpw.
    + apply (from_check_attempt caps e pw s6 H6 (or_intror Hpw)). intros s7.
      apply from_check_keeps. apply kf_did_not_work.
    + apply from_check_keeps. kf_steps.
  - apply from_check_keeps. apply kf_identity_warnings.
Qed.

(** ** What the checks and the key derivations leave alone *)

Lemma quiet_asks {A} (f : env -> A) : quiet (asks f).
Proof. intros e s. reflexivity. Qed.

Lemma quiet_gets {A} (f : state -> A) : quiet (gets f).
Proof. intros e s. reflexivity. Qed.

Lemma quiet_knownoget d k : quiet (knownoget d k).
Proof. intros e s. unfold knownoget, knownget. destruct d; reflexivity. Qed.

Lemma quiet_oget0 a : quiet (oget0 a).
Proof. intros e s. destruct a as [| | | | |[|]|]; reflexivity. Qed.

Lemma quiet_as_int o : quiet (as_int o).
Proof. intros e s. destruct o; reflexivity. Qed.

Lemma quiet_as_bool o : quiet (as_bool o).
Proof. intros e s. destruct o; reflexivity. Qed.

Lemma quiet_put x i v : quiet (put x i v).
Proof. intros e s. unfold put. destruct (_ && _); [destruct (_ && _)|]; reflexivity. Qed.

Lemma quiet_sget x i : quiet (sget x i).
Proof. intros e s. unfold sget. destruct (_ && _); reflexivity. Qed.

Lemma quiet_ps_repeat {A} (f : A -> M A) n :
  (forall a, quiet (f a)) -> forall a, quiet (ps_repeat n f a).
Proof.
  intros Hf. induction n as [|n IH]; intros a; cbn [ps_repeat].
  - apply quiet_ret.
  - apply quiet_bind; [apply Hf|exact IH].
Qed.

Lemma quiet_for_from {A} (f : Z -> A -> M A) n :
  (forall i a, quiet (f i a)) -> forall i a, quiet (for_from i n f a).
Proof.
  intros Hf. induction n as [|n IH]; intros i a; cbn [for_from].
  - apply quiet_ret.
  - apply quiet_bind; [apply Hf|intros a'; apply IH].
Qed.

#[local] Hint Resolve quiet_ret quiet_signalerror quiet_lift quiet_getinterval
  quiet_oget quiet_as_string quiet_Encrypt quiet_aesdecode quiet_asks quiet_gets quiet_knownoget quiet_oget0
  quiet_as_int quiet_as_bool quiet_put quiet_sget : quiet.

Ltac quiet_all :=
  repeat first
    [ solve [auto with quiet]
    | apply quiet_bind; [|intros ?]
    | apply quiet_ps_repeat; intros ?
    | apply quiet_for_from; intros ? ?
    | match goal with
      | |- quiet (if ?b then _ else _) => destruct b
      | |- quiet (match ?x with _ => _ end) => destruct x
      | |- quiet (let (_, _) := ?x in _) => destruct x
      end ].

Lemma quiet_arc4decode caps c key : quiet (arc4decode caps c key).
Proof. unfold arc4decode. quiet_all. Qed.

Lemma quiet_pdf_xorbytes i key : quiet (pdf_xorbytes i key).
Proof. unfold pdf_xorbytes, ps_for. quiet_all. Qed.

Lemma quiet_pdf_key_length : quiet pdf_key_length.
Proof. unfold pdf_key_length. quiet_all. Qed.
#[local] Hint Resolve quiet_arc4decode quiet_pdf_xorbytes quiet_pdf_key_length : quiet.

Lemma quiet_md5_trunk caps x : quiet (md5_trunk caps x).
Proof. unfold md5_trunk. quiet_all. Qed.
#[local] Hint Resolve quiet_md5_trunk : quiet.

Lemma quiet_the_FileKey : quiet the_FileKey.
Proof. unfold the_FileKey. quiet_all. Qed.

Lemma quiet_oget_by d k : quiet (oget_by d k).
Proof. unfold oget_by. quiet_all. Qed.
#[local] Hint Resolve quiet_the_FileKey quiet_oget_by : quiet.

Lemma quiet_computeobjkey caps objnum gen : quiet (computeobjkey caps objnum gen).
Proof. unfold computeobjkey. quiet_all. Qed.

Lemma quiet_decrypt_string caps pad key str : quiet (decrypt_string caps pad key str).
Proof. unfold decrypt_string. quiet_all. Qed.

Lemma quiet_pdf_decrypt_stream caps pad d file : quiet (pdf_decrypt_stream caps pad d file).
Proof. unfold pdf_decrypt_stream, aesdecodefilter, arc4decodefilter. quiet_all. Qed.

(** X16. The object key and the decryption of strings and streams write no
    diagnostic and leave the file key as it is, whether they succeed or
    fail. *)
Theorem object_keys_and_decryption_write_nothing caps pad :
  (forall objnum gen, quiet (computeobjkey caps objnum gen)) /\
  (forall key str, quiet (decrypt_string caps pad key str)) /\
  (forall d file, quiet (pdf_decrypt_stream caps pad d file)).
Proof.
  repeat split; intros.
  - apply quiet_computeobjkey.
  - apply quiet_decrypt_string.
  - apply quiet_pdf_decrypt_stream.
Qed.

Lemma state_eta s : mkState (FileKey s) (diags s) = s.
Proof. destruct s. reflexivity. Qed.

Lemma ID_errors_add n m : ID_errors n ++ ID_errors m = ID_errors (n + m).
Proof.
  unfold ID_errors. rewrite repeat_app, concat_app. reflexivity.
Qed.

Lemma wo_quiet {A} (m : M A) : quiet m -> writes_only_ID_errors m.
Proof.
  intros H e s. exists 0%nat. rewrite H. cbn [ID_errors repeat List.concat].
  rewrite app_nil_r, state_eta. auto.
Qed.

Lemma wo_bind {A B} (m : M A) (f : A -> M B) :
  writes_only_ID_errors m -> (forall a, writes_only_ID_errors (f a)) ->
  writes_only_ID_errors (bind m f).
Proof.
  intros Hm Hf e s. unfold bind. destruct (Hm e s) as [n [Hs Hn]].
  destruct (m e s) as [[a|x] s1]; cbn [snd] in *.
  - destruct (Hf a e s1) as [n' [Hs' Hn']]. exists (n + n')%nat.
    rewrite Hs'. subst s1. cbn [FileKey diags].
    rewrite <- app_assoc, ID_errors_add. split; [reflexivity|].
    intros H. rewrite (Hn H), (Hn' H). reflexivity.
  - exists n. auto.
Qed.

Lemma wo_ps_repeat {A} (f : A -> M A) n :
  (forall a, writes_only_ID_errors (f a)) ->
  forall a, writes_only_ID_errors (ps_repeat n f a).
Proof.
  intros Hf. induction n as [|n IH]; intros a; cbn [ps_repeat].
  - apply wo_quiet, quiet_ret.
  - apply wo_bind; [apply Hf|exact IH].
Qed.

Lemma wo_for_from {A} (f : Z -> A -> M A) n :
  (forall i a, writes_only_ID_errors (f i a)) ->
  forall i a, writes_only_ID_errors (for_from i n f a).
Proof.
  intros Hf. induction n as [|n IH]; intros i a; cbn [for_from].
  - apply wo_quiet, quiet_ret.
  - apply wo_bind; [apply Hf|intros a'; apply IH].
Qed.

Lemma wo_trailer_id0 : writes_only_ID_errors trailer_id0.
Proof.
  intros e s. unfold trailer_id0, bind, asks, knownoget, knownget, ret.
  destruct (dict_get (Trailer e) "ID") as [a|] eqn:HID.
  - exists 0%nat. rewrite (quiet_oget0 a e s). cbn [ID_errors repeat List.concat].
    rewrite app_nil_r, state_eta. auto.
  - exists 1%nat. cbn. rewrite <- app_assoc. split; [reflexivity|].
    intros H. congruence.
Qed.

Create HintDb wo.
#[local] Hint Resolve wo_trailer_id0 : wo.

Ltac wo_steps :=
  repeat first
    [ solve [auto with wo]
    | solve [apply wo_quiet; auto with quiet]
    | apply wo_bind; [|intros ?]
    | apply wo_ps_repeat; intros ?
    | apply wo_for_from; intros ? ?
    | match goal with
      | |- writes_only_ID_errors (if ?b then _ else _) => destruct b
      | |- writes_only_ID_errors (match ?x with _ => _ end) => destruct x
      | |- writes_only_ID_errors (let (_, _) := ?x in _) => destruct x
      end ].

Lemma wo_compute_key caps pw : writes_only_ID_errors (pdf_compute_encryption_key caps pw).
Proof. unfold pdf_compute_encryption_key. wo_steps. Qed.
#[local] Hint Resolve wo_compute_key : wo.

Lemma wo_gen_R3 caps fk : writes_only_ID_errors (pdf_gen_user_password_R3 caps fk).
Proof. unfold pdf_gen_user_password_R3, ps_for. wo_steps. Qed.
#[local] Hint Resolve wo_gen_R3 : wo.

Lemma wo_gen caps pw : writes_only_ID_errors (pdf_gen_user_password caps pw).
Proof. unfold pdf_gen_user_password, pdf_gen_user_password_R2. wo_steps. Qed.
#[local] Hint Resolve wo_gen : wo.

Lemma wo_user_check caps pw :
  writes_only_ID_errors (pdf_check_pre_r5_user_password caps pw).
Proof. unfold pdf_check_pre_r5_user_password. wo_steps. Qed.
#[local] Hint Resolve wo_user_check : wo.

Lemma wo_owner_check caps pw :
  writes_only_ID_errors (pdf_check_pre_r5_owner_password caps pw).
Proof. unfold pdf_check_pre_r5_owner_password, pdf_owner_key, ps_for. wo_steps. Qed.

(** X17. The key derivation and the two password checks of revisions 2 to 4
    keep the file key and write nothing but the two lines about a
    trailer without /ID; with an /ID in the trailer they leave the state
    as it is, whether they succeed or fail. *)
Theorem pre_r5_checks_write_only_ID_errors caps pw :
  writes_only_ID_errors (pdf_compute_encryption_key caps pw) /\
  writes_only_ID_errors (pdf_check_pre_r5_user_password caps pw) /\
  writes_only_ID_errors (pdf_check_pre_r5_owner_password caps pw).
Proof.
  split; [apply wo_compute_key|].
  split; [apply wo_user_check|apply wo_owner_check].
Qed.

(** ** Resolving an object *)

Lemma dict_get_put_same d k v : dict_get (dict_put d k v) k = Some v.
Proof.
  induction d as [|[k' v'] d IH]; cbn [dict_put dict_get].
  - rewrite String.eqb_refl. reflexivity.
  - destruct (String.eqb k' k) eqn:E; cbn [dict_get].
    + rewrite String.eqb_refl. reflexivity.
    + rewrite E. exact IH.
Qed.

Lemma dict_get_put_other d k v k' :
  k' <> k -> dict_get (dict_put d k v) k' = dict_get d k'.
Proof.
  intros Hne. induction d as [|[k0 v0] d IH]; cbn [dict_put dict_get].
  - destruct (String.eqb k k') eqn:E; [|reflexivity].
    apply String.eqb_eq in E. congruence.
  - destruct (String.eqb k0 k) eqn:E; cbn [dict_get].
    + apply String.eqb_eq in E. subst k0.
      destruct (String.eqb k k') eqn:E'; [|reflexivity].
      apply String.eqb_eq in E'. congruence.
    + destruct (String.eqb k0 k'); [reflexivity|exact IH].
Qed.

Lemma returns_in_ret {A} (P : A -> Prop) a : P a -> returns_in P (ret a).
Proof. intros H e s. split; [reflexivity|exact H]. Qed.

Lemma returns_in_bind {A B} (P : B -> Prop) (m : M A) (f : A -> M B) :
  quiet m -> (forall a, returns_in P (f a)) -> returns_in P (bind m f).
Proof.
  intros Hm Hf e s. unfold bind. specialize (Hm e s).
  destruct (m e s) as [[a|x] s1]; cbn [snd] in Hm; subst s1.
  - apply Hf.
  - split; [reflexivity|exact I].
Qed.

Lemma returns_in_ok {A} (P : A -> Prop) (m : M A) e s a s' :
  returns_in P m -> m e s = (Ok a, s') -> s' = s /\ P a.
Proof.
  intros H E. destruct (H e s) as [Hs Hr]. rewrite E in Hs, Hr.
  cbn [fst snd] in Hs, Hr. auto.
Qed.

(** The conditional part of pdf_run_resolve, for an executable
    dictionary [d] read with the key [key]. *)
Lemma resolve_tail_cases d key :
  returns_in (fun xo => xo = (true, ODict d) \/ xo = (true, put_StreamKey d key))
    (enc <- Encrypt ;;
     r <- oget enc "R" ;;
     r <- as_int r ;;
     if r <? 3 then ret (true, put_StreamKey d key)
     else
       em <- knownoget enc "EncryptMetadata" ;;
       em <- as_bool (match em with Some b => b | None => OBool true end) ;;
       if negb em
          && name_eq (match dict_get d "Type" with Some t => t | None => ONull end)
                     "Metadata"
       then ret (true, ODict d)
       else if r <? 4 then ret (true, put_StreamKey d key)
       else
         stmf <- knownoget enc "StmF" ;;
         if name_eq (match stmf with Some f => f | None => OName "Identity" end)
                    "Identity"
         then ret (true, ODict d)
         else ret (true, put_StreamKey d key)).
Proof.
  repeat lazymatch goal with
    | |- returns_in _ (bind _ _) =>
        apply returns_in_bind; [solve [auto with quiet]|intros ?]
    | |- returns_in _ (if ?b then _ else _) => destruct b
    | |- returns_in _ (ret _) => apply returns_in_ret; auto
    end.
Qed.

(** X18. Whatever pdf_run_resolve returns was read by [run]: the object as it
    was read, or, for an executable dictionary of an encrypted file, that
    dictionary with its StreamKey entry set to the key of the object and
    every other entry as it was.  The state is the one [run] left: the
    procedure writes nothing itself. *)
Theorem resolve_changes_only_StreamKey caps objnum gen run e s xo s' :
  pdf_run_resolve caps objnum gen run e s = (Ok xo, s') ->
  exists k ro,
    run k e s = (Ok ro, s') /\
    (k = None <-> FileKey s = None) /\
    (xo = ro \/
     exists key d d',
       k = Some key /\
       computeobjkey caps objnum gen e s = (Ok key, s) /\
       ro = (true, ODict d) /\ xo = (true, ODict d') /\
       dict_get d' "StreamKey" = Some (OString key) /\
       forall n, n <> "StreamKey"%string -> dict_get d' n = dict_get d n).
Proof.
  unfold pdf_run_resolve. unfold bind at 1, gets at 1.
  destruct (FileKey s) as [fk|] eqn:HK.
  - unfold bind at 1.
    pose proof (quiet_computeobjkey caps objnum gen e s) as Hq.
    destruct (computeobjkey caps objnum gen e s) as [[key|x] s1] eqn:Hkey;
      cbn [snd] in Hq; subst s1; [|discriminate].
    unfold bind at 1.
    destruct (run (Some key) e s) as [[ro|x] s2] eqn:Hrun; [|discriminate].
    intros H. exists (Some key), ro.
    assert (Hcases : s' = s2 /\
              (xo = ro \/ exists d, ro = (true, ODict d) /\
                                    xo = (true, put_StreamKey d key))).
    { destruct ro as [[|] o].
      - destruct o; try (inversion H; subst; auto; fail).
        destruct (returns_in_ok _ _ e s2 xo s' (resolve_tail_cases d key) H)
          as [-> Hr].
        split; [reflexivity|]. destruct Hr as [->| ->]; eauto.
      - inversion H; subst; auto. }
    destruct Hcases as [-> Hxo]. split; [exact Hrun|].
    split; [split; discriminate|].
    destruct Hxo as [->|[d [-> ->]]]; [left; reflexivity|].
    right. exists key, d, (dict_put d "StreamKey" (OString key)).
    repeat split; try reflexivity.
    + apply dict_get_put_same.
    + intros n Hn. apply dict_get_put_other. exact Hn.
  - intros H. exists None, xo. split; [exact H|].
    split; [split; reflexivity|]. left. reflexivity.
Qed.

(** ** The filter put before a stream, and the strings *)

(** X19. With the StreamKey that pdf_run_resolve puts, pdf_decrypt_stream uses
    that key, whatever StreamKey the dictionary of the file carried.  The
    filter is RC4 when the encryption dictionary has no StmF or no CF;
    with both it is the one of the CFM of the crypt filter that StmF
    names, AES for AESV2 and AESV3 and RC4 for anything else; and a StmF
    that names no entry of CF is the error undefined. *)
Theorem stream_filter_of_resolved_stream caps pad d key file e s enc :
  dict_get (Trailer e) "Encrypt" = Some (ODict enc) ->
  let d' := dict_put d "StreamKey" (OString key) in
  (dict_get enc "StmF" = None \/ dict_get enc "CF" = None ->
   pdf_decrypt_stream caps pad d' file e s = (ArcfourDecode caps key file, s)) /\
  (forall f cf fd cfm,
     dict_get enc "StmF" = Some (OName f) ->
     dict_get enc "CF" = Some (ODict cf) ->
     dict_get cf f = Some (ODict fd) -> dict_get fd "CFM" = Some cfm ->
     pdf_decrypt_stream caps pad d' file e s
     = (if is_AES cfm then AESDecode caps key pad file
        else ArcfourDecode caps key file, s)) /\
  (forall f cf,
     dict_get enc "StmF" = Some (OName f) ->
     dict_get enc "CF" = Some (ODict cf) -> dict_get cf f = None ->
     pdf_decrypt_stream caps pad d' file e s = (Err undefined, s)).
Proof.
  intros HE d'. unfold pdf_decrypt_stream. subst d'. rewrite dict_get_put_same.
  run (Encrypt_ok e s _ HE). run (knownoget_ok enc "StmF" e s).
  split; [|split].
  - intros H. destruct (dict_get enc "StmF") as [f|].
    + destruct H as [H|H]; [discriminate|].
      run (knownoget_ok enc "CF" e s). rewrite H. reflexivity.
    + reflexivity.
  - intros f cf fd cfm Hf Hcf Hfd Hcfm. rewrite Hf.
    run (knownoget_ok enc "CF" e s). rewrite Hcf.
    assert (Haes : (flt <- oget_by (ODict cf) (OName f) ;;
                    cfm <- oget flt "CFM" ;; ret (is_AES cfm)) e s
                   = (Ok (is_AES cfm), s)).
    { unfold oget_by. run (oget_ok _ _ _ e s Hfd). run (oget_ok _ _ _ e s Hcfm).
      reflexivity. }
    run Haes. unfold as_string. rewrite bind_ret.
    destruct (is_AES cfm); reflexivity.
  - intros f cf Hf Hcf Hnone. rewrite Hf.
    run (knownoget_ok enc "CF" e s). rewrite Hcf.
    apply bind_err. apply bind_err. unfold oget_by, oget, get. rewrite Hnone.
    reflexivity.
Qed.

Lemma decrypt_string_head caps pad key str e s enc r :
  dict_get (Trailer e) "Encrypt" = Some (ODict enc) ->
  dict_get enc "R" = Some (OInt r) ->
  decrypt_string caps pad key str e s
  = (if r <? 4 then arc4decode caps str key
     else
       strf <- knownoget (ODict enc) "StrF" ;;
       match strf with
       | Some f =>
           if negb (name_eq f "Identity") then
             if name_eq f "StdCF" then
               cf <- (enc <- Encrypt ;; knownoget enc "CF") ;;
               aes <- match cf with
                      | Some cf =>
                          std <- oget cf "StdCF" ;;
                          cfm <- oget std "CFM" ;;
                          ret (is_AES cfm)
                      | None => ret false
                      end ;;
               if aes then aesdecode caps str key pad
               else arc4decode caps str key
             else arc4decode caps str key
           else ret str
       | None => ret str
       end) e s.
Proof.
  intros HE HR. unfold decrypt_string.
  run (Encrypt_ok e s _ HE). run (oget_ok _ _ _ e s HR).
  unfold as_int. rewrite bind_ret. reflexivity.
Qed.

(** X20. From revision 4 on a string is decrypted with AES only when StrF is
    the name StdCF: under a crypt filter of any other name, Identity
    apart, strings go through RC4 whatever the CFM of that filter, AESV2
    and AESV3 included, while pdf_decrypt_stream follows the CFM. *)
Theorem strings_use_AES_only_under_StdCF caps pad key str e s enc r f :
  dict_get (Trailer e) "Encrypt" = Some (ODict enc) ->
  dict_get enc "R" = Some (OInt r) -> 4 <= r ->
  dict_get enc "StrF" = Some (OName f) ->
  f <> "Identity"%string -> f <> "StdCF"%string ->
  decrypt_string caps pad key str e s = (rc4 caps str key, s).
Proof.
  intros HE HR Hr HF Hid Hstd.
  rewrite (decrypt_string_head caps pad key str e s enc r HE HR).
  replace (r <? 4) with false by (symmetry; apply Z.ltb_ge; lia).
  run (knownoget_ok enc "StrF" e s). rewrite HF. cbn [name_eq].
  apply String.eqb_neq in Hid, Hstd. rewrite Hid, Hstd. cbn [negb].
  apply arc4decode_rc4.
Qed.

(** X21. Below revision 4 every string goes through RC4 under the key of its
    object, so the branch is its own inverse: run on what it returned,
    with the same key, it returns the string it was given. *)
Theorem string_decryption_round_trip caps pad key str out e s enc r :
  stream_cipher caps ->
  dict_get (Trailer e) "Encrypt" = Some (ODict enc) ->
  dict_get enc "R" = Some (OInt r) -> r < 4 ->
  1 <= len key <= 16 ->
  decrypt_string caps pad key str e s = (Ok out, s) ->
  decrypt_string caps pad key out e s = (Ok str, s).
Proof.
  intros [ks [Hlen Hks]] HE HR Hr Hkey.
  rewrite !(decrypt_string_head caps pad key _ e s enc r HE HR).
  replace (r <? 4) with true by (symmetry; apply Z.ltb_lt; lia).
  rewrite !arc4decode_rc4.
  rewrite !(rc4_pass caps ks Hlen Hks key _ Hkey).
  intros H. injection H as <-. rewrite (pass_cancel ks Hlen). reflexivity.
Qed.

Lemma unknown_revision_witness :
  let d := MoreDocs.Encrypt_with "Standard" 2 7 [] in
  let e := MoreDocs.doc_of d None in
  let s' := mkState None [FormatWarning (unknown_R_warning 7);
                          FormatError Cannot_decrypt_warned; Producer] in
  (7 < 2 \/ 6 < 7) /\
  pdf_check_password Real.caps [] e Docs.st0 = (Err undefined, s') /\
  pdf_process_Encrypt Real.caps e Docs.st0 = (Err undefined, s').
Proof.
  intros d e s'.
  assert (Hr : 7 < 2 \/ 6 < 7) by (right; lia).
  split; [exact Hr|].
  destruct (unknown_revision Real.caps [] e Docs.st0 d (OName "Standard") 7
              eq_refl eq_refl Hr) as [H1 H2].
  split; [exact H1|]. apply H2; reflexivity.
Defined.

Lemma unknown_security_handler_witness :
  let d := MoreDocs.Encrypt_with "Adobe.PubSec" 2 3 [] in
  let e := MoreDocs.doc_of d (Some (chars "secret")) in
  name_eq (OName "Adobe.PubSec") "Standard" = false /\
  pdf_process_Encrypt Real.caps e Docs.st0
  = (Err undefined,
     mkState None
       [FormatWarning "   **** Warning: This file uses an unknown security handler.";
        FormatError Cannot_decrypt_warned; Producer]).
Proof.
  intros d e. split; [reflexivity|].
  exact (unknown_security_handler Real.caps e Docs.st0 d (OName "Adobe.PubSec")
           eq_refl eq_refl eq_refl).
Defined.

Lemma CF_of_wrong_type_witness :
  let d := MoreDocs.Encrypt_with "Standard" 4 4 [Docs.ent "CF" (OName "StdCF")] in
  let e := MoreDocs.doc_of d (Some (chars "secret")) in
  dict_get d "CF" = Some (OName "StdCF") /\
  pdf_process_Encrypt Real.caps e Docs.st0
  = (Err invalidfileaccess,
     mkState None [FormatError "   **** Error: CF has wrong type.";
                   FormatError Cannot_decrypt]).
Proof.
  intros d e. split; [reflexivity|].
  apply (CF_of_wrong_type Real.caps e Docs.st0 d (OName "Standard") 4 (OName "StdCF")
           eq_refl eq_refl eq_refl eq_refl); [lia|reflexivity|discriminate].
Defined.

Lemma identity_document_without_password_witness :
  let e := Docs.doc_R4 "Identity" "Identity" "EFOpen" None in
  isRequired e Docs.st0 = (Ok false, Docs.st0) /\
  exists s',
    pdf_process_Encrypt Real.caps e Docs.st0 = (Ok tt, s') /\
    FileKey s' = None /\
    List.length (diags s') = 4%nat /\
    forall objnum gen run, pdf_run_resolve Real.caps objnum gen run e s' = run None e s'.
Proof.
  intros e.
  assert (Hreq : isRequired e Docs.st0 = (Ok false, Docs.st0)) by reflexivity.
  split; [exact Hreq|].
  destruct (identity_document_without_password Real.caps e Docs.st0
              (Docs.Encrypt_R4 "Identity" "Identity" "EFOpen") (OName "Standard")
              eq_refl eq_refl eq_refl Hreq eq_refl) as [s' [H1 [H2 [H3 H4]]]].
  exists s'. split; [exact H1|]. split; [exact H2|]. split; [exact H3|].
  apply H4. reflexivity.
Defined.

Lemma r5_short_O_or_U_witness :
  let d := MoreDocs.Encrypt_with "Standard" 5 5 [] in
  let e := MoreDocs.doc_of d None in
  (len Docs.O_R3 < 40 \/ len Docs.U_R3 < 48) /\
  pdf_check_r5_password Real.caps (chars "user") e Docs.st0 = (Err rangecheck, Docs.st0).
Proof.
  intros d e.
  assert (Hs : len Docs.O_R3 < 40 \/ len Docs.U_R3 < 48) by (left; reflexivity).
  split; [exact Hs|].
  exact (r5_short_O_or_U Real.caps (chars "user") e Docs.st0 d Docs.O_R3 Docs.U_R3
           eq_refl eq_refl eq_refl Hs).
Defined.

Lemma FileKey_comes_from_a_check_witness :
  let e := Docs.doc_R3 Docs.U_R3 [] in
  (forall p enc, keeps_FileKey (check_r6_password Real.caps p enc)) /\
  FileKey_from_check Real.caps e None (pdf_process_Encrypt Real.caps e Docs.st0).
Proof.
  intros e.
  assert (H6 : forall p enc, keeps_FileKey (check_r6_password Real.caps p enc)).
  { intros p enc e0 s0. reflexivity. }
  split; [exact H6|].
  exact (FileKey_comes_from_a_check Real.caps e Docs.st0 H6).
Defined.

Lemma resolve_changes_only_StreamKey_witness :
  let e := Docs.doc_R3 Docs.U_R3 [] in
  let s := mkState (Some Docs.key_R3) [] in
  let run := fun _ : option bytes => ret (true, ODict Docs.page_stream) : M xobj in
  exists xo,
    pdf_run_resolve Real.caps 12 0 run e s = (Ok xo, s) /\
    exists k ro,
      run k e s = (Ok ro, s) /\
      (k = None <-> FileKey s = None) /\
      (xo = ro \/
       exists key d d',
         k = Some key /\
         computeobjkey Real.caps 12 0 e s = (Ok key, s) /\
         ro = (true, ODict d) /\ xo = (true, ODict d') /\
         dict_get d' "StreamKey" = Some (OString key) /\
         forall n, n <> "StreamKey"%string -> dict_get d' n = dict_get d n).
Proof.
  intros e s run. eexists. split; [vm_compute; reflexivity|].
  apply (resolve_changes_only_StreamKey Real.caps 12 0 run e s).
  vm_compute. reflexivity.
Defined.

Lemma stream_filter_of_resolved_stream_witness :
  let e := Docs.doc_R4 "StdCF" "StdCF" "DocOpen" None in
  let key := Docs.key_R3 in
  let file := zeros 32 in
  pdf_decrypt_stream Real.caps false
    (dict_put Docs.page_stream "StreamKey" (OString key)) file e Docs.st0
  = (AESDecode Real.caps key false file, Docs.st0).
Proof.
  intros e key file.
  exact (proj1 (proj2 (stream_filter_of_resolved_stream Real.caps false Docs.page_stream
                         key file e Docs.st0 (Docs.Encrypt_R4 "StdCF" "StdCF" "DocOpen")
                         eq_refl))
           "StdCF"%string
           [Docs.ent "StdCF" (ODict [Docs.ent "AuthEvent" (OName "DocOpen");
                                     Docs.ent "CFM" (OName "AESV2");
                                     Docs.ent "Length" (OInt 16)])]
           [Docs.ent "AuthEvent" (OName "DocOpen"); Docs.ent "CFM" (OName "AESV2");
            Docs.ent "Length" (OInt 16)]
           (OName "AESV2") eq_refl eq_refl eq_refl eq_refl).
Defined.

Lemma strings_use_AES_only_under_StdCF_witness :
  let enc := MoreDocs.Encrypt_R4_named "MyCF" in
  let e := MoreDocs.doc_of enc None in
  let key := Docs.key_R3 in
  let str := chars "Title" in
  decrypt_string Real.caps false key str e Docs.st0 = (rc4 Real.caps str key, Docs.st0).
Proof.
  intros enc e key str.
  apply (strings_use_AES_only_under_StdCF Real.caps false key str e Docs.st0 enc 4 "MyCF"
           eq_refl eq_refl); [lia|reflexivity|discriminate|discriminate].
Defined.

Lemma string_decryption_round_trip_witness :
  let e := Docs.doc_R3 Docs.U_R3 [] in
  let key := Docs.key_R3 in
  let str := chars "Title" in
  exists out,
    decrypt_string Real.caps false key str e Docs.st0 = (Ok out, Docs.st0) /\
    decrypt_string Real.caps false key out e Docs.st0 = (Ok str, Docs.st0).
Proof.
  intros e key str. eexists. split; [vm_compute; reflexivity|].
  apply (string_decryption_round_trip Real.caps false key str _ e Docs.st0
           (Docs.Encrypt_R3 Docs.U_R3 []) 3 Real_RC4_stream_cipher eq_refl eq_refl);
    [lia|vm_compute; intuition discriminate|vm_compute; reflexivity].
Defined.

(** * The operand stack operators *)

Import Zstack.

Ltac zb :=
  repeat match goal with
    | |- context [?a <? ?b] => destruct (Z.ltb_spec a b)
    | |- context [?a <=? ?b] => destruct (Z.leb_spec a b)
    | |- context [?a =? ?b] => destruct (Z.eqb_spec a b)
    end.

Ltac peeks :=
  unfold peek, set_block, set_osp, set_requested, store;
  cbn [osp block older ostop older_count requested];
  zb; try lia; try reflexivity; try (f_equal; lia).

Lemma to_int_small z : - 2 ^ 31 <= z < 2 ^ 31 -> to_int z = z.
Proof. intros H. unfold to_int. rewrite Z.mod_small; lia. Qed.

Lemma to_uint_small z : 0 <= z < 2 ^ 32 -> to_uint z = z.
Proof. intros H. unfold to_uint. apply Z.mod_small. lia. Qed.


Lemma to_ulong_small z : 0 <= z < 2 ^ 64 -> to_ulong z = z.
Proof. intros H. unfold to_ulong. apply Z.mod_small. lia. Qed.

Lemma to_ulong_neg z : - 2 ^ 63 <= z < 0 -> to_ulong z = z + 2 ^ 64.
Proof.
  intros H. unfold to_ulong.
  replace z with (z + 2 ^ 64 + (-1) * 2 ^ 64) at 1 by lia.
  rewrite Z.mod_add by lia. apply Z.mod_small. lia.
Qed.

Lemma load_block m p : 0 <= p -> load m p = m p.
Proof. intros H. unfold load. zb; [lia|reflexivity]. Qed.

(** ** The stack as a list *)

Lemma stack_list_length st :
  List.length (stack_list st) = Z.to_nat (ref_stack_count st).
Proof. unfold stack_list. rewrite length_map, length_seq. reflexivity. Qed.

Lemma stack_list_nth st j d :
  0 <= j < ref_stack_count st -> nth (Z.to_nat j) (stack_list st) d = peek st j.
Proof.
  intros H. unfold stack_list.
  rewrite (nth_indep _ d (peek st (Z.of_nat 0))) by (rewrite length_map, length_seq; lia).
  rewrite (map_nth (fun j => peek st (Z.of_nat j))).
  rewrite seq_nth by lia. f_equal. lia.
Qed.

Lemma stack_list_ext st st' :
  ref_stack_count st' = ref_stack_count st ->
  (forall j, 0 <= j < ref_stack_count st -> peek st' j = peek st j) ->
  stack_list st' = stack_list st.
Proof.
  intros Hc Hp. apply (nth_ext _ _ t__invalid t__invalid).
  - rewrite !stack_list_length, Hc. reflexivity.
  - intros k Hk. rewrite stack_list_length in Hk.
    rewrite <- (Nat2Z.id k). rewrite !stack_list_nth by lia. apply Hp. lia.
Qed.

Lemma stack_list_eq st l :
  List.length l = Z.to_nat (ref_stack_count st) ->
  (forall j, 0 <= j < ref_stack_count st -> peek st j = nth (Z.to_nat j) l t__invalid) ->
  stack_list st = l.
Proof.
  intros Hc Hp. apply (nth_ext _ _ t__invalid t__invalid).
  - rewrite stack_list_length, Hc. reflexivity.
  - intros k Hk. rewrite stack_list_length in Hk.
    rewrite <- (Nat2Z.id k) at 1. rewrite stack_list_nth by lia.
    rewrite Hp by lia. rewrite Nat2Z.id. reflexivity.
Qed.

Lemma stack_list_count st l :
  stack_list st = l -> ref_stack_count st = Z.of_nat (List.length l) \/
                       (ref_stack_count st < 0 /\ l = []).
Proof.
  intros <-. rewrite stack_list_length.
  destruct (Z_lt_ge_dec (ref_stack_count st) 0) as [H|H].
  - right. split; [exact H|]. unfold stack_list.
    replace (Z.to_nat (ref_stack_count st)) with O by lia. reflexivity.
  - left. lia.
Qed.

Lemma stack_list_peek st l j :
  stack_list st = l -> 0 <= j < Z.of_nat (List.length l) ->
  peek st j = nth (Z.to_nat j) l t__invalid.
Proof.
  intros H Hj. destruct (stack_list_count st l H) as [Hc|[_ ->]].
  - rewrite <- H. symmetry. apply stack_list_nth. lia.
  - cbn in Hj. lia.
Qed.

(** ** pop, exch and dup *)

Lemma peek_in_block st j : j <= osp st -> peek st j = block st (osp st - j).
Proof. intros H. unfold peek. zb; [reflexivity|lia]. Qed.

Lemma peek_older st j :
  osp st < j -> peek st j = older st (Z.to_nat (j - (osp st + 1))).
Proof. intros H. unfold peek. zb; [lia|reflexivity]. Qed.

(** X22. exch needs its two operands in the current block: with fewer there
    it returns stackunderflow and leaves the stack alone, whatever lies in
    the blocks below.  Otherwise it swaps the two topmost elements and
    nothing else, and a second exch restores the stack. *)
Theorem zexch_swaps st :
  (osp st < 1 -> zexch st = (gs_error_stackunderflow, st)) /\
  (1 <= osp st ->
   exists st',
     zexch st = (code_0, st') /\
     (forall a b l, stack_list st = a :: b :: l -> stack_list st' = b :: a :: l) /\
     exists st'', zexch st' = (code_0, st'') /\ stack_list st'' = stack_list st).
Proof.
  split.
  - intros H. unfold zexch. zb; [reflexivity|lia].
  - intros H.
    assert (Hex : forall s, 1 <= osp s ->
              exists s', zexch s = (code_0, s') /\ osp s' = osp s /\
                         ref_stack_count s' = ref_stack_count s /\
                         peek s' 0 = peek s 1 /\ peek s' 1 = peek s 0 /\
                         forall j, 2 <= j -> peek s' j = peek s j).
    { intros s Hs. unfold zexch. zb; [lia|]. eexists. split; [reflexivity|].
      split; [reflexivity|]. split; [reflexivity|].
      rewrite !load_block by lia.
      split; [|split].
      - peeks.
      - peeks.
      - intros j Hj. peeks. }
    destruct (Hex st H) as [st' [E1 [Hosp [Hc [P0 [P1 P2]]]]]].
    exists st'. split; [exact E1|]. split.
    + intros a b l Hl.
      destruct (stack_list_count st _ Hl) as [Hn|[_ Hn]]; [|discriminate].
      cbn [List.length] in Hn.
      apply stack_list_eq.
      * rewrite Hc, Hn. cbn [List.length]. lia.
      * intros j Hj. rewrite Hc in Hj.
        destruct (Z.eq_dec j 0) as [->|J0].
        { rewrite P0. rewrite (stack_list_peek st _ 1 Hl) by (cbn [List.length]; lia).
          reflexivity. }
        destruct (Z.eq_dec j 1) as [->|J1].
        { rewrite P1. rewrite (stack_list_peek st _ 0 Hl) by (cbn [List.length]; lia).
          reflexivity. }
        rewrite P2 by lia.
        rewrite (stack_list_peek st _ j Hl) by (cbn [List.length]; lia).
        replace (Z.to_nat j) with (S (S (Z.to_nat (j - 2)))) by lia. reflexivity.
    + destruct (Hex st' ltac:(lia)) as [st'' [E2 [_ [Hc' [Q0 [Q1 Q2]]]]]].
      exists st''. split; [exact E2|].
      apply stack_list_ext; [lia|].
      intros j Hj.
      destruct (Z.eq_dec j 0) as [->|J0]; [rewrite Q0, P1; reflexivity|].
      destruct (Z.eq_dec j 1) as [->|J1]; [rewrite Q1, P0; reflexivity|].
      rewrite Q2, P2 by lia. reflexivity.
Qed.

(** X23. dup fails with stackunderflow on an empty block and with
    stackoverflow, asking for one more ref, on a full one; in both cases the
    stack stays as it is.  Otherwise it pushes a copy of the topmost
    element, and pop after it restores the stack. *)
Theorem zdup_then_zpop st :
  -1 <= osp st <= ostop st ->
  (osp st < 0 -> zdup st = (gs_error_stackunderflow, st)) /\
  (0 <= osp st -> osp st = ostop st ->
   zdup st = (gs_error_stackoverflow, set_requested st 1)) /\
  (0 <= osp st < ostop st ->
   exists st',
     zdup st = (code_0, st') /\
     stack_list st' = peek st 0 :: stack_list st /\
     exists st'', zpop st' = (code_0, st'') /\ stack_list st'' = stack_list st).
Proof.
  intros Hwf. split; [|split].
  - intros H. unfold zdup. zb; try lia; reflexivity.
  - intros H0 H. unfold zdup. zb; try lia. reflexivity.
  - intros H. unfold zdup. zb; try lia.
    eexists. split; [reflexivity|].
    rewrite load_block by lia.
    match goal with |- stack_list ?s = _ /\ _ => set (st' := s) end.
    assert (Hc : ref_stack_count st' = ref_stack_count st + 1).
    { unfold ref_stack_count, st', set_block, set_osp. cbn [osp older_count]. lia. }
    assert (Hp : forall j, 0 <= j < ref_stack_count st -> peek st' (j + 1) = peek st j).
    { intros j Hj. unfold st'. peeks. }
    assert (Hp0 : peek st' 0 = peek st 0).
    { unfold st'. peeks. }
    split.
    + apply stack_list_eq.
      * cbn [List.length]. rewrite stack_list_length, Hc.
        unfold ref_stack_count. lia.
      * intros j Hj. rewrite Hc in Hj.
        destruct (Z.eq_dec j 0) as [->|J0]; [exact Hp0|].
        replace j with (j - 1 + 1) at 1 by lia. rewrite Hp by lia.
        replace (Z.to_nat j) with (S (Z.to_nat (j - 1))) by lia. cbn [nth].
        symmetry. apply stack_list_nth. lia.
    + unfold zpop. replace (osp st') with (osp st + 1) by reflexivity.
      zb; [lia|]. eexists. split; [reflexivity|].
      apply stack_list_ext.
      * unfold ref_stack_count, st', set_block, set_osp. cbn [osp older_count]. lia.
      * intros j Hj. rewrite <- Hp by lia.
        unfold st'. peeks.
Qed.

(** ** index and .argindex *)

(** X24. For an integer n on top of the current block, index fails with
    rangecheck when n is negative and with stackunderflow when fewer than
    n + 1 elements lie below it, and leaves the stack alone; otherwise it
    replaces n by the element n places below it, whether that element lies
    in the current block or in a block below, and changes nothing else. *)
Theorem zindex_spec st n l :
  wf st -> 0 <= osp st ->
  stack_list st = t_integer n :: l ->
  - 2 ^ 63 <= n < 2 ^ 63 ->
  (n < 0 -> zindex st = (gs_error_rangecheck, st)) /\
  (Z.of_nat (List.length l) <= n -> zindex st = (gs_error_stackunderflow, st)) /\
  (0 <= n < Z.of_nat (List.length l) ->
   exists st', zindex st = (code_0, st') /\
               stack_list st' = nth (Z.to_nat n) l t__invalid :: l).
Proof.
  intros [Hosp [Htop Hcnt]] H0 Hl Hn.
  destruct (stack_list_count st _ Hl) as [Hc|[_ Hc]]; [|discriminate].
  cbn [List.length] in Hc.
  assert (Hop : block st (osp st) = t_integer n).
  { pose proof (stack_list_peek st _ 0 Hl ltac:(cbn [List.length]; lia)) as Hp.
    rewrite peek_in_block in Hp by lia. rewrite Z.sub_0_r in Hp. exact Hp. }
  unfold zindex. rewrite load_block by lia. rewrite Hop.
  rewrite Z.sub_0_r. rewrite (to_ulong_small (osp st)) by lia.
  split; [|split].
  - intros Hneg. rewrite to_ulong_neg by lia. zb; try lia. reflexivity.
  - intros Hbig. rewrite to_ulong_small by lia.
    unfold ref_stack_count in Hc. zb; try lia.
    unfold ref_stack_index, ref_stack_count. 
    replace ((n + 1 <? 0) || (osp st + 1 + Z.of_nat (older_count st) <=? n + 1)) with true.
    2:{ symmetry. apply orb_true_iff. right. apply Z.leb_le. lia. }
    reflexivity.
  - intros Hin. rewrite to_ulong_small by lia.
    assert (Hfinal : forall st',
              ref_stack_count st' = ref_stack_count st ->
              peek st' 0 = peek st (n + 1) ->
              (forall j, 0 < j < ref_stack_count st -> peek st' j = peek st j) ->
              stack_list st' = nth (Z.to_nat n) l t__invalid :: l).
    { intros st' Hc' P0 P.
      apply stack_list_eq.
      - rewrite Hc', Hc. cbn [List.length]. lia.
      - intros j Hj. rewrite Hc' in Hj.
        destruct (Z.eq_dec j 0) as [->|J0].
        + rewrite P0. rewrite (stack_list_peek st _ (n + 1) Hl) by (cbn [List.length]; lia).
          replace (Z.to_nat (n + 1)) with (S (Z.to_nat n)) by lia. reflexivity.
        + rewrite P by lia.
          rewrite (stack_list_peek st _ j Hl) by (cbn [List.length]; lia).
          replace (Z.to_nat j) with (S (Z.to_nat (j - 1))) by lia. reflexivity. }
    destruct (Z.leb_spec (osp st) n) as [Hslow|Hfast].
    + zb; try lia.
      unfold ref_stack_index.
      replace ((n + 1 <? 0) || (ref_stack_count st <=? n + 1)) with false.
      2:{ symmetry. apply orb_false_iff. split; [apply Z.ltb_ge|apply Z.leb_gt]; lia. }
      zb; try lia.
      eexists. split; [reflexivity|]. apply Hfinal.
      * reflexivity.
      * cbn [load_place]. peeks.
      * intros j Hj. peeks.
    + eexists. split; [reflexivity|]. apply Hfinal.
      * reflexivity.
      * rewrite to_int_small by lia. unfold Z.lnot.
        rewrite load_block by lia.
        peeks.
      * intros j Hj. peeks.
Qed.

(** X25. .argindex is index: index returns rangecheck only for a negative
    operand, which it leaves on the stack, so the test that would turn a
    rangecheck into a stackunderflow never succeeds. *)
Theorem zargindex_is_zindex st : zargindex st = zindex st.
Proof.
  unfold zargindex. destruct (zindex st) as [c st'] eqn:E.
  destruct (code_eqb c gs_error_rangecheck) eqn:Hc; [|reflexivity].
  assert (c = gs_error_rangecheck) by (destruct c; try discriminate; reflexivity).
  subst c. cbn [andb].
  unfold zindex in E.
  destruct (load (block st) (osp st)) as [| intval | |id] eqn:Hl;
    try (cbn [check_type_failed] in E; discriminate).
  destruct (to_ulong (osp st - 0) <=? to_ulong intval); [|discriminate].
  destruct (Z.ltb_spec intval 0) as [Hneg|Hpos].
  - injection E as <-. rewrite Hl.
    destruct (Z.leb_spec 0 intval); [lia|reflexivity].
  - destruct (ref_stack_index st (intval + 1)); discriminate.
Qed.


(** ** roll within the current block *)

Lemma up_by_one_spec n : forall from m,
  0 <= from - Z.of_nat n ->
  fst (up_by_one n from m) = from - Z.of_nat n /\
  forall a, snd (up_by_one n from m) a
            = if (from - Z.of_nat n <? a) && (a <=? from) then m (a - 1) else m a.
Proof.
  induction n as [|n IH]; intros from m H.
  - cbn [up_by_one fst snd]. split; [cbn; lia|]. intros a.
    replace (Z.of_nat 0) with 0 by reflexivity.
    destruct (from - 0 <? a) eqn:E1; destruct (a <=? from) eqn:E2; try reflexivity.
    apply Z.ltb_lt in E1. apply Z.leb_le in E2. lia.
  - cbn [up_by_one]. destruct (IH (from - 1) (store m from (load m (from - 1))) ltac:(lia))
      as [H1 H2].
    split; [rewrite H1; lia|]. intros a. rewrite H2.
    rewrite load_block by lia. unfold store.
    replace (from - 1 - Z.of_nat n) with (from - Z.of_nat (S n)) by lia.
    cbn [andb]. zb; cbn [andb]; try lia; try reflexivity; try (f_equal; lia).
Qed.

Lemma down_by_one_spec n : forall to m,
  0 <= to ->
  fst (down_by_one n to m) = to + Z.of_nat n /\
  forall a, snd (down_by_one n to m) a
            = if (to <=? a) && (a <? to + Z.of_nat n) then m (a + 1) else m a.
Proof.
  induction n as [|n IH]; intros to m H.
  - cbn [down_by_one fst snd]. split; [cbn; lia|]. intros a.
    replace (Z.of_nat 0) with 0 by reflexivity.
    destruct (to <=? a) eqn:E1; destruct (a <? to + 0) eqn:E2; try reflexivity.
    apply Z.leb_le in E1. apply Z.ltb_lt in E2. lia.
  - cbn [down_by_one]. destruct (IH (to + 1) (store m to (load m (to + 1))) ltac:(lia))
      as [H1 H2].
    split; [rewrite H1; lia|]. intros a. rewrite H2.
    rewrite load_block by lia. unfold store.
    replace (to + 1 + Z.of_nat n) with (to + Z.of_nat (S n)) by lia.
    zb; cbn [andb]; try lia; try reflexivity; try (f_equal; lia).
Qed.

Lemma move_up_spec n : forall to from m,
  from <= to -> 0 <= from - Z.of_nat n + 1 ->
  snd (fst (move_up n to from m)) = from - Z.of_nat n /\
  forall a, snd (move_up n to from m) a
            = if (to - Z.of_nat n <? a) && (a <=? to) then m (a - (to - from)) else m a.
Proof.
  induction n as [|n IH]; intros to from m H H0.
  - cbn [move_up fst snd]. split; [cbn; lia|]. intros a.
    replace (Z.of_nat 0) with 0 by reflexivity.
    destruct (to - 0 <? a) eqn:E1; destruct (a <=? to) eqn:E2; try reflexivity.
    apply Z.ltb_lt in E1. apply Z.leb_le in E2. lia.
  - cbn [move_up].
    destruct (IH (to - 1) (from - 1) (store m to (load m from)) ltac:(lia) ltac:(lia))
      as [H1 H2].
    split; [rewrite H1; lia|]. intros a. rewrite H2.
    rewrite load_block by lia. unfold store.
    replace (to - 1 - Z.of_nat n) with (to - Z.of_nat (S n)) by lia.
    replace (to - 1 - (from - 1)) with (to - from) by lia.
    zb; cbn [andb]; try lia; try reflexivity; try (f_equal; lia).
Qed.

Lemma move_down_spec n : forall to from m,
  to <= from -> 0 <= to ->
  forall a, snd (move_down n to from m) a
            = if (to <=? a) && (a <? to + Z.of_nat n) then m (a + (from - to)) else m a.
Proof.
  induction n as [|n IH]; intros to from m H H0 a.
  - cbn [move_down fst snd].
    replace (Z.of_nat 0) with 0 by reflexivity.
    destruct (to <=? a) eqn:E1; destruct (a <? to + 0) eqn:E2; try reflexivity.
    apply Z.leb_le in E1. apply Z.ltb_lt in E2. lia.
  - cbn [move_down].
    rewrite (IH (to + 1) (from + 1) (store m to (load m from)) ltac:(lia) ltac:(lia)).
    rewrite load_block by lia. unfold store.
    replace (to + 1 + Z.of_nat n) with (to + Z.of_nat (S n)) by lia.
    replace (from + 1 - (to + 1)) with (from - to) by lia.
    zb; cbn [andb]; try lia; try reflexivity; try (f_equal; lia).
Qed.

Lemma rem_neg_bound a b : a < 0 -> 0 < b -> - b < Z.rem a b <= 0.
Proof.
  intros Ha Hb. pose proof (Z.rem_bound_pos (- a) b ltac:(lia) Hb) as H.
  rewrite Z.rem_opp_l in H by lia. lia.
Qed.

(** The reduction of the amount to the range of the count, as the part
    within the block does it, is the modulus. *)
Lemma fast_mod count md :
  1 < count ->
  (if md <? 0 then
     if md + count <? 0 then
       if c_rem (md + count) count <? 0 then c_rem (md + count) count + count
       else c_rem (md + count) count
     else md + count
   else if count <=? md then c_rem md count
   else md) = md mod count.
Proof.
  intros Hc. unfold c_rem.
  destruct (Z.ltb_spec md 0) as [Hneg|Hpos].
  - destruct (Z.ltb_spec (md + count) 0) as [Hneg2|Hpos2].
    + pose proof (rem_neg_bound (md + count) count ltac:(lia) ltac:(lia)) as Hb.
      assert (Hm : (md + count) mod count = md mod count).
      { replace (md + count) with (md + 1 * count) by lia. apply Z.mod_add. lia. }
      destruct (Z.ltb_spec (Z.rem (md + count) count) 0) as [Hr|Hr].
      * rewrite <- Hm.
        apply (Z.mod_unique_pos _ _ ((md + count) ÷ count - 1)); [lia|].
        pose proof (Z.quot_rem' (md + count) count). lia.
      * rewrite <- Hm.
        apply (Z.mod_unique_pos _ _ ((md + count) ÷ count)); [lia|].
        pose proof (Z.quot_rem' (md + count) count). lia.
    + apply (Z.mod_unique_pos _ _ (-1)); lia.
  - destruct (Z.leb_spec count md) as [Hbig|Hsmall].
    + apply Z.rem_mod_nonneg; lia.
    + symmetry. apply Z.mod_small. lia.
Qed.

(** The same for the part that goes over the blocks. *)
Lemma slow_mod count md :
  1 < count ->
  (if count <=? md then c_rem md count
   else if md <? 0 then
     if c_rem md count <? 0 then c_rem md count + count else c_rem md count
   else md) = md mod count.
Proof.
  intros Hc. unfold c_rem.
  destruct (Z.leb_spec count md) as [Hbig|Hsmall].
  - apply Z.rem_mod_nonneg; lia.
  - destruct (Z.ltb_spec md 0) as [Hneg|Hpos].
    + pose proof (rem_neg_bound md count ltac:(lia) ltac:(lia)) as Hb.
      destruct (Z.ltb_spec (Z.rem md count) 0) as [Hr|Hr].
      * apply (Z.mod_unique_pos _ _ (md ÷ count - 1)); [lia|].
        pose proof (Z.quot_rem' md count). lia.
      * apply (Z.mod_unique_pos _ _ (md ÷ count)); [lia|].
        pose proof (Z.quot_rem' md count). lia.
    + symmetry. apply Z.mod_small. lia.
Qed.

Lemma add_mod_cases j i n :
  0 <= j < n ->
  (j + i) mod n = if j + i mod n <? n then j + i mod n else j + i mod n - n.
Proof.
  intros Hj. pose proof (Z.mod_pos_bound i n ltac:(lia)) as Hr.
  rewrite <- (Z.add_mod_idemp_r j i n) by lia.
  destruct (Z.ltb_spec (j + i mod n) n) as [H|H].
  - apply Z.mod_small. lia.
  - symmetry. apply (Z.mod_unique_pos _ _ 1); lia.
Qed.

(** A count of 0 or 1: the operands are popped and nothing moves. *)
Lemma rolled_pop st n i :
  n <= 1 -> 0 <= n -> rolled n i st (set_osp st (osp st - 2)).
Proof.
  intros Hn H0. split; [|split].
  - unfold ref_stack_count, set_osp. cbn [osp older_count]. lia.
  - intros j Hj. assert (j = 0) by lia. subst j. assert (n = 1) by lia. subst n.
    rewrite Z.mod_1_r. peeks.
  - intros j Hj. peeks.
Qed.

(** Within the block: the rotation, or stackoverflow when the two block
    moves lack the room above the operands, which is the smaller of the
    amount and of its complement in the count. *)
Lemma zroll_in_block st n i0 :
  wf st -> 1 <= osp st ->
  block st (osp st) = t_integer i0 ->
  block st (osp st - 1) = t_integer n ->
  0 <= n <= osp st - 1 ->
  let i := to_int i0 in
  let r := i mod n in
  let k := if r <=? n / 2 then r else n - r in
  (n <= 1 \/ i = 1 \/ i = -1 \/ k < ostop st - osp st ->
   exists st', zroll st = Some (code_0, st') /\ rolled n i st st') /\
  (1 < n -> i <> 1 -> i <> -1 -> ostop st - osp st <= k ->
   zroll st = Some (gs_error_stackoverflow, set_requested st k)).
Proof.
  intros [Hosp [Htop Hcnt]] H1 Hop Hop1 Hn. cbv zeta.
  remember (to_int i0) as i eqn:Ei.
  set (r := i mod n). set (k := if r <=? n / 2 then r else n - r).
  assert (Hhead : zroll st =
    let op := osp st in
    let count := n in
    if count <=? 1 then Some (code_0, set_osp st (osp st - 2))
    else
      let md := i in
      if md =? 1 then
        let st := set_osp st (osp st - 2) in
        let op := op - 2 in
        let top := load (block st) op in
        let (from, m) := up_by_one (Z.to_nat (count - 1)) op (block st) in
        Some (code_0, set_block st (store m from top))
      else if md =? -1 then
        let st := set_osp st (osp st - 2) in
        let op := op - 2 in
        let to := op - count + 1 in
        let bot := load (block st) to in
        let (to, m) := down_by_one (Z.to_nat (count - 1)) to (block st) in
        Some (code_0, set_block st (store m to bot))
      else
        let md := i mod n in
        if md <=? Z.shiftr count 1 then
          if ostop st - op <=? md
          then Some (gs_error_stackoverflow, set_requested st md)
          else
            let st := set_osp st (osp st - 2) in
            let op := op - 2 in
            let '(_, from, m) := move_up (Z.to_nat count) (op + md) op (block st) in
            Some (code_0, set_block st (memcpy m (from + 1) (op + 1) md))
        else
          let md := count - md in
          if ostop st - op <=? md
          then Some (gs_error_stackoverflow, set_requested st md)
          else
            let st := set_osp st (osp st - 2) in
            let op := op - 2 in
            let to := op - count + 1 in
            let m := memcpy (block st) (op + 1) to md in
            let '(_, _, m) := move_down (Z.to_nat count) to (to + md) m in
            Some (code_0, set_block st m)).
  { unfold zroll. rewrite !load_block by lia. rewrite Hop, Hop1.
    rewrite Z.sub_0_r. rewrite !to_uint_small by lia.
    destruct (Z.ltb_spec (osp st - 1) n) as [Hslow|_]; [lia|].
    rewrite (to_int_small n) by lia. rewrite <- Ei. cbv zeta.
    destruct (Z.leb_spec n 1) as [Hle|Hgt]; [reflexivity|].
    destruct (Z.eqb_spec i 1) as [E1|N1]; [reflexivity|].
    destruct (Z.eqb_spec i (-1)) as [E2|N2]; [reflexivity|].
    rewrite (fast_mod n i Hgt). reflexivity. }
  rewrite Hhead. clear Hhead. cbv zeta.
  assert (Hshift : Z.shiftr n 1 = n / 2).
  { rewrite Z.shiftr_div_pow2 by lia. reflexivity. }
  rewrite Hshift.
  destruct (Z.leb_spec n 1) as [Hle|Hgt].
  { split.
    - intros _. eexists. split; [reflexivity|]. apply rolled_pop; lia.
    - intros. lia. }
  assert (Hr : 0 <= r < n) by (apply Z.mod_pos_bound; lia).
  pose proof (Z.div_pos n 2 ltac:(lia) ltac:(lia)) as Hhalf.
  assert (Hhalf2 : n / 2 < n) by (apply Z.div_lt; lia).
  assert (Hcount : forall m, ref_stack_count (set_block (set_osp st (osp st - 2)) m)
                             = ref_stack_count st - 2).
  { intros m. unfold ref_stack_count, set_block, set_osp. cbn [osp older_count]. lia. }
  assert (Hbelow : forall m,
            (forall a, a <= osp st - 2 - n -> m a = block st a) ->
            forall j, n <= j < ref_stack_count st - 2 ->
                      peek (set_block (set_osp st (osp st - 2)) m) j = peek st (j + 2)).
  { intros m Hm j Hj. unfold peek, set_block, set_osp. cbn [osp block older].
    zb; try lia; try (f_equal; lia). rewrite Hm by lia. f_equal. lia. }
  assert (Hrolled : forall m,
            (forall a, a <= osp st - 2 - n -> m a = block st a) ->
            (forall o, 0 <= o < n ->
               m (osp st - 2 - n + 1 + o)
               = block st (osp st - 2 - n + 1
                           + if o <? r then o - r + n else o - r)) ->
            rolled n i st (set_block (set_osp st (osp st - 2)) m)).
  { intros m Hm Hgrp. split; [apply Hcount|]. split.
    - intros j Hj.
      rewrite (add_mod_cases j i n Hj). fold r.
      rewrite !peek_in_block by (cbn [osp set_block set_osp]; zb; lia).
      unfold set_block, set_osp. cbn [osp block].
      replace (osp st - 2 - j) with (osp st - 2 - n + 1 + (n - 1 - j)) by lia.
      rewrite Hgrp by lia. zb; try lia; f_equal; lia.
    - intros j Hj. rewrite Hcount in Hj. apply Hbelow; [exact Hm|lia]. }
  destruct (Z.eqb_spec i 1) as [E1|N1].
  { split; [|intros; lia]. intros _.
    assert (Hr1 : r = 1) by (unfold r; rewrite E1; apply Z.mod_small; lia).
    cbn [block set_osp osp].
    destruct (up_by_one_spec (Z.to_nat (n - 1)) (osp st - 2) (block st) ltac:(lia))
      as [Hf Hm].
    destruct (up_by_one (Z.to_nat (n - 1)) (osp st - 2) (block st)) as [from m].
    cbn [fst snd] in Hf, Hm. eexists. split; [reflexivity|].
    rewrite load_block by lia. apply Hrolled.
    - intros a Ha. unfold store. rewrite Hm. zb; cbn [andb]; try lia; reflexivity.
    - intros o Ho. unfold store. rewrite Hm. rewrite Hr1.
      zb; cbn [andb]; try lia; f_equal; lia. }
  destruct (Z.eqb_spec i (-1)) as [E2|N2].
  { split; [|intros; lia]. intros _.
    assert (Hr1 : r = n - 1).
    { unfold r. rewrite E2. symmetry. apply (Z.mod_unique_pos _ _ (-1)); lia. }
    cbn [block set_osp osp].
    destruct (down_by_one_spec (Z.to_nat (n - 1)) (osp st - 2 - n + 1) (block st)
                ltac:(lia)) as [Hf Hm].
    destruct (down_by_one (Z.to_nat (n - 1)) (osp st - 2 - n + 1) (block st)) as [to m].
    cbn [fst snd] in Hf, Hm. eexists. split; [reflexivity|].
    rewrite load_block by lia. apply Hrolled.
    - intros a Ha. unfold store. rewrite Hm. zb; cbn [andb]; try lia; reflexivity.
    - intros o Ho. unfold store. rewrite Hm. rewrite Hr1.
      zb; cbn [andb]; try lia; f_equal; lia. }
  fold r. unfold k.
  destruct (Z.leb_spec r (n / 2)) as [Hup|Hdown].
  - destruct (Z.leb_spec (ostop st - osp st) r) as [Hfull|Hroom].
    + split; [intros [H|[H|[H|H]]]; lia|]. intros; reflexivity.
    + split; [|intros; lia]. intros _.
      cbn [block set_osp osp].
      destruct (move_up_spec (Z.to_nat n) (osp st - 2 + r) (osp st - 2) (block st)
                  ltac:(lia) ltac:(lia)) as [Hf Hm].
      destruct (move_up (Z.to_nat n) (osp st - 2 + r) (osp st - 2) (block st))
        as [[to from] m].
      cbn [fst snd] in Hf, Hm. eexists. split; [reflexivity|].
      apply Hrolled.
      * intros a Ha. unfold memcpy. rewrite !Hm.
        zb; cbn [andb]; try lia; reflexivity.
      * intros o Ho. unfold memcpy. rewrite !Hm.
        zb; cbn [andb]; try lia; f_equal; lia.
  - destruct (Z.leb_spec (ostop st - osp st) (n - r)) as [Hfull|Hroom].
    + split; [intros [H|[H|[H|H]]]; lia|]. intros; reflexivity.
    + split; [|intros; lia]. intros _.
      cbn [block set_osp osp].
      pose proof (move_down_spec (Z.to_nat n) (osp st - 2 - n + 1)
                    (osp st - 2 - n + 1 + (n - r))
                    (memcpy (block st) (osp st - 2 + 1) (osp st - 2 - n + 1) (n - r))
                    ltac:(lia) ltac:(lia)) as Hm.
      destruct (move_down (Z.to_nat n) (osp st - 2 - n + 1)
                  (osp st - 2 - n + 1 + (n - r))
                  (memcpy (block st) (osp st - 2 + 1) (osp st - 2 - n + 1) (n - r)))
        as [[to from] m].
      cbn [fst snd] in Hm. eexists. split; [reflexivity|].
      apply Hrolled.
      * intros a Ha. rewrite Hm. unfold memcpy.
        zb; cbn [andb]; try lia; reflexivity.
      * intros o Ho. rewrite Hm. unfold memcpy.
        zb; cbn [andb]; try lia; f_equal; lia.
Qed.

(** ** roll over the blocks: the chains of the rotation *)

Section Orbits.

Variables c m : Z.
Hypothesis Hc : 1 < c.
Hypothesis Hm : 0 <= m < c.

Variables g L : Z.
Hypothesis Hg : g = Z.gcd c m.
Hypothesis HL : L = c / g.

Lemma orbit_gcd_pos : 0 < g.
Proof.
  pose proof (Z.gcd_nonneg c m) as H. rewrite <- Hg in H.
  destruct (Z.eq_dec g 0) as [E|E]; [|lia].
  rewrite Hg in E. apply Z.gcd_eq_0_l in E. lia.
Qed.

Lemma orbit_count : c = g * L.
Proof.
  pose proof orbit_gcd_pos. rewrite HL.
  apply Z.div_exact; [lia|]. apply Z.mod_divide; [lia|].
  rewrite Hg. apply Z.gcd_divide_l.
Qed.

Lemma orbit_length_pos : 0 < L.
Proof. pose proof orbit_gcd_pos. pose proof orbit_count. nia. Qed.

Lemma orbit_gcd_le : g <= c.
Proof. pose proof orbit_gcd_pos. pose proof orbit_count. pose proof orbit_length_pos. nia. Qed.

Lemma orbit_amount : m = g * (m / g).
Proof.
  pose proof orbit_gcd_pos.
  apply Z.div_exact; [lia|]. apply Z.mod_divide; [lia|].
  rewrite Hg. apply Z.gcd_divide_r.
Qed.

Lemma orbit_coprime : Z.gcd L (m / g) = 1.
Proof. pose proof orbit_gcd_pos. rewrite HL. apply Z.gcd_div_gcd; [lia|exact Hg]. Qed.

Lemma orbit_step i s : ((i + s * m) mod c + m) mod c = (i + (s + 1) * m) mod c.
Proof. rewrite Z.add_mod_idemp_l by lia. f_equal. lia. Qed.

(** A chain comes back to its start after L steps... *)
Lemma orbit_return i : 0 <= i < c -> (i + L * m) mod c = i.
Proof.
  intros Hi. rewrite orbit_amount.
  replace (i + L * (g * (m / g))) with (i + (m / g) * (g * L)) by lia.
  rewrite <- orbit_count. rewrite Z.mod_add by lia. apply Z.mod_small. lia.
Qed.

(** ... and visits L different places before. *)
Lemma orbit_injective i s s' :
  0 <= s < L -> 0 <= s' < L ->
  (i + s * m) mod c = (i + s' * m) mod c -> s = s'.
Proof.
  intros Hs Hs' E.
  assert (Hdiv : (c | (s - s') * m)).
  { exists ((i + s * m) / c - (i + s' * m) / c).
    pose proof (Z.div_mod (i + s * m) c ltac:(lia)).
    pose proof (Z.div_mod (i + s' * m) c ltac:(lia)). lia. }
  pose proof orbit_gcd_pos as Hg0.
  rewrite orbit_amount in Hdiv. rewrite orbit_count in Hdiv at 1.
  replace ((s - s') * (g * (m / g))) with (g * ((m / g) * (s - s'))) in Hdiv by lia.
  apply Z.mul_divide_cancel_l in Hdiv; [|lia].
  apply Z.gauss in Hdiv; [|apply orbit_coprime].
  destruct Hdiv as [q Hq].
  assert (q = 0) by nia. subst q. lia.
Qed.

Lemma orbit_residue i s : 0 <= i < g -> ((i + s * m) mod c) mod g = i.
Proof.
  intros Hi. pose proof orbit_gcd_pos.
  rewrite Z.mod_mod_divide by (rewrite Hg; apply Z.gcd_divide_l).
  rewrite orbit_amount.
  replace (i + s * (g * (m / g))) with (i + (s * (m / g)) * g) by lia.
  rewrite Z.mod_add by lia. apply Z.mod_small. lia.
Qed.

(** The chain of i visits every place of the residue of i. *)
Lemma orbit_covers i x :
  0 <= i < g -> 0 <= x < c -> x mod g = i ->
  exists s, 0 <= s < L /\ x = (i + s * m) mod c.
Proof.
  intros Hi Hx Hres.
  pose proof orbit_gcd_pos as Hg0. pose proof orbit_length_pos as HL0.
  destruct (Z.gcd_bezout c m g (eq_sym Hg)) as [u [v Huv]].
  exists ((x / g * v) mod L). split; [apply Z.mod_pos_bound; lia|].
  pose proof (Z.div_mod x g ltac:(lia)) as Hxg. rewrite Hres in Hxg.
  pose proof (Z.div_mod (x / g * v) L ltac:(lia)) as Hs.
  apply (Z.mod_unique_pos _ _ (- (x / g * v / L) * (m / g) - x / g * u)); [lia|].
  pose proof orbit_count as Hcount. pose proof orbit_amount as Ham.
  set (q := x / g) in *. set (w := q * v / L) in *. set (s := (q * v) mod L) in *.
  set (m' := m / g) in *.
  assert (Hsm : s * m = q * v * m - L * w * m) by nia.
  assert (HLm : L * m = c * m') by nia.
  assert (Hqg : q * g = q * u * c + q * v * m) by nia.
  nia.
Qed.


Lemma ref_stack_index_ok st idx :
  -1 <= osp st -> 0 <= idx < ref_stack_count st ->
  exists pl,
    ref_stack_index st idx = Some pl /\
    load_place st pl = peek st idx /\
    forall v,
      same_shape st (store_place st pl v) /\
      forall j, 0 <= j ->
        peek (store_place st pl v) j = if j =? idx then v else peek st j.
Proof.
  intros Hosp Hidx. unfold ref_stack_index.
  replace ((idx <? 0) || (ref_stack_count st <=? idx)) with false.
  2:{ symmetry. apply orb_false_iff. split; [apply Z.ltb_ge|apply Z.leb_gt]; lia. }
  destruct (Z.leb_spec idx (osp st)) as [Hin|Hold].
  - eexists. split; [reflexivity|]. cbn [load_place store_place].
    rewrite load_block by lia. split; [symmetry; apply peek_in_block; lia|].
    intros v. split; [repeat split|]. intros j Hj. peeks.
  - eexists. split; [reflexivity|]. cbn [load_place store_place].
    split; [symmetry; apply peek_older; lia|].
    intros v. split; [repeat split|]. intros j Hj.
    unfold peek. cbn [osp block older]. 
    destruct (Z.leb_spec j (osp st)) as [H1|H1]; destruct (Z.eqb_spec j idx) as [H2|H2];
      try lia; try reflexivity.
    + subst j. rewrite Nat.eqb_refl. reflexivity.
    + destruct (Nat.eqb_spec (Z.to_nat (j - (osp st + 1))) (Z.to_nat (idx - (osp st + 1))));
        [lia|reflexivity].
Qed.

Lemma ref_stack_index_shape st st' idx :
  same_shape st st' -> ref_stack_index st' idx = ref_stack_index st idx.
Proof.
  intros [H1 [H2 [H3 H4]]]. unfold ref_stack_index, ref_stack_count.
  rewrite H1, H3. reflexivity.
Qed.

Lemma same_shape_refl st : same_shape st st.
Proof. repeat split. Qed.

Lemma same_shape_trans st1 st2 st3 :
  same_shape st1 st2 -> same_shape st2 st3 -> same_shape st1 st3.
Proof.
  intros [A1 [A2 [A3 A4]]] [B1 [B2 [B3 B4]]]. repeat split; congruence.
Qed.

Lemma same_shape_count st st' :
  same_shape st st' -> ref_stack_count st' = ref_stack_count st.
Proof. intros [H1 [H2 [H3 H4]]]. unfold ref_stack_count. rewrite H1, H3. reflexivity. Qed.

Hypothesis Hsize : c <= 2 ^ 30.

(** One chain, from its step [t] on. *)
Lemma chain_steps i :
  0 <= i < c ->
  forall (r : nat) t fuel lft elt st,
    Z.of_nat r = L - 1 - t -> 0 <= t -> (r < fuel)%nat ->
    -1 <= osp st -> c + 2 <= ref_stack_count st ->
    ref_stack_index st ((i + t * m) mod c + 2) = Some elt ->
    exists elt' st',
      chain fuel c m i ((i + t * m) mod c) lft elt st
      = Some (lft - Z.of_nat r, elt', st') /\
      same_shape st st' /\
      ref_stack_index st' ((i + (L - 1) * m) mod c + 2) = Some elt' /\
      (forall s, t <= s < L - 1 ->
         peek st' ((i + s * m) mod c + 2) = peek st ((i + (s + 1) * m) mod c + 2)) /\
      (forall y, 0 <= y ->
         (forall s, t <= s < L - 1 -> y <> (i + s * m) mod c + 2) ->
         peek st' y = peek st y).
Proof.
  intros Hi. pose proof orbit_length_pos as HLpos.
  assert (Hk : forall t, c_rem (to_int ((i + t * m) mod c + m)) c = (i + (t + 1) * m) mod c).
  { intros t. pose proof (Z.mod_pos_bound (i + t * m) c ltac:(lia)).
    rewrite to_int_small by lia. unfold c_rem.
    rewrite Z.rem_mod_nonneg by lia. apply orbit_step. }
  induction r as [|r IH]; intros t fuel lft elt st Hr Ht Hfuel Hosp Hcnt Helt.
  - destruct fuel as [|fuel]; [lia|]. cbn [chain]. rewrite Hk.
    replace (t + 1) with L by lia. rewrite (orbit_return i Hi), Z.eqb_refl.
    exists elt, st. split; [f_equal; f_equal; f_equal; lia|].
    split; [apply same_shape_refl|].
    split; [replace (L - 1) with t by lia; exact Helt|].
    split; [intros s Hs; lia|]. intros; reflexivity.
  - destruct fuel as [|fuel]; [lia|]. cbn [chain]. rewrite Hk.
    assert (Hne : (i + (t + 1) * m) mod c <> i).
    { intros E. assert (t + 1 = 0); [|lia].
      apply (orbit_injective i); [lia|lia|].
      rewrite E. replace (i + 0 * m) with i by lia. symmetry. apply Z.mod_small. lia. }
    destruct (Z.eqb_spec ((i + (t + 1) * m) mod c) i) as [E|_]; [contradiction|].
    pose proof (Z.mod_pos_bound (i + (t + 1) * m) c ltac:(lia)) as Hkb.
    pose proof (Z.mod_pos_bound (i + t * m) c ltac:(lia)) as Hjb.
    destruct (ref_stack_index_ok st ((i + (t + 1) * m) mod c + 2) Hosp ltac:(lia))
      as [next [Hnext [Hload _]]].
    rewrite Hnext.
    destruct (ref_stack_index_ok st ((i + t * m) mod c + 2) Hosp ltac:(lia))
      as [elt0 [Helt0 [_ Hstore]]].
    rewrite Helt in Helt0. injection Helt0 as <-.
    destruct (Hstore (load_place st next)) as [Hshape Hpeek].
    set (st1 := store_place st elt (load_place st next)) in *.
    destruct (IH (t + 1) fuel (lft - 1) next st1 ltac:(lia) ltac:(lia) ltac:(lia))
      as [elt' [st' [Hchain [Hshape' [Hidx' [Horb Hrest]]]]]].
    + destruct Hshape as [-> _]. exact Hosp.
    + rewrite (same_shape_count _ _ Hshape). exact Hcnt.
    + rewrite (ref_stack_index_shape _ _ _ Hshape). exact Hnext.
    + exists elt', st'. split; [rewrite Hchain; f_equal; f_equal; f_equal; lia|].
      split; [eapply same_shape_trans; eassumption|].
      split; [exact Hidx'|]. split.
      * intros s Hs. destruct (Z.eq_dec s t) as [->|Hst].
        -- rewrite Hrest; [| lia |].
           ++ rewrite Hpeek by lia. rewrite Z.eqb_refl. exact Hload.
           ++ intros s' Hs' E. assert (t = s'); [|lia].
              apply (orbit_injective i); [lia|lia|lia].
        -- pose proof (Z.mod_pos_bound (i + (s + 1) * m) c ltac:(lia)).
           rewrite Horb by lia. rewrite Hpeek by lia.
           destruct (Z.eqb_spec ((i + (s + 1) * m) mod c + 2) ((i + t * m) mod c + 2))
             as [E|_]; [|reflexivity].
           assert (s + 1 = t); [|lia].
           apply (orbit_injective i); [lia|lia|lia].
      * intros y Hy Hny. rewrite Hrest; [|exact Hy|].
        -- rewrite Hpeek by exact Hy.
           destruct (Z.eqb_spec y ((i + t * m) mod c + 2)) as [E|_]; [|reflexivity].
           exfalso. apply (Hny t); [lia|exact E].
        -- intros s Hs. apply Hny. lia.
Qed.

(** The chains from [i] on.  [st0] is the stack before the first. *)
Lemma chains_steps st0 :
  -1 <= osp st0 -> c + 2 <= ref_stack_count st0 ->
  forall (r : nat) i fuel st,
    Z.of_nat r = g - i -> 0 <= i -> (r <= fuel)%nat ->
    same_shape st0 st ->
    (forall x, 0 <= x < c ->
       peek st (x + 2) = if x mod g <? i then peek st0 ((x + m) mod c + 2)
                         else peek st0 (x + 2)) ->
    (forall y, 0 <= y -> y < 2 \/ c + 2 <= y -> peek st y = peek st0 y) ->
    exists st',
      chains fuel c m i (c - i * L) st = Some st' /\
      same_shape st0 st' /\
      (forall x, 0 <= x < c -> peek st' (x + 2) = peek st0 ((x + m) mod c + 2)) /\
      (forall y, 0 <= y -> y < 2 \/ c + 2 <= y -> peek st' y = peek st0 y).
Proof.
  intros Hosp0 Hcnt0.
  pose proof orbit_length_pos as HLpos. pose proof orbit_gcd_pos as Hgpos.
  pose proof orbit_count as Hcount. pose proof orbit_gcd_le as Hgle.
  induction r as [|r IH]; intros i fuel st Hr Hi Hfuel Hshape Hin Hout.
  - assert (i = g) by lia. subst i.
    replace (c - g * L) with 0 by lia.
    destruct fuel; cbn [chains]; rewrite Z.eqb_refl.
    + exists st. split; [reflexivity|]. split; [exact Hshape|]. split; [|exact Hout].
      intros x Hx. rewrite Hin by exact Hx.
      pose proof (Z.mod_pos_bound x g ltac:(lia)).
      destruct (Z.ltb_spec (x mod g) g); [reflexivity|lia].
    + exists st. split; [reflexivity|]. split; [exact Hshape|]. split; [|exact Hout].
      intros x Hx. rewrite Hin by exact Hx.
      pose proof (Z.mod_pos_bound x g ltac:(lia)).
      destruct (Z.ltb_spec (x mod g) g); [reflexivity|lia].
  - assert (Hig : 0 <= i < g) by lia.
    assert (Hic : 0 <= i < c) by lia.
    assert (Hleft : c - i * L <> 0) by nia.
    destruct fuel as [|fuel]; [lia|]. cbn [chains].
    destruct (Z.eqb_spec (c - i * L) 0) as [E|_]; [contradiction|].
    assert (Hosp : -1 <= osp st) by (destruct Hshape as [-> _]; exact Hosp0).
    assert (Hcnt : c + 2 <= ref_stack_count st)
      by (rewrite (same_shape_count _ _ Hshape); exact Hcnt0).
    destruct (ref_stack_index_ok st (i + 2) Hosp ltac:(lia)) as [elt [Helt [Hsave _]]].
    rewrite Helt.
    assert (Hi0 : (i + 0 * m) mod c = i) by (rewrite Z.mul_0_l, Z.add_0_r; apply Z.mod_small; lia).
    destruct (chain_steps i Hic (Z.to_nat (L - 1)) 0 (S (Z.to_nat c)) (c - i * L - 1) elt st
                ltac:(lia) ltac:(lia) ltac:(nia) Hosp Hcnt)
      as [elt' [st1 [Hchain [Hshape1 [Hidx1 [Horb Hrest]]]]]].
    { rewrite Hi0. exact Helt. }
    rewrite Hi0 in Hchain. rewrite Hchain.
    assert (Hosp1 : -1 <= osp st1) by (destruct Hshape1 as [-> _]; exact Hosp).
    assert (Hcnt1 : c + 2 <= ref_stack_count st1)
      by (rewrite (same_shape_count _ _ Hshape1); exact Hcnt).
    pose proof (Z.mod_pos_bound (i + (L - 1) * m) c ltac:(lia)) as Hlast.
    destruct (ref_stack_index_ok st1 ((i + (L - 1) * m) mod c + 2) Hosp1 ltac:(lia))
      as [elt0 [Helt0 [_ Hstore]]].
    rewrite Hidx1 in Helt0. injection Helt0 as <-.
    destruct (Hstore (load_place st elt)) as [Hshape2 Hpeek2].
    set (st2 := store_place st1 elt' (load_place st elt)) in *.
    destruct (IH (i + 1) fuel st2 ltac:(lia) ltac:(lia) ltac:(lia)) as [st' [Hch [Hsh [Hfin Hfout]]]].
    + eapply same_shape_trans; [exact Hshape|].
      eapply same_shape_trans; eassumption.
    + intros x Hx. rewrite Hpeek2 by lia.
      pose proof (Z.mod_pos_bound x g ltac:(lia)) as Hxg.
      destruct (Z.eq_dec (x mod g) i) as [Hres|Hres].
      * destruct (Z.ltb_spec (x mod g) (i + 1)) as [_|Hge]; [|lia].
        destruct (orbit_covers i x Hig Hx Hres) as [s [Hs Hxs]].
        assert (Hnext : (x + m) mod c = (i + (s + 1) * m) mod c).
        { rewrite Hxs. apply orbit_step. }
        assert (Hunproc : forall s', peek st ((i + s' * m) mod c + 2)
                                     = peek st0 ((i + s' * m) mod c + 2)).
        { intros s'. pose proof (Z.mod_pos_bound (i + s' * m) c ltac:(lia)).
          rewrite Hin by lia. rewrite (orbit_residue i s' Hig).
          destruct (Z.ltb_spec i i); [lia|reflexivity]. }
        destruct (Z.eq_dec s (L - 1)) as [Hs1|Hs1].
        -- subst s. rewrite Hnext. rewrite Hxs, Z.eqb_refl. rewrite Hsave.
           replace (L - 1 + 1) with L by lia. rewrite (orbit_return i Hic).
           rewrite <- Hi0 at 1. rewrite Hunproc. rewrite Hi0. reflexivity.
        -- destruct (Z.eqb_spec (x + 2) ((i + (L - 1) * m) mod c + 2)) as [E|_].
           { exfalso. apply Hs1. apply (orbit_injective i); [lia|lia|]. lia. }
           rewrite Hnext. rewrite Hxs. rewrite Horb by lia. rewrite Hunproc. reflexivity.
      * assert (Hnot : forall s, x + 2 <> (i + s * m) mod c + 2).
        { intros s E. apply Hres. replace x with ((i + s * m) mod c) by lia.
          apply (orbit_residue i s Hig). }
        destruct (Z.eqb_spec (x + 2) ((i + (L - 1) * m) mod c + 2)) as [E|_];
          [exfalso; exact (Hnot _ E)|].
        rewrite Hrest; [|lia|intros s _; apply Hnot].
        rewrite Hin by exact Hx.
        destruct (Z.ltb_spec (x mod g) i); destruct (Z.ltb_spec (x mod g) (i + 1));
          try lia; reflexivity.
    + intros y Hy Hout_y. rewrite Hpeek2 by exact Hy.
      assert (Hnot : forall s, y <> (i + s * m) mod c + 2).
      { intros s E. pose proof (Z.mod_pos_bound (i + s * m) c ltac:(lia)). lia. }
      destruct (Z.eqb_spec y ((i + (L - 1) * m) mod c + 2)) as [E|_];
        [exfalso; exact (Hnot _ E)|].
      rewrite Hrest; [|exact Hy|intros s _; apply Hnot].
      apply Hout; assumption.
    + exists st'. split; [|split; [exact Hsh|split; assumption]].
      rewrite <- Hch. f_equal. nia.
Qed.

End Orbits.

Lemma peek_pop st j :
  0 <= j -> 1 <= osp st -> peek (set_osp st (osp st - 2)) j = peek st (j + 2).
Proof. intros Hj Hosp. peeks. Qed.

Lemma zroll_over_blocks st n i :
  wf st -> 1 <= osp st ->
  block st (osp st) = t_integer i ->
  block st (osp st - 1) = t_integer n ->
  - 2 ^ 31 <= i < 2 ^ 31 ->
  osp st - 1 < n <= ref_stack_count st - 2 ->
  exists st', zroll st = Some (code_0, st') /\ rolled n i st st'.
Proof.
  intros [Hosp [Htop Hcnt]] H1 Hop Hop1 Hi Hn.
  unfold zroll. rewrite !load_block by lia. rewrite Hop, Hop1.
  rewrite Z.sub_0_r. rewrite !to_uint_small by lia.
  destruct (Z.ltb_spec (osp st - 1) n) as [_|Hfast]; [|lia].
  destruct (Z.ltb_spec n 0) as [Hneg|_]; [lia|].
  rewrite !to_int_small by lia.
  destruct (Z.ltb_spec (ref_stack_count st) (n + 2)) as [Hunder|_]; [lia|].
  cbv zeta.
  destruct (Z.leb_spec n 1) as [Hle|Hgt].
  { eexists. split; [reflexivity|]. apply rolled_pop; lia. }
  rewrite (slow_mod n i Hgt).
  pose proof (Z.mod_pos_bound i n ltac:(lia)) as Hr.
  set (g := Z.gcd n (i mod n)). set (L := n / g).
  pose proof (orbit_gcd_pos n (i mod n) Hgt g eq_refl) as Hgpos.
  pose proof (orbit_gcd_le n (i mod n) Hgt g L eq_refl eq_refl) as Hgle.
  destruct (chains_steps n (i mod n) Hgt Hr g L eq_refl eq_refl ltac:(lia) st
              ltac:(lia) ltac:(lia) (Z.to_nat g) 0 (Z.to_nat n) st
              ltac:(lia) ltac:(lia) ltac:(lia) (same_shape_refl st))
    as [st' [Hch [Hshape [Hin Hout]]]].
  { intros x Hx. pose proof (Z.mod_pos_bound x g ltac:(lia)).
    destruct (Z.ltb_spec (x mod g) 0); [lia|reflexivity]. }
  { intros; reflexivity. }
  replace (n - 0 * L) with n in Hch by lia. rewrite Hch.
  eexists. split; [reflexivity|].
  assert (Hosp' : osp st' = osp st) by (destruct Hshape as [-> _]; reflexivity).
  split; [|split].
  - unfold ref_stack_count, set_osp. cbn [osp older_count].
    destruct Hshape as [-> [_ [-> _]]]. lia.
  - intros j Hj. rewrite peek_pop by lia. rewrite Hin by lia.
    rewrite Z.add_mod_idemp_r by lia. f_equal. lia.
  - intros j Hj. 
    assert (Hc' : ref_stack_count (set_osp st' (osp st' - 2)) = ref_stack_count st - 2).
    { unfold ref_stack_count, set_osp. cbn [osp older_count].
      destruct Hshape as [-> [_ [-> _]]]. lia. }
    rewrite peek_pop by lia. apply Hout; lia.
Qed.

(** ** roll on the stack as a list *)

Lemma roll_list_length n i l :
  0 <= n <= Z.of_nat (List.length l) -> List.length (roll_list n i l) = List.length l.
Proof.
  intros Hn. unfold roll_list.
  destruct (Z.eq_dec n 0) as [->|Hn0].
  - cbn [Z.to_nat firstn skipn]. rewrite skipn_nil, firstn_nil. reflexivity.
  - pose proof (Z.mod_pos_bound i n ltac:(lia)) as Hr.
    rewrite !length_app, !length_skipn, !length_firstn. lia.
Qed.

Lemma roll_list_nth n i l j d :
  0 <= n <= Z.of_nat (List.length l) -> 0 <= j < Z.of_nat (List.length l) ->
  nth (Z.to_nat j) (roll_list n i l) d
  = nth (Z.to_nat (if j <? n then (j + i) mod n else j)) l d.
Proof.
  intros Hn Hj. unfold roll_list.
  destruct (Z.eq_dec n 0) as [->|Hn0].
  - cbn [Z.to_nat firstn skipn]. rewrite skipn_nil, firstn_nil.
    destruct (Z.ltb_spec j 0); [lia|reflexivity].
  - pose proof (Z.mod_pos_bound i n ltac:(lia)) as Hr.
    assert (Hgrp : List.length (firstn (Z.to_nat n) l) = Z.to_nat n)
      by (apply firstn_length_le; lia).
    destruct (Z.ltb_spec j n) as [Hin|Hout].
    + rewrite (add_mod_cases j i n ltac:(lia)).
      destruct (Z.ltb_spec (j + i mod n) n) as [Hlow|Hhigh].
      * rewrite app_nth1 by (rewrite length_skipn, Hgrp; lia).
        rewrite nth_skipn, nth_firstn.
        destruct (Nat.ltb_spec (Z.to_nat (i mod n) + Z.to_nat j) (Z.to_nat n)); [|lia].
        f_equal. lia.
      * rewrite app_nth2 by (rewrite length_skipn, Hgrp; lia).
        rewrite length_skipn, Hgrp.
        rewrite app_nth1 by (rewrite length_firstn, Hgrp; lia).
        rewrite !nth_firstn.
        destruct (Nat.ltb_spec (Z.to_nat j - (Z.to_nat n - Z.to_nat (i mod n)))
                               (Z.to_nat (i mod n))); [|lia].
        destruct (Nat.ltb_spec (Z.to_nat j - (Z.to_nat n - Z.to_nat (i mod n)))
                               (Z.to_nat n)); [|lia].
        f_equal. lia.
    + rewrite app_nth2 by (rewrite length_skipn, Hgrp; lia).
      rewrite length_skipn, Hgrp.
      rewrite app_nth2 by (rewrite length_firstn, Hgrp; lia).
      rewrite length_firstn, Hgrp. rewrite nth_skipn. f_equal. lia.
Qed.

Lemma rolled_list st st' n i l :
  stack_list st = t_integer i :: t_integer n :: l ->
  0 <= n <= Z.of_nat (List.length l) ->
  rolled n i st st' -> stack_list st' = roll_list n i l.
Proof.
  intros Hl Hn [Hc [Hin Hout]].
  destruct (stack_list_count st _ Hl) as [Hcnt|[_ Hnil]]; [|discriminate].
  cbn [List.length] in Hcnt.
  apply stack_list_eq.
  - rewrite roll_list_length by exact Hn. lia.
  - intros j Hj. rewrite roll_list_nth by lia.
    destruct (Z.ltb_spec j n) as [Hlt|Hge].
    + rewrite Hin by lia.
      pose proof (Z.mod_pos_bound (j + i) n ltac:(lia)) as Hb.
      rewrite (stack_list_peek st _ _ Hl) by (cbn [List.length]; lia).
      replace (Z.to_nat (2 + (j + i) mod n)) with (S (S (Z.to_nat ((j + i) mod n))))
        by lia.
      reflexivity.
    + rewrite Hout by lia.
      rewrite (stack_list_peek st _ _ Hl) by (cbn [List.length]; lia).
      replace (Z.to_nat (j + 2)) with (S (S (Z.to_nat j))) by lia.
      reflexivity.
Qed.

Lemma operands_in_block st a b l :
  1 <= osp st -> stack_list st = a :: b :: l ->
  block st (osp st) = a /\ block st (osp st - 1) = b /\
  ref_stack_count st = Z.of_nat (List.length l) + 2.
Proof.
  intros Hosp Hl.
  destruct (stack_list_count st _ Hl) as [Hcnt|[_ Hnil]]; [|discriminate].
  cbn [List.length] in Hcnt.
  pose proof (stack_list_peek st _ 0 Hl ltac:(cbn [List.length]; lia)) as H0.
  pose proof (stack_list_peek st _ 1 Hl ltac:(cbn [List.length]; lia)) as H1.
  rewrite peek_in_block in H0, H1 by lia. rewrite Z.sub_0_r in H0.
  split; [exact H0|]. split; [exact H1|]. lia.
Qed.

(** X26. roll rotates.  With the amount i and the count n on top of the
    current block and at least n elements below them, roll returns 0 and
    leaves the stack without its two operands and with its n topmost
    elements rotated by i, towards the top for a positive i, whatever i is
    and whether the n elements lie in the current block or reach into the
    blocks below: the two block moves, the two special cases for 1 and -1
    and the chains over the blocks all give the same rotation.  The block
    moves alone need room above the operands. *)
Theorem zroll_rolls st n i l :
  wf st -> 1 <= osp st ->
  stack_list st = t_integer i :: t_integer n :: l ->
  - 2 ^ 31 <= i < 2 ^ 31 ->
  0 <= n <= Z.of_nat (List.length l) ->
  n <= 1 \/ i = 1 \/ i = -1 \/ osp st - 1 < n \/
  Z.min (i mod n) (n - i mod n) < ostop st - osp st ->
  exists st', zroll st = Some (code_0, st') /\ stack_list st' = roll_list n i l.
Proof.
  intros Hwf Hosp Hl Hi Hn Hroom.
  destruct (operands_in_block st _ _ _ Hosp Hl) as [Hop [Hop1 Hcnt]].
  destruct (Z_le_gt_dec n (osp st - 1)) as [Hin|Hover].
  - pose proof (zroll_in_block st n i Hwf Hosp Hop Hop1 ltac:(lia)) as Hblock.
    cbv zeta in Hblock. rewrite (to_int_small i Hi) in Hblock.
    destruct Hblock as [Hok _].
    destruct Hok as [st' [Hz Hr]].
    + destruct Hroom as [H|[H|[H|[H|H]]]]; [auto|auto|auto|lia|].
      destruct (Z_le_gt_dec n 1) as [Hn1|Hn1]; [auto|].
      right. right. right.
      pose proof (Z.div_mod n 2 ltac:(lia)). pose proof (Z.mod_pos_bound n 2 ltac:(lia)).
      destruct (Z.leb_spec (i mod n) (n / 2)); lia.
    + exists st'. split; [exact Hz|]. apply (rolled_list st st' n i l Hl Hn Hr).
  - destruct (zroll_over_blocks st n i Hwf Hosp Hop Hop1 Hi ltac:(lia)) as [st' [Hz Hr]].
    exists st'. split; [exact Hz|]. apply (rolled_list st st' n i l Hl Hn Hr).
Qed.

(** X27. Within the current block roll may fail although it pushes
    nothing.  The amount is read as an int: i below is the operand cut to
    its low 32 bits, with their sign.  For a count n above 1 and an amount
    other than 1 and -1 roll moves the elements in two block moves through
    the free refs above its operands, and needs more of them than
    min(i mod n, n - i mod n): with no more than that it returns
    stackoverflow, asks for exactly that many and leaves the stack as it
    is.  On a full block this happens even for an amount that is a
    multiple of the count, and then it asks for 0. *)
Theorem zroll_needs_room st n i0 l :
  wf st -> 1 <= osp st ->
  stack_list st = t_integer i0 :: t_integer n :: l ->
  1 < n <= osp st - 1 -> to_int i0 <> 1 -> to_int i0 <> -1 ->
  let r := to_int i0 mod n in
  ostop st - osp st <= Z.min r (n - r) ->
  zroll st = Some (gs_error_stackoverflow, set_requested st (Z.min r (n - r))) /\
  stack_list (set_requested st (Z.min r (n - r))) = stack_list st /\
  (r = 0 -> ostop st = osp st /\
            zroll st = Some (gs_error_stackoverflow, set_requested st 0)).
Proof.
  intros Hwf Hosp Hl Hn Hi1 Hi2 r Hroom.
  destruct (operands_in_block st _ _ _ Hosp Hl) as [Hop [Hop1 Hcnt]].
  destruct (zroll_in_block st n i0 Hwf Hosp Hop Hop1 ltac:(lia)) as [_ Hfail].
  cbv zeta in Hfail. fold r in Hfail.
  pose proof (Z.div_mod n 2 ltac:(lia)). pose proof (Z.mod_pos_bound n 2 ltac:(lia)).
  pose proof (Z.mod_pos_bound (to_int i0) n ltac:(lia)) as Hr. fold r in Hr.
  assert (Hk : (if r <=? n / 2 then r else n - r) = Z.min r (n - r)).
  { destruct (Z.leb_spec r (n / 2)); lia. }
  rewrite Hk in Hfail.
  assert (Hz : zroll st
               = Some (gs_error_stackoverflow, set_requested st (Z.min r (n - r)))).
  { apply Hfail; lia. }
  split; [exact Hz|]. split.
  - apply stack_list_ext; [reflexivity|]. intros j Hj. reflexivity.
  - intros Hr0. destruct Hwf as [Hw _].
    assert (Hmin : Z.min r (n - r) = 0) by lia.
    split; [lia|]. rewrite Hz, Hmin. reflexivity.
Qed.


(** ** The operators on stacks of a few elements *)

Lemma zdup_then_zpop_witness :
  let st := stack_of [t_integer 7; t_mark] 1 [t_other 3] in
  exists st',
    zdup st = (code_0, st') /\
    stack_list st' = [t_mark; t_mark; t_integer 7; t_other 3] /\
    exists st'', zpop st' = (code_0, st'') /\ stack_list st'' = stack_list st.
Proof.
  intros st.
  destruct (zdup_then_zpop st ltac:(cbn; lia)) as [_ [_ H]].
  destruct (H ltac:(cbn; lia)) as [st' [H1 [H2 H3]]].
  exists st'. split; [exact H1|]. split; [exact H2|exact H3].
Defined.

Lemma zindex_spec_witness :
  let st := stack_of [t_mark; t_other 1; t_integer 3] 4 [t_other 2; t_other 3] in
  exists st',
    zindex st = (code_0, st') /\
    stack_list st' = [t_other 3; t_other 1; t_mark; t_other 2; t_other 3].
Proof.
  intros st.
  destruct (zindex_spec st 3 [t_other 1; t_mark; t_other 2; t_other 3]) as [_ [_ H]].
  - subst st; unfold wf, ref_stack_count, stack_of; cbn; lia.
  - subst st; unfold wf, ref_stack_count, stack_of; cbn; lia.
  - reflexivity.
  - lia.
  - apply H. cbn. lia.
Defined.

Lemma zroll_rolls_witness :
  let l := map t_integer [50; 40; 30; 20; 10; 5] in
  let st := stack_of (map t_integer [40; 50; 6; 3]) 0 (map t_integer [30; 20; 10; 5]) in
  roll_list 6 3 l = map t_integer [20; 10; 5; 50; 40; 30] /\
  exists st', zroll st = Some (code_0, st') /\ stack_list st' = roll_list 6 3 l.
Proof.
  intros l st. split; [reflexivity|].
  apply (zroll_rolls st 6 3 l).
  - subst st; unfold wf, ref_stack_count, stack_of; cbn; lia.
  - subst st; unfold wf, ref_stack_count, stack_of; cbn; lia.
  - reflexivity.
  - lia.
  - subst st; unfold wf, ref_stack_count, stack_of; cbn; lia.
  - right. right. right. left. subst st; unfold stack_of; cbn; lia.
Defined.

Lemma zroll_needs_room_witness :
  let l := map t_integer [50; 40; 30; 20; 10] in
  let st := stack_of (map t_integer [10; 20; 30; 40; 50; 5; 4294967306]) 0 [] in
  to_int 4294967306 = 10 /\
  zroll st = Some (gs_error_stackoverflow, set_requested st 0) /\
  stack_list (set_requested st 0) = stack_list st.
Proof.
  intros l st. split; [reflexivity|].
  destruct (zroll_needs_room st 5 4294967306 l) as [H1 [H2 H3]].
  - subst st; unfold wf, ref_stack_count, stack_of; cbn; lia.
  - subst st; unfold wf, ref_stack_count, stack_of; cbn; lia.
  - reflexivity.
  - subst st; unfold wf, ref_stack_count, stack_of; cbn; lia.
  - vm_compute. discriminate.
  - vm_compute. discriminate.
  - vm_compute. discriminate.
  - split; [exact H1|exact H2].
Defined.

